(** * signtalk: mode arbitration, performance governor and ensemble fusion

    A shallow embedding of three classes of the backend,

    - [ModeManager]          (backend/app/mode_manager.py),
    - [PerformanceOptimizer] (backend/app/performance_optimizer.py),
    - [EnsembleTranslator]   (backend/app/services/ensemble_translator.py),

    and of the parts of two classes around them that are plain
    computations,

    - [HandDetector]         (backend/app/hand_detector.py): the gesture
      labels,
    - [TranslationEngine]    (backend/app/translation_engine.py): the
      context window, the history and the two mapping fallbacks,

    followed by the properties established about them.

    Conventions.  A Python object is a record and a method is a function
    from the object (and the arguments) to the result and the object after
    the call.  Python [float]s are idealised as rationals ([Q]); every
    comparison and arithmetic operation of the source is kept, only
    rounding is abstracted; where a property of the fused scores depends
    on it, the arithmetic is given with an explicit rounding function
    (section [Rounded]).  Python [int]s are [Z].  A reading of the
    clock ([datetime.now()], [time.time()]) is an explicit argument, in
    seconds.  A dict whose key set is fixed by the source is a record, a
    dict with arbitrary keys is an association list in insertion order.
    A call that raises is [None]. *)

From Stdlib Require Import String ZArith QArith Qabs Qround Bool Lia Lqa Arith
  List.
Import ListNotations.
Local Open Scope string_scope.
Local Open Scope list_scope.
Local Open Scope Q_scope.

(** ** Rationals as floats: boolean comparisons *)

Definition Qltb (x y : Q) : bool := negb (Qle_bool y x).
Definition Qgtb (x y : Q) : bool := Qltb y x.

(** [sum(xs)]: Python adds from the left, starting at the integer 0. *)
Definition sum (xs : list Q) : Q := fold_left Qplus xs 0.

(** [len(xs)] as a number. *)
Definition len {A} (xs : list A) : Q := inject_Z (Z.of_nat (length xs)).

(** ** backend/app/mode_manager.py *)

Module ModeManager.

Inductive TranslationMode : Set :=
| SPEECH_TO_SIGN
| SIGN_TO_SPEECH
| AUTO_DETECT.

Definition value (m : TranslationMode) : string :=
  match m with
  | SPEECH_TO_SIGN => "speech_to_sign"
  | SIGN_TO_SPEECH => "sign_to_speech"
  | AUTO_DETECT => "auto_detect"
  end.

Definition mode_eqb (a b : TranslationMode) : bool :=
  match a, b with
  | SPEECH_TO_SIGN, SPEECH_TO_SIGN
  | SIGN_TO_SPEECH, SIGN_TO_SPEECH
  | AUTO_DETECT, AUTO_DETECT => true
  | _, _ => false
  end.

Record t : Type := mk {
  current_mode : TranslationMode;
  audio_level_threshold : Q;
  motion_level_threshold : Q;
  mode_switch_cooldown : Q;
  last_mode_switch : Q;          (* datetime, in seconds *)
  audio_levels : list Q;
  motion_levels : list Q;
  buffer_size : nat
}.

(** [ModeManager.__init__]; [now] is the reading of [datetime.now()]. *)
Definition __init__ (now : Q) : t :=
  {| current_mode := AUTO_DETECT;
     audio_level_threshold := 1 # 10;
     motion_level_threshold := 2 # 10;
     mode_switch_cooldown := 1;
     last_mode_switch := now;
     audio_levels := [];
     motion_levels := [];
     buffer_size := 10 |}.

(** [buf.append(x)] followed by
    [if len(buf) > self.buffer_size: buf.pop(0)]. *)
Definition push (size : nat) (buf : list Q) (x : Q) : list Q :=
  let buf' := buf ++ [x] in
  if (size <? length buf')%nat then tl buf' else buf'.

(** [sum(buf) / len(buf) if buf else 0]. *)
Definition average (buf : list Q) : Q :=
  match buf with
  | [] => 0
  | _ => sum buf / len buf
  end.

(** The mode the signals select once the cooldown is over (the body of
    the method between the cooldown test and the update). *)
Definition detected (self : t) (avg_audio avg_motion : Q)
           (has_hands : bool) : TranslationMode :=
  match current_mode self with
  | AUTO_DETECT =>
      if Qgtb avg_audio (audio_level_threshold self) then SPEECH_TO_SIGN
      else if has_hands && Qgtb avg_motion (motion_level_threshold self)
           then SIGN_TO_SPEECH
           else AUTO_DETECT
  | SPEECH_TO_SIGN =>
      if Qltb avg_audio (audio_level_threshold self * (1 # 2))
         && has_hands
         && Qgtb avg_motion (motion_level_threshold self)
      then SIGN_TO_SPEECH
      else SPEECH_TO_SIGN
  | SIGN_TO_SPEECH =>
      if Qgtb avg_audio (audio_level_threshold self) then SPEECH_TO_SIGN
      else SIGN_TO_SPEECH
  end.

(** [ModeManager.detect_active_mode].  The method reads the clock twice:
    [now] for the cooldown test and [now'] when it stamps a switch. *)
Definition detect_active_mode (self : t)
           (audio_level motion_level : Q) (has_hands : bool)
           (now now' : Q) : TranslationMode * t :=
  let audio := push (buffer_size self) (audio_levels self) audio_level in
  let motion := push (buffer_size self) (motion_levels self) motion_level in
  let self1 :=
    {| current_mode := current_mode self;
       audio_level_threshold := audio_level_threshold self;
       motion_level_threshold := motion_level_threshold self;
       mode_switch_cooldown := mode_switch_cooldown self;
       last_mode_switch := last_mode_switch self;
       audio_levels := audio;
       motion_levels := motion;
       buffer_size := buffer_size self |} in
  let avg_audio := average audio in
  let avg_motion := average motion in
  let time_since_switch := now - last_mode_switch self in
  if Qltb time_since_switch (mode_switch_cooldown self) then
    (current_mode self, self1)
  else
    let detected_mode := detected self avg_audio avg_motion has_hands in
    if negb (mode_eqb detected_mode (current_mode self)) then
      (detected_mode,
       {| current_mode := detected_mode;
          audio_level_threshold := audio_level_threshold self;
          motion_level_threshold := motion_level_threshold self;
          mode_switch_cooldown := mode_switch_cooldown self;
          last_mode_switch := now';
          audio_levels := audio;
          motion_levels := motion;
          buffer_size := buffer_size self |})
    else (detected_mode, self1).

(** [ModeManager.set_mode]. *)
Definition set_mode (self : t) (mode : TranslationMode) (now : Q) : t :=
  {| current_mode := mode;
     audio_level_threshold := audio_level_threshold self;
     motion_level_threshold := motion_level_threshold self;
     mode_switch_cooldown := mode_switch_cooldown self;
     last_mode_switch := now;
     audio_levels := [];
     motion_levels := [];
     buffer_size := buffer_size self |}.

(** [ModeManager.reset]. *)
Definition reset (self : t) (now : Q) : t :=
  set_mode self AUTO_DETECT now.

(** One input event of a session: the three signals and the two clock
    readings of the call. *)
Record Event : Type := ev {
  ev_audio : Q;
  ev_motion : Q;
  ev_hands : bool;
  ev_now : Q;
  ev_now' : Q
}.

Definition step (self : t) (e : Event) : TranslationMode * t :=
  detect_active_mode self (ev_audio e) (ev_motion e) (ev_hands e)
                     (ev_now e) (ev_now' e).

(** The modes returned by successive calls, and the final object. *)
Fixpoint run (self : t) (es : list Event) : list TranslationMode * t :=
  match es with
  | [] => ([], self)
  | e :: es' =>
      let (m, self') := step self e in
      let (ms, self'') := run self' es' in
      (m :: ms, self'')
  end.

(** Successive clock readings never go back: [t0] is the last reading
    before the events. *)
Fixpoint clock_ok (t0 : Q) (es : list Event) : Prop :=
  match es with
  | [] => True
  | e :: es' =>
      t0 <= ev_now e /\ ev_now e <= ev_now' e /\ clock_ok (ev_now' e) es'
  end.

(** [ModeManager.get_mode_info]; [now] is the reading of
    [datetime.now()]. *)
Record ModeInfo : Type := mkModeInfo {
  info_current_mode : string;
  info_audio_level : Q;
  info_motion_level : Q;
  info_avg_audio_level : Q;
  info_avg_motion_level : Q;
  info_time_in_mode : Q
}.

Definition get_mode_info (self : t) (now : Q) : ModeInfo :=
  {| info_current_mode := value (current_mode self);
     info_audio_level := last (audio_levels self) 0;
     info_motion_level := last (motion_levels self) 0;
     info_avg_audio_level := average (audio_levels self);
     info_avg_motion_level := average (motion_levels self);
     info_time_in_mode := now - last_mode_switch self |}.

(** The last [n] elements of a list. *)
Definition lastn {A} (n : nat) (l : list A) : list A :=
  skipn (length l - n) l.

(** Calls on one manager, for traces. *)
Inductive Op : Type :=
| Detect (e : Event)
| SetMode (mode : TranslationMode) (now : Q)
| Reset (now : Q).

Definition apply_op (self : t) (op : Op) : t :=
  match op with
  | Detect e => snd (step self e)
  | SetMode mode now => set_mode self mode now
  | Reset now => reset self now
  end.

Definition exec (self : t) (ops : list Op) : t := fold_left apply_op ops self.

End ModeManager.

(** ** Dicts and deques *)

(** Dicts with arbitrary string keys, in insertion order. *)
Fixpoint dict_get {A} (k : string) (d : list (string * A)) : option A :=
  match d with
  | [] => None
  | (k', v) :: d' => if String.eqb k k' then Some v else dict_get k d'
  end.

(** [d[k] = v]: an existing key keeps its place, a new key goes last. *)
Fixpoint dict_set {A} (k : string) (v : A) (d : list (string * A))
  : list (string * A) :=
  match d with
  | [] => [(k, v)]
  | (k', v') :: d' =>
      if String.eqb k k' then (k, v) :: d' else (k', v') :: dict_set k v d'
  end.

(** [del d[k]]. *)
Definition dict_del {A} (k : string) (d : list (string * A))
  : list (string * A) :=
  filter (fun kv => negb (String.eqb k (fst kv))) d.

Definition keys {A} (d : list (string * A)) : list string := map fst d.
Definition values {A} (d : list (string * A)) : list A := map snd d.

(** [deque(maxlen=n).append(x)]. *)
Definition deque_append {A} (maxlen : nat) (dq : list A) (x : A) : list A :=
  let dq' := dq ++ [x] in
  if (maxlen <? length dq')%nat then tl dq' else dq'.

(** The place of a key in a table, counted from the most recent entry. *)
Fixpoint rank {A} (k : string) (l : list (string * A)) : option nat :=
  match l with
  | [] => None
  | (k', _) :: l' =>
      if String.eqb k k' then Some 0%nat else option_map S (rank k l')
  end.

(** The table holds result [r] for key [k], at most [n] places from the
    front. *)
Definition held {A} (k : string) (r : A) (n : nat) (l : list (string * A))
  : Prop :=
  dict_get k l = Some r /\ exists n', rank k l = Some n' /\ (n' <= n)%nat.

(** Every window of a dict of [deque(maxlen=100)] is within its bound. *)
Definition windows_bounded (m : list (string * list Q)) : Prop :=
  Forall (fun kv => (length (snd kv) <= 100)%nat) m.

(** A dict (its keys are distinct) of at most 100 entries. *)
Definition cache_ok {A} (c : list (string * A)) : Prop :=
  NoDup (keys c) /\ (length c <= 100)%nat.

(** ** backend/app/performance_optimizer.py *)

Module PerformanceOptimizer.

(** [self.optimization_settings]: a dict with a fixed key set. *)
Record Settings : Type := mkSettings {
  enable_frame_skipping : bool;
  enable_audio_compression : bool;
  enable_caching : bool;
  max_resolution : Z * Z;
  target_fps : Q;
  audio_sample_rate : Z;
  i3d_buffer_size : Z;
  i3d_sequence_length : Z;
  i3d_stride : Z;
  enable_i3d : bool
}.

Definition set_max_resolution (s : Settings) (r : Z * Z) : Settings :=
  mkSettings (enable_frame_skipping s) (enable_audio_compression s)
             (enable_caching s) r (target_fps s) (audio_sample_rate s)
             (i3d_buffer_size s) (i3d_sequence_length s) (i3d_stride s)
             (enable_i3d s).

Definition set_audio_sample_rate (s : Settings) (r : Z) : Settings :=
  mkSettings (enable_frame_skipping s) (enable_audio_compression s)
             (enable_caching s) (max_resolution s) (target_fps s) r
             (i3d_buffer_size s) (i3d_sequence_length s) (i3d_stride s)
             (enable_i3d s).

(** The floors of the settings. *)
Definition above_floor (s : Settings) : Prop :=
  (320 <= fst (max_resolution s) /\ 240 <= snd (max_resolution s)
   /\ 8000 <= audio_sample_rate s)%Z.

Section Gestures.

(** The type of the [Dict] stored for a gesture. *)
Context {Data : Type}.

Record t : Type := mk {
  metrics : list (string * list Q);
  frame_skip_threshold : Z;
  audio_buffer_size : Z;
  last_frame_time : Q;
  frame_count : Z;
  optimization_settings : Settings;
  _cache : list (string * Data);
  (** the table of [@lru_cache(maxsize=128)] on [get_cached_gesture],
      most recently used entry first; the cache key is the pair of the
      object and [gesture_key], one object is modelled *)
  lru : list (string * option Data)
}.

Definition set_metrics (self : t) (m : list (string * list Q)) : t :=
  mk m (frame_skip_threshold self) (audio_buffer_size self)
     (last_frame_time self) (frame_count self)
     (optimization_settings self) (_cache self) (lru self).

Definition set_last_frame_time (self : t) (x : Q) : t :=
  mk (metrics self) (frame_skip_threshold self) (audio_buffer_size self)
     x (frame_count self) (optimization_settings self) (_cache self)
     (lru self).

Definition set_optimization_settings (self : t) (s : Settings) : t :=
  mk (metrics self) (frame_skip_threshold self) (audio_buffer_size self)
     (last_frame_time self) (frame_count self) s (_cache self) (lru self).

Definition set__cache (self : t) (c : list (string * Data)) : t :=
  mk (metrics self) (frame_skip_threshold self) (audio_buffer_size self)
     (last_frame_time self) (frame_count self)
     (optimization_settings self) c (lru self).

Definition set_lru (self : t) (l : list (string * option Data)) : t :=
  mk (metrics self) (frame_skip_threshold self) (audio_buffer_size self)
     (last_frame_time self) (frame_count self)
     (optimization_settings self) (_cache self) l.

(** [PerformanceOptimizer.__init__]; [now] is [time.time()]. *)
Definition __init__ (now : Q) : t :=
  {| metrics := [("audio_latency", []); ("video_latency", []);
                 ("translation_latency", []); ("frame_rate", []);
                 ("audio_processing_time", []);
                 ("video_processing_time", [])];
     frame_skip_threshold := 30;
     audio_buffer_size := 2048;
     last_frame_time := now;
     frame_count := 0;
     optimization_settings :=
       {| enable_frame_skipping := true;
          enable_audio_compression := true;
          enable_caching := true;
          max_resolution := (640, 480)%Z;
          target_fps := 15;
          audio_sample_rate := 16000;
          i3d_buffer_size := 128;
          i3d_sequence_length := 64;
          i3d_stride := 16;
          enable_i3d := true |};
     _cache := [];
     lru := [] |}.

(** [measure_latency]; [now] is [time.time()].  The sample is in ms. *)
Definition measure_latency (self : t) (start_time : Q)
           (metric_name : string) (now : Q) : Q * t :=
  let latency := (now - start_time) * 1000 in
  match dict_get metric_name (metrics self) with
  | Some dq =>
      (latency,
       set_metrics self
         (dict_set metric_name (deque_append 100 dq latency)
                   (metrics self)))
  | None => (latency, self)
  end.

(** [optimize_video_frame], as far as the object is concerned: the frame
    is resized and re-encoded by cv2 (not modelled) and the time the call
    took is recorded under ["video_processing_time"]. *)
Definition optimize_video_frame (self : t) (start_time now : Q) : t :=
  snd (measure_latency self start_time "video_processing_time" now).

(** [optimize_audio_chunk], as far as the object is concerned: nothing is
    recorded when the compression is disabled. *)
Definition optimize_audio_chunk (self : t) (start_time now : Q) : t :=
  if negb (enable_audio_compression (optimization_settings self)) then self
  else snd (measure_latency self start_time "audio_processing_time" now).

(** [should_skip_frame]; [current_time] is [time.time()]. *)
Definition current_fps (time_since_last_frame : Q) : Q :=
  if Qgtb time_since_last_frame 0
  then 1 / time_since_last_frame else 0.

Definition should_skip_frame (self : t) (current_time : Q) : bool * t :=
  if negb (enable_frame_skipping (optimization_settings self)) then
    (false, self)
  else
    let time_since_last_frame := current_time - last_frame_time self in
    if Qgtb (current_fps time_since_last_frame)
            (target_fps (optimization_settings self))
    then (true, self)
    else (false, set_last_frame_time self current_time).

(** [np.mean]. *)
Definition mean (xs : list Q) : Q := sum xs / len xs.

(** [get_performance_stats], restricted to the ["avg"] entry of each
    metric that has samples: the entries ["min"], ["max"], ["p95"] and
    the key ["current_fps"] are not read by [auto_adjust_quality]. *)
Definition get_performance_stats (self : t) : list (string * Q) :=
  flat_map (fun kv : string * list Q =>
              match snd kv with
              | [] => []
              | xs => [(fst kv, mean xs)]
              end)
           (metrics self).

(** [int(n * 0.8)] for an [int] n: the product with the double nearest
    to 0.8 truncates to the same integer as the exact [4n/5] (for
    [|n| < 2^50]). *)
Definition scale_08 (n : Z) : Z := Z.quot (n * 4) 5.

(** [auto_adjust_quality]. *)
Definition auto_adjust_quality (self : t) : t :=
  let stats := get_performance_stats self in
  let avg_video_latency :=
    match dict_get "video_latency" stats with
    | Some a => a | None => 0 end in
  let avg_audio_latency :=
    match dict_get "audio_latency" stats with
    | Some a => a | None => 0 end in
  let s := optimization_settings self in
  let s1 :=
    if Qgtb avg_video_latency 100 then
      let current_res := max_resolution s in
      let new_width := scale_08 (fst current_res) in
      let new_height := scale_08 (snd current_res) in
      set_max_resolution s (Z.max 320 new_width, Z.max 240 new_height)
    else s in
  let s2 :=
    if Qgtb avg_audio_latency 50 then
      set_audio_sample_rate s1 (Z.max 8000 (audio_sample_rate s1 - 2000))
    else s1 in
  set_optimization_settings self s2.

(** [get_cached_gesture], with its [@lru_cache(maxsize=128)] wrapper:
    a hit returns the stored result and makes the entry the most
    recent one; a miss runs the body, stores the result and, when the
    table is full, drops the least recently used entry. *)
Definition lru_maxsize : nat := 128.

Definition get_cached_gesture (self : t) (gesture_key : string)
  : option Data * t :=
  match dict_get gesture_key (lru self) with
  | Some result =>
      (result,
       set_lru self ((gesture_key, result) :: dict_del gesture_key (lru self)))
  | None =>
      let result := dict_get gesture_key (_cache self) in
      (result,
       set_lru self (firstn lru_maxsize ((gesture_key, result) :: lru self)))
  end.

(** [cache_gesture]. *)
Definition cache_gesture (self : t) (gesture_key : string) (data : Data)
  : t :=
  if enable_caching (optimization_settings self) then
    let c := dict_set gesture_key data (_cache self) in
    if (100 <? length c)%nat then
      let oldest_keys := firstn 20 (keys c) in
      set__cache self (fold_left (fun d k => dict_del k d) oldest_keys c)
    else set__cache self c
  else self.

(** [int(x)] for a float: truncation toward zero. *)
Definition int_of_Q (x : Q) : Z := Z.quot (Qnum x) (Zpos (Qden x)).

(** [min(a, b)]. *)
Definition min_Q (a b : Q) : Q := if Qltb b a then b else a.

(** The shape [(width, height)] of the frame after the resize step of
    [optimize_video_frame]; the division raises for a frame without
    columns or rows that exceeds the cap. *)
Definition resized_shape (self : t) (width height : Z) : option (Z * Z) :=
  let (max_width, max_height) :=
    max_resolution (optimization_settings self) in
  if (width >? max_width)%Z || (height >? max_height)%Z then
    if (width =? 0)%Z || (height =? 0)%Z then None
    else
      let scale := min_Q (inject_Z max_width / inject_Z width)
                         (inject_Z max_height / inject_Z height) in
      Some (int_of_Q (inject_Z width * scale),
            int_of_Q (inject_Z height * scale))
  else Some (width, height).

(** The value of ["current_fps"] in [get_performance_stats], when the key
    is set; [now] is [time.time()]. *)
Definition current_fps_stat (self : t) (now : Q) : option Q :=
  if (frame_count self >? 0)%Z then
    let elapsed_time := now - last_frame_time self in
    Some (if Qgtb elapsed_time 0
          then inject_Z (frame_count self) / elapsed_time else 0)
  else None.

(** [get_optimization_recommendations]. *)
Definition get_optimization_recommendations (self : t) (now : Q)
  : list string :=
  let stats := get_performance_stats self in
  let avg name :=
    match dict_get name stats with Some a => a | None => 0 end in
  let current_fps :=
    match current_fps_stat self now with Some f => f | None => 0 end in
  (if Qgtb (avg "video_latency") 100
   then ["Consider reducing video resolution or frame rate"] else [])
  ++ (if Qgtb (avg "audio_latency") 50
      then ["Consider reducing audio sample rate or buffer size"] else [])
  ++ (if Qgtb (avg "translation_latency") 150
      then ["Consider using cached translations or simplified models"]
      else [])
  ++ (if Qltb current_fps 10
      then ["Frame rate is low, check CPU/GPU usage"]
      else if Qgtb current_fps 30
           then ["Frame rate is high, consider enabling frame skipping"]
           else []).

(** [get_i3d_optimization_settings]. *)
Record I3DSettings : Type := mkI3DSettings {
  buffer_size : Z;
  sequence_length : Z;
  stride : Z;
  enabled : bool
}.

Definition get_i3d_optimization_settings (self : t) : I3DSettings :=
  let s := optimization_settings self in
  {| buffer_size := i3d_buffer_size s;
     sequence_length := i3d_sequence_length s;
     stride := i3d_stride s;
     enabled := enable_i3d s |}.

(** The dict given to [update_i3d_settings]: each of its four keys may be
    missing. *)
Record I3DUpdate : Type := mkI3DUpdate {
  new_buffer_size : option Z;
  new_sequence_length : option Z;
  new_stride : option Z;
  new_enabled : option bool
}.

(** [update_i3d_settings]. *)
Definition update_i3d_settings (self : t) (settings : I3DUpdate) : t :=
  let s := optimization_settings self in
  let or_else {A} (o : option A) (d : A) : A :=
    match o with Some x => x | None => d end in
  set_optimization_settings self
    (mkSettings (enable_frame_skipping s) (enable_audio_compression s)
                (enable_caching s) (max_resolution s) (target_fps s)
                (audio_sample_rate s)
                (or_else (new_buffer_size settings) (i3d_buffer_size s))
                (or_else (new_sequence_length settings)
                         (i3d_sequence_length s))
                (or_else (new_stride settings) (i3d_stride s))
                (or_else (new_enabled settings) (enable_i3d s))).

(** [should_process_i3d_frame]: [frame_count % stride] raises for a zero
    stride. *)
Definition should_process_i3d_frame (self : t) (frame_count : Z)
  : option bool :=
  let s := optimization_settings self in
  if negb (enable_i3d s) then Some false
  else if (i3d_stride s =? 0)%Z then None
       else Some ((frame_count mod i3d_stride s =? 0)%Z).

(** Calls on one optimizer, for traces. *)
Inductive Call : Type :=
| MeasureLatency (start_time : Q) (metric_name : string) (now : Q)
| ShouldSkipFrame (current_time : Q)
| AutoAdjustQuality
| GetCachedGesture (gesture_key : string)
| CacheGesture (gesture_key : string) (data : Data)
| OptimizeVideoFrame (start_time : Q) (now : Q)
| OptimizeAudioChunk (start_time : Q) (now : Q).

Definition call (self : t) (c : Call) : t :=
  match c with
  | MeasureLatency start_time metric_name now =>
      snd (measure_latency self start_time metric_name now)
  | ShouldSkipFrame current_time => snd (should_skip_frame self current_time)
  | AutoAdjustQuality => auto_adjust_quality self
  | GetCachedGesture k => snd (get_cached_gesture self k)
  | CacheGesture k d => cache_gesture self k d
  | OptimizeVideoFrame start_time now =>
      optimize_video_frame self start_time now
  | OptimizeAudioChunk start_time now =>
      optimize_audio_chunk self start_time now
  end.

Definition calls (self : t) (cs : list Call) : t := fold_left call cs self.

(** The lookups of a trace that are for another key than [k]. *)
Definition other_lookup (k : string) (c : Call) : bool :=
  match c with
  | GetCachedGesture k' => negb (String.eqb k' k)
  | _ => false
  end.

Definition other_lookups (k : string) (cs : list Call) : nat :=
  length (filter (other_lookup k) cs).

(** The calls that record a sample under ["video_latency"] or
    ["audio_latency"]. *)
Definition records_latency (c : Call) : bool :=
  match c with
  | MeasureLatency _ metric_name _ =>
      String.eqb metric_name "video_latency"
      || String.eqb metric_name "audio_latency"
  | _ => false
  end.

End Gestures.

Arguments t : clear implicits.
Arguments Call : clear implicits.

(** A value of a WebSocket message: [None], a [str], or anything else. *)
Inductive Value (A : Type) : Type :=
| VNone
| VStr (s : string)
| VOther (a : A).

Arguments VNone {A}.
Arguments VStr {A} s.
Arguments VOther {A} a.

(** [s[:n]]. *)
Fixpoint str_take (n : nat) (s : string) : string :=
  match n, s with
  | S n', String c s' => String c (str_take n' s')
  | _, _ => EmptyString
  end.

(** The limit on the ["audio"] field. *)
Definition audio_limit : nat := N.to_nat 50000.

(** One turn of the loop of [optimize_websocket_message]. *)
Definition optimize_field {A} (optimized : list (string * Value A))
           (item : string * Value A) : list (string * Value A) :=
  let (key, value) := item in
  match value with
  | VNone => optimized
  | VStr v =>
      if String.eqb key "audio" then
        if (audio_limit <? String.length v)%nat
        then dict_set key (VStr (str_take audio_limit v)) optimized
        else dict_set key value optimized
      else dict_set key value optimized
  | VOther _ => dict_set key value optimized
  end.

(** [optimize_websocket_message]. *)
Definition optimize_websocket_message {A} (message : list (string * Value A))
  : list (string * Value A) :=
  fold_left optimize_field message [].

(** What the loop does to one item, seen alone: the items that are kept,
    and the item stored for a kept item. *)
Definition present {A} (item : string * Value A) : bool :=
  match snd item with VNone => false | _ => true end.

Definition clip_field {A} (item : string * Value A) : string * Value A :=
  match item with
  | (key, VStr v) =>
      if String.eqb key "audio" then (key, VStr (str_take audio_limit v))
      else item
  | _ => item
  end.

(** [optimize_batch_processing], for a [processor] without effects: the
    batches [items[i:i + 5]] for [i] in [range(0, len(items), 5)], each
    processed as a whole, and the results in the order of the batches. *)
Definition batch_size : nat := 5.

Definition batch_starts {A} (items : list A) : list nat :=
  map (fun j => (j * batch_size)%nat)
      (seq 0 ((length items + batch_size - 1) / batch_size)).

Definition batches {A} (items : list A) : list (list A) :=
  map (fun i => firstn batch_size (skipn i items)) (batch_starts items).

Definition optimize_batch_processing {A B} (items : list A)
           (processor : A -> B) : list B :=
  flat_map (fun batch => map processor batch) (batches items).

End PerformanceOptimizer.

(** ** Vectors of scores *)

(** [probs * weight] on a numpy vector. *)
Definition scale (probs : list Q) (weight : Q) : list Q :=
  map (fun p => p * weight) probs.

(** [a += b] on vectors of one shape; shapes that differ raise (the
    broadcasting of a one-element vector is not modelled). *)
Fixpoint vec_add (a b : list Q) : option (list Q) :=
  match a, b with
  | [], [] => Some []
  | x :: a', y :: b' =>
      match vec_add a' b' with
      | Some c => Some (x + y :: c)
      | None => None
      end
  | _, _ => None
  end.

(** [np.argmax]: the first index that holds the maximum; raises on an
    empty vector. *)
Fixpoint argmax_from (best_i : nat) (best : Q) (i : nat) (l : list Q) : nat :=
  match l with
  | [] => best_i
  | x :: l' =>
      if Qltb best x then argmax_from i x (S i) l'
      else argmax_from best_i best (S i) l'
  end.

Definition argmax (l : list Q) : option nat :=
  match l with
  | [] => None
  | x :: l' => Some (argmax_from 0 x 1 l')
  end.

(** Index [X] holds the maximum of [l] and no index before it does. *)
Definition first_max (X : nat) (l : list Q) : Prop :=
  (X < length l)%nat
  /\ (forall j, (j < length l)%nat -> nth j l 0 <= nth X l 0)
  /\ (forall j, (j < X)%nat -> nth j l 0 < nth X l 0).

(** Index [X] holds the maximum of [l]; earlier indices may hold it
    too. *)
Definition max_at (X : nat) (l : list Q) : Prop :=
  (X < length l)%nat
  /\ (forall j, (j < length l)%nat -> nth j l 0 <= nth X l 0).

(** ** backend/app/services/ensemble_translator.py *)

Module EnsembleTranslator.

(** The dict of one scorer call, as the fusion reads it: the keys set by
    [I3DProcessor.inference] / [PoseProcessor.inference] and the key
    ['model'] set by [_get_i3d_prediction] / [_get_tgcn_prediction].
    A failed call has [success = false]; its other keys are not read. *)
Record Prediction : Type := mkPrediction {
  success : bool;
  model : string;
  prediction : Z;
  confidence : Q;
  probabilities : list Q;
  top_k_indices : list Z;
  top_k_confidences : list Q
}.

(** An entry of [model_results]. *)
Record ModelResult : Type := mkModelResult {
  mr_prediction : Z;
  mr_confidence : Q;
  mr_top_k : list (Z * Q)
}.

(** The dict returned by the two-model branch (without the keys
    ['top_k_indices'], ['top_k_confidences'] and ['latency_ms']). *)
Record Ensemble : Type := mkEnsemble {
  e_prediction : Z;
  e_gloss : string;
  e_text : string;
  e_confidence : Q;
  e_probabilities : list Q;
  e_method : string;
  e_models_used : list string;
  e_model_results : list (string * ModelResult);
  e_agreement : bool
}.

(** What [_ensemble_predictions] returns. *)
Inductive Result : Type :=
| Failure (error : string) (method : string)
    (* {'success': False, 'error': ..., 'method': ...} *)
| Single (copy : Prediction) (method : string) (models_used : list string)
    (* the copy of a prediction with 'method' and 'models_used' set *)
| Fused (e : Ensemble).

Record Stats : Type := mkStats {
  ensemble_predictions : Z;
  i3d_only : Z;
  tgcn_only : Z;
  agreement_rate : Q;
  average_confidence : Q
}.

(** The two members of [VocabularyManager] (models/i3d, not among the
    sources) that the fusion calls. *)
Record VocabularyManager : Type := mkVocabulary {
  id_to_gloss : Z -> option string;
  get_gloss_text : string -> string
}.

Record t : Type := mk {
  vocabulary : VocabularyManager;
  ensemble_weights : list (string * Q);
  results_cache : list Ensemble;          (* deque(maxlen=10) *)
  stats : Stats
}.

Definition default_weights : list (string * Q) :=
  [("i3d", 6 # 10); ("tgcn", 4 # 10)].

(** [EnsembleTranslator.__init__]: [ensemble_weights or {...}] takes the
    default for [None] and for an empty dict. *)
Definition __init__ (vocab : VocabularyManager)
           (weights : option (list (string * Q))) : t :=
  {| vocabulary := vocab;
     ensemble_weights :=
       match weights with
       | Some (kv :: w) => kv :: w
       | _ => default_weights
       end;
     results_cache := [];
     stats := mkStats 0 0 0 0 0 |}.

(** [self.stats[f"{model}_only"] += 1]; a key error for any other
    model name. *)
Definition bump_only (model : string) (s : Stats) : option Stats :=
  if String.eqb model "i3d" then
    Some (mkStats (ensemble_predictions s) (i3d_only s + 1) (tgcn_only s)
                  (agreement_rate s) (average_confidence s))
  else if String.eqb model "tgcn" then
    Some (mkStats (ensemble_predictions s) (i3d_only s) (tgcn_only s + 1)
                  (agreement_rate s) (average_confidence s))
  else None.

(** One turn of the loop [for pred in valid_predictions]. *)
Definition accumulate (weights : list (string * Q))
           (acc : option (option (list Q) * list (string * ModelResult)))
           (pred : Prediction)
  : option (option (list Q) * list (string * ModelResult)) :=
  match acc with
  | None => None
  | Some (ensemble_probs, model_results) =>
      let weight :=
        match dict_get (model pred) weights with
        | Some w => w
        | None => 1 # 2
        end in
      let weighted_probs := scale (probabilities pred) weight in
      let entry :=
        {| mr_prediction := prediction pred;
           mr_confidence := confidence pred;
           mr_top_k := combine (top_k_indices pred)
                               (top_k_confidences pred) |} in
      match ensemble_probs with
      | None =>
          Some (Some weighted_probs,
                dict_set (model pred) entry model_results)
      | Some probs =>
          match vec_add probs weighted_probs with
          | Some probs' =>
              Some (Some probs', dict_set (model pred) entry model_results)
          | None => None
          end
      end
  end.

(** [len(set(model_predictions)) == 1]. *)
Definition agree (model_predictions : list Z) : bool :=
  (length (nodup Z.eq_dec model_predictions) =? 1)%nat.

(** The statistics after one more fused prediction. *)
Definition record_fusion (s : Stats) (agreement : bool) (confidence : Q)
  : Stats :=
  let n := (ensemble_predictions s + 1)%Z in
  {| ensemble_predictions := n;
     i3d_only := i3d_only s;
     tgcn_only := tgcn_only s;
     agreement_rate :=
       (agreement_rate s * inject_Z (n - 1)
        + (if agreement then 1 else 0)) / inject_Z n;
     average_confidence :=
       (average_confidence s * inject_Z (n - 1) + confidence)
       / inject_Z n |}.

(** [EnsembleTranslator._ensemble_predictions].  [None] stands for a
    call that raises (an unknown model name in the single-model branch,
    score vectors of different shapes, an empty score vector) or that
    leaves the rationals (the stored weights sum to zero, so that numpy
    divides by zero). *)
Definition _ensemble_predictions (self : t) (predictions : list Prediction)
  : option (Result * t) :=
  let valid_predictions := filter success predictions in
  match valid_predictions with
  | [] => Some (Failure "No valid predictions" "ensemble", self)
  | [p] =>
      match bump_only (model p) (stats self) with
      | Some stats' =>
          Some (Single p "ensemble_single" [model p],
                mk (vocabulary self) (ensemble_weights self)
                   (results_cache self) stats')
      | None => None
      end
  | _ =>
      match fold_left (accumulate (ensemble_weights self))
                      valid_predictions (Some (None, [])) with
      | Some (Some weighted_sum, model_results) =>
          let total := sum (values (ensemble_weights self)) in
          if Qeq_bool total 0 then None
          else
            let ensemble_probs := map (fun x => x / total) weighted_sum in
            match argmax ensemble_probs with
            | None => None
            | Some i =>
                let prediction_id := Z.of_nat i in
                let confidence := nth i ensemble_probs 0 in
                let gloss :=
                  match id_to_gloss (vocabulary self) prediction_id with
                  | Some g => g
                  | None => "unknown"
                  end in
                let text := get_gloss_text (vocabulary self) gloss in
                let model_predictions :=
                  map mr_prediction (values model_results) in
                let agreement := agree model_predictions in
                let stats' :=
                  record_fusion (stats self) agreement confidence in
                let result :=
                  {| e_prediction := prediction_id;
                     e_gloss := gloss;
                     e_text := text;
                     e_confidence := confidence;
                     e_probabilities := ensemble_probs;
                     e_method := "ensemble";
                     e_models_used := keys model_results;
                     e_model_results := model_results;
                     e_agreement := agreement |} in
                Some (Fused result,
                      mk (vocabulary self) (ensemble_weights self)
                         (deque_append 10 (results_cache self) result)
                         stats')
            end
      | _ => None
      end
  end.

(** [EnsembleTranslator.update_ensemble_weights]: the division raises
    when the total is zero and there is a weight to divide. *)
Definition update_ensemble_weights (self : t) (weights : list (string * Q))
  : option t :=
  let total := sum (values weights) in
  match weights with
  | [] => Some (mk (vocabulary self) [] (results_cache self) (stats self))
  | _ =>
      if Qeq_bool total 0 then None
      else
        Some (mk (vocabulary self)
                 (map (fun kv => (fst kv, snd kv / total)) weights)
                 (results_cache self) (stats self))
  end.

(** Calls on one translator, for traces. *)
Inductive Op : Type :=
| Fuse (predictions : list Prediction)
| UpdateWeights (weights : list (string * Q)).

(** The results of the fusions of a trace, in order, and the object
    after it; [None] when a call raises. *)
Fixpoint run (self : t) (ops : list Op) : option (list Result * t) :=
  match ops with
  | [] => Some ([], self)
  | Fuse ps :: ops' =>
      match _ensemble_predictions self ps with
      | Some (r, self') =>
          match run self' ops' with
          | Some (rs, self'') => Some (r :: rs, self'')
          | None => None
          end
      | None => None
      end
  | UpdateWeights w :: ops' =>
      match update_ensemble_weights self w with
      | Some self' => run self' ops'
      | None => None
      end
  end.

(** The weight the loop reads for a model. *)
Definition weight_of (weights : list (string * Q)) (m : string) : Q :=
  match dict_get m weights with
  | Some w => w
  | None => 1 # 2
  end.

(** The entry of [model_results] the loop writes for a prediction. *)
Definition entry_of (p : Prediction) : ModelResult :=
  {| mr_prediction := prediction p;
     mr_confidence := confidence p;
     mr_top_k := combine (top_k_indices p) (top_k_confidences p) |}.

Definition weights_positive (weights : list (string * Q)) : Prop :=
  weights <> [] /\ Forall (fun kv => 0 < snd kv) weights.

(** The two-model results of a trace, and the number of its single-model
    results per channel. *)
Definition fused_of (rs : list Result) : list Ensemble :=
  flat_map (fun r => match r with Fused e => [e] | _ => [] end) rs.

Definition singles_of (m : string) (rs : list Result) : nat :=
  length (filter (fun r => match r with
                           | Single p _ _ => String.eqb (model p) m
                           | _ => false
                           end) rs).

Definition agreements (es : list Ensemble) : nat :=
  length (filter e_agreement es).

(** The statistics agree with a history of [n] fusions of total
    confidence [sc], [na] of them in agreement, and with [c1] and [c2]
    single-model results of the two channels. *)
Definition stats_inv (s : Stats) (n : nat) (sc : Q) (na c1 c2 : nat) : Prop :=
  ensemble_predictions s = Z.of_nat n
  /\ average_confidence s * inject_Z (Z.of_nat n) == sc
  /\ agreement_rate s * inject_Z (Z.of_nat n) == inject_Z (Z.of_nat na)
  /\ i3d_only s = Z.of_nat c1
  /\ tgcn_only s = Z.of_nat c2.

(** [result['model'] = name] on the dict returned by [inference]. *)
Definition set_model (result : Prediction) (name : string) : Prediction :=
  mkPrediction (success result) name (prediction result)
               (confidence result) (probabilities result)
               (top_k_indices result) (top_k_confidences result).

(** [{'success': False, 'model': name, 'error': str(e)}]. *)
Definition failed (name : string) : Prediction :=
  mkPrediction false name 0 0 [] [] [].

(** [_get_i3d_prediction] and [_get_tgcn_prediction]; [inference] is the
    method of the processor (models/i3d and models/tgcn, not among the
    sources), [None] for a call that raises: the exception is caught. *)
Definition _get_i3d_prediction {F} (inference : F -> option Prediction)
           (frames : F) : Prediction :=
  match inference frames with
  | Some result => set_model result "i3d"
  | None => failed "i3d"
  end.

Definition _get_tgcn_prediction {P} (inference : P -> option Prediction)
           (pose_sequence : P) : Prediction :=
  match inference pose_sequence with
  | Some result => set_model result "tgcn"
  | None => failed "tgcn"
  end.

(** [get_ensemble_prediction]; the two sequences are what
    [get_latest_sequence] returns for the two buffers.  The outer [None]
    stands for a call that raises, [Some (None, _)] for the result
    [None]. *)
Definition get_ensemble_prediction {F P} (self : t)
           (i3d_inference : F -> option Prediction)
           (tgcn_inference : P -> option Prediction)
           (i3d_sequence : option F) (pose_sequence : option P)
  : option (option Result * t) :=
  match i3d_sequence, pose_sequence with
  | None, None => Some (None, self)
  | _, _ =>
      let tasks :=
        match i3d_sequence with
        | Some frames => [_get_i3d_prediction i3d_inference frames]
        | None => []
        end
        ++ match pose_sequence with
           | Some poses => [_get_tgcn_prediction tgcn_inference poses]
           | None => []
           end in
      match tasks with
      | [] => Some (None, self)
      | predictions =>
          match _ensemble_predictions self predictions with
          | Some (r, self') => Some (Some r, self')
          | None => None
          end
      end
  end.

(** One turn of the inner loop of [get_adaptive_weights]:
    [model_confidences[model].append(data['confidence'])], a key error
    for a model other than the two channels. *)
Definition collect (acc : option (list Q * list Q))
           (entry : string * ModelResult) : option (list Q * list Q) :=
  match acc with
  | None => None
  | Some (i3d, tgcn) =>
      if String.eqb (fst entry) "i3d"
      then Some (i3d ++ [mr_confidence (snd entry)], tgcn)
      else if String.eqb (fst entry) "tgcn"
           then Some (i3d, tgcn ++ [mr_confidence (snd entry)])
           else None
  end.

(** [np.mean(confidences) if confidences else 0.5]. *)
Definition avg_conf (confidences : list Q) : Q :=
  match confidences with
  | [] => 1 # 2
  | _ => sum confidences / len confidences
  end.

(** [get_adaptive_weights]; [None] for the key error. *)
Definition get_adaptive_weights (self : t) : option (list (string * Q)) :=
  if (length (results_cache self) <? 5)%nat then Some (ensemble_weights self)
  else
    match fold_left (fun acc result =>
                       fold_left collect (e_model_results result) acc)
                    (results_cache self) (Some ([], [])) with
    | None => None
    | Some (i3d, tgcn) =>
        let adaptive_weights :=
          [("i3d", avg_conf i3d); ("tgcn", avg_conf tgcn)] in
        let total := sum (values adaptive_weights) in
        if Qgtb total 0
        then Some (map (fun kv => (fst kv, snd kv / total)) adaptive_weights)
        else Some adaptive_weights
    end.

(** [clear_buffers], as far as the fields above go: the two frame buffers
    are not among them. *)
Definition clear_buffers (self : t) : t :=
  mk (vocabulary self) (ensemble_weights self) [] (stats self).

(** The score arithmetic of the fusion as numpy performs it: every
    product, sum and quotient is rounded to the float format.  [rnd] is
    that rounding; [scale], [vec_add], [sum] and the scores of
    [_ensemble_predictions] above are the case where [rnd] changes
    nothing. *)
Section Rounded.

Variable rnd : Q -> Q.

(** [probs * weight]. *)
Definition scale_fl (probs : list Q) (weight : Q) : list Q :=
  map (fun p => rnd (p * weight)) probs.

(** [ensemble_probs += weighted_probs]. *)
Fixpoint vec_add_fl (a b : list Q) : option (list Q) :=
  match a, b with
  | [], [] => Some []
  | x :: a', y :: b' =>
      match vec_add_fl a' b' with
      | Some c => Some (rnd (x + y) :: c)
      | None => None
      end
  | _, _ => None
  end.

(** [sum(self.ensemble_weights.values())]: added from the left, from 0. *)
Definition sum_fl (xs : list Q) : Q :=
  fold_left (fun a x => rnd (a + x)) xs 0.

(** [ensemble_probs] after one turn of the loop
    [for pred in valid_predictions]. *)
Definition accumulate_fl (weights : list (string * Q))
           (acc : option (option (list Q))) (pred : Prediction)
  : option (option (list Q)) :=
  match acc with
  | None => None
  | Some ensemble_probs =>
      let weight := weight_of weights (model pred) in
      let weighted_probs := scale_fl (probabilities pred) weight in
      match ensemble_probs with
      | None => Some (Some weighted_probs)
      | Some probs =>
          match vec_add_fl probs weighted_probs with
          | Some probs' => Some (Some probs')
          | None => None
          end
      end
  end.

(** [ensemble_probs] after the division by the sum of the stored
    weights (lines 207-232); [None] as for [_ensemble_predictions]. *)
Definition fused_scores_fl (weights : list (string * Q))
           (valid_predictions : list Prediction) : option (list Q) :=
  match fold_left (accumulate_fl weights) valid_predictions (Some None) with
  | Some (Some weighted_sum) =>
      let total := sum_fl (values weights) in
      if Qeq_bool total 0 then None
      else Some (map (fun x => rnd (x / total)) weighted_sum)
  | _ => None
  end.

End Rounded.

End EnsembleTranslator.

(** ** backend/app/hand_detector.py *)

Module HandDetector.

(** A landmark dict: the keys ["x"], ["y"], ["z"]. *)
Record Landmark : Type := mkLandmark {
  x : Q;
  y : Q;
  z : Q
}.

(** The dict returned by [detect_hands], as far as [classify_gesture]
    reads it. *)
Record HandData : Type := mkHandData {
  hands_detected : bool;
  landmarks : list (list Landmark)
}.

(** [is_extended] for one finger; [landmarks[i]] raises for an index out
    of range. *)
Definition finger_state (landmarks : list Landmark) (tip_idx base_idx : nat)
  : option bool :=
  match nth_error landmarks tip_idx, nth_error landmarks base_idx with
  | Some tip, Some base =>
      if (tip_idx =? 4)%nat
      then Some (Qgtb (Qabs (x tip - x base)) (1 # 10))
      else Some (Qltb (y tip) (y base))
  | _, _ => None
  end.

(** The loop [for tip_idx, base_idx in zip(tips, bases)]. *)
Fixpoint finger_loop (landmarks : list Landmark) (pairs : list (nat * nat))
  : option (list bool) :=
  match pairs with
  | [] => Some []
  | (tip_idx, base_idx) :: pairs' =>
      match finger_state landmarks tip_idx base_idx with
      | Some is_extended =>
          match finger_loop landmarks pairs' with
          | Some finger_states => Some (is_extended :: finger_states)
          | None => None
          end
      | None => None
      end
  end.

(** [_get_finger_states]; [None] for an index error. *)
Definition _get_finger_states (landmarks : list Landmark)
  : option (list bool) :=
  let tips := [4; 8; 12; 16; 20]%nat in
  let bases := [2; 5; 9; 13; 17]%nat in
  match nth_error landmarks 0 with
  | None => None
  | Some wrist => finger_loop landmarks (combine tips bases)
  end.

(** [_identify_gesture]. *)
Definition _identify_gesture (landmarks : list Landmark) : option string :=
  match _get_finger_states landmarks with
  | None => None
  | Some finger_states =>
      Some (match finger_states with
            | [true; true; true; true; true] => "stop"
            | [true; false; false; false; false] => "good"
            | [false; true; false; false; false] => "where"
            | [false; true; true; false; false] => "no"
            | [true; false; false; false; true] => "i_love_you"
            | _ => "hello"
            end)
  end.

(** [classify_gesture]. *)
Definition classify_gesture (hand_data : HandData) : option (string * Q) :=
  if negb (hands_detected hand_data) then Some ("none", 0)
  else
    match landmarks hand_data with
    | [] => Some ("none", 0)
    | first_hand :: _ =>
        match _identify_gesture first_hand with
        | Some gesture => Some (gesture, 85 # 100)
        | None => None
        end
    end.

End HandDetector.

(** ** backend/app/translation_engine.py *)

Module TranslationEngine.

Definition SIGN_TO_TEXT_MAPPING : list (string * string) :=
  [("hello", "Hello! Nice to meet you!");
   ("thank_you", "Thank you very much");
   ("yes", "Yes, I agree");
   ("no", "No, I don't think so");
   ("please", "Please, if you could");
   ("stop", "Stop right there");
   ("good", "That's really good!");
   ("bad", "That's not good");
   ("help", "Can you help me?");
   ("what", "What do you mean?");
   ("where", "Where is it?");
   ("who", "Who is that?");
   ("more", "I need more information");
   ("finish", "I'm finished");
   ("i_love_you", "I love you")].

Definition TEXT_TO_SIGN_MAPPING : list (string * list string) :=
  [("hello", ["hello"]);
   ("hi", ["hello"]);
   ("thank", ["thank_you"]);
   ("thanks", ["thank_you"]);
   ("yes", ["yes"]);
   ("no", ["no"]);
   ("please", ["please"]);
   ("stop", ["stop"]);
   ("good", ["good"]);
   ("bad", ["bad"]);
   ("help", ["help"]);
   ("what", ["what"]);
   ("where", ["where"]);
   ("who", ["who"]);
   ("more", ["more"]);
   ("finish", ["finish"]);
   ("done", ["finish"]);
   ("love", ["i_love_you"])].

(** The last fallback of [translate_speech_to_sign]: the signs of the
    words of [text.lower().split()], ["what"] when there is none. *)
Definition fallback_signs (words : list string) : list string :=
  let signs :=
    flat_map (fun word =>
                match dict_get word TEXT_TO_SIGN_MAPPING with
                | Some l => l
                | None => []
                end) words in
  match signs with
  | [] => ["what"]
  | _ => signs
  end.

(** The fallback of [translate_sign_to_speech]: the text and the
    confidence. *)
Definition fallback_text (gesture : string) : string * Q :=
  match dict_get gesture SIGN_TO_TEXT_MAPPING with
  | Some text => (text, 9 # 10)
  | None => (String.append "Unknown gesture: " gesture, 3 # 10)
  end.

(** An entry of [context_window]. *)
Record ContextEntry : Type := mkContextEntry {
  entry_type : string;
  content : string;
  timestamp : string
}.

Section History.

(** The type of a translation result. *)
Context {Translation : Type}.

Record t : Type := mk {
  translation_history : list Translation;
  context_window : list ContextEntry;
  max_context_size : nat
}.

(** [TranslationEngine.__init__], the three fields above. *)
Definition __init__ : t :=
  {| translation_history := [];
     context_window := [];
     max_context_size := 5 |}.

(** [_update_context]; [now] is [datetime.now().isoformat()]. *)
Definition _update_context (self : t) (input_type content now : string)
  : t :=
  let context_entry := mkContextEntry input_type content now in
  let window := context_window self ++ [context_entry] in
  mk (translation_history self)
     (if (max_context_size self <? length window)%nat
      then tl window else window)
     (max_context_size self).

(** One entry of [_get_context_summary]. *)
Definition summary_of (entry : ContextEntry) : string * string :=
  (entry_type entry,
   if (50 <? String.length (content entry))%nat
   then String.append (PerformanceOptimizer.str_take 50 (content entry))
                      "..."
   else content entry).

(** [_get_context_summary]. *)
Definition _get_context_summary (self : t) : list (string * string) :=
  map summary_of
      (skipn (length (context_window self) - 3) (context_window self)).

(** [_add_to_history]. *)
Definition _add_to_history (self : t) (translation_result : Translation)
  : t :=
  let history := translation_history self ++ [translation_result] in
  mk (if (100 <? length history)%nat then tl history else history)
     (context_window self) (max_context_size self).

(** [get_last_translation]. *)
Definition get_last_translation (self : t) : option Translation :=
  match translation_history self with
  | [] => None
  | r :: history => Some (last history r)
  end.

(** [clear_context]. *)
Definition clear_context (self : t) : t :=
  mk [] [] (max_context_size self).

(** Calls on one engine, for traces. *)
Inductive Op : Type :=
| UpdateContext (input_type content now : string)
| AddToHistory (translation_result : Translation)
| ClearContext.

Definition apply_op (self : t) (op : Op) : t :=
  match op with
  | UpdateContext input_type content now =>
      _update_context self input_type content now
  | AddToHistory r => _add_to_history self r
  | ClearContext => clear_context self
  end.

Definition exec (self : t) (ops : list Op) : t := fold_left apply_op ops self.

(** The context entries and the results a trace adds after its last
    [clear_context]. *)
Fixpoint entries_of (acc : list ContextEntry) (ops : list Op)
  : list ContextEntry :=
  match ops with
  | [] => acc
  | UpdateContext input_type content now :: ops' =>
      entries_of (acc ++ [mkContextEntry input_type content now]) ops'
  | AddToHistory _ :: ops' => entries_of acc ops'
  | ClearContext :: ops' => entries_of [] ops'
  end.

Fixpoint results_of (acc : list Translation) (ops : list Op)
  : list Translation :=
  match ops with
  | [] => acc
  | UpdateContext _ _ _ :: ops' => results_of acc ops'
  | AddToHistory r :: ops' => results_of (acc ++ [r]) ops'
  | ClearContext :: ops' => results_of [] ops'
  end.

End History.

Arguments t : clear implicits.
Arguments Op : clear implicits.

End TranslationEngine.

(** ** Sample data *)

Definition vocab0 : EnsembleTranslator.VocabularyManager :=
  EnsembleTranslator.mkVocabulary (fun _ => None) (fun gloss => gloss).

Definition pred_i3d : EnsembleTranslator.Prediction :=
  EnsembleTranslator.mkPrediction
    true "i3d" 0 (9 # 10) [9 # 10; 1 # 10] [0; 1]%Z [9 # 10; 1 # 10].

Definition pred_tgcn : EnsembleTranslator.Prediction :=
  EnsembleTranslator.mkPrediction
    true "tgcn" 0 (95 # 100) [95 # 100; 5 # 100] [0; 1]%Z
    [95 # 100; 5 # 100].

Definition pred_tgcn_other : EnsembleTranslator.Prediction :=
  EnsembleTranslator.mkPrediction
    true "tgcn" 1 (6 # 10) [4 # 10; 6 # 10] [1; 0]%Z [6 # 10; 4 # 10].

Definition pred_failed : EnsembleTranslator.Prediction :=
  EnsembleTranslator.mkPrediction false "tgcn" 0 0 [] [] [].

(** A trace of four calls: two two-model fusions, one of them in
    agreement, and two single-model results of the first channel. *)
Definition trace0 : list EnsembleTranslator.Op :=
  [EnsembleTranslator.Fuse [pred_i3d; pred_tgcn];
   EnsembleTranslator.Fuse [pred_i3d; pred_failed];
   EnsembleTranslator.Fuse [pred_i3d; pred_tgcn_other];
   EnsembleTranslator.Fuse [pred_failed; pred_i3d]].

(** A coarse rounding, for examples: down to a multiple of 1/10. *)
Definition round_tenths (x : Q) : Q := Qfloor (x * 10) # 10.

(** A gesture key of [n] letters. *)
Fixpoint key_of_length (n : nat) : string :=
  match n with
  | O => EmptyString
  | S n' => String (Ascii.ascii_of_nat 97) (key_of_length n')
  end.

(** * Properties *)

(** ** Comparisons of rationals *)

Lemma Qltb_lt (x y : Q) : Qltb x y = true <-> x < y.
Proof.
  unfold Qltb. rewrite negb_true_iff, <- not_true_iff_false, Qle_bool_iff.
  split; [apply Qnot_le_lt | apply Qlt_not_le].
Qed.

Lemma Qltb_ge (x y : Q) : Qltb x y = false <-> y <= x.
Proof.
  unfold Qltb. rewrite negb_false_iff. apply Qle_bool_iff.
Qed.

Lemma Qgtb_gt (x y : Q) : Qgtb x y = true <-> y < x.
Proof. apply Qltb_lt. Qed.

Lemma Qgtb_le (x y : Q) : Qgtb x y = false <-> x <= y.
Proof. apply Qltb_ge. Qed.

(** ** The mode arbitrator *)

Section ModeManagerFacts.

Import ModeManager.

Lemma mode_eqb_eq (a b : TranslationMode) : mode_eqb a b = true <-> a = b.
Proof. destruct a, b; simpl; split; congruence. Qed.

Lemma mode_eqb_neq (a b : TranslationMode) : mode_eqb a b = false <-> a <> b.
Proof. destruct a, b; simpl; split; congruence. Qed.

(** The three outcomes of a call. *)
Lemma detect_cases (self : t) (a m : Q) (h : bool) (now now' : Q) :
  let r := detect_active_mode self a m h now now' in
  let audio := push (buffer_size self) (audio_levels self) a in
  let motion := push (buffer_size self) (motion_levels self) m in
  (now - last_mode_switch self < mode_switch_cooldown self
   /\ fst r = current_mode self
   /\ current_mode (snd r) = current_mode self
   /\ last_mode_switch (snd r) = last_mode_switch self)
  \/ (mode_switch_cooldown self <= now - last_mode_switch self
      /\ fst r = detected self (average audio) (average motion) h
      /\ fst r = current_mode self
      /\ current_mode (snd r) = current_mode self
      /\ last_mode_switch (snd r) = last_mode_switch self)
  \/ (mode_switch_cooldown self <= now - last_mode_switch self
      /\ fst r = detected self (average audio) (average motion) h
      /\ fst r <> current_mode self
      /\ current_mode (snd r) = fst r
      /\ last_mode_switch (snd r) = now').
Proof.
  cbv zeta. unfold detect_active_mode.
  destruct (Qltb (now - last_mode_switch self) (mode_switch_cooldown self))
    eqn:Hcool.
  - left. apply Qltb_lt in Hcool. simpl. tauto.
  - apply Qltb_ge in Hcool. right.
    destruct (mode_eqb _ (current_mode self)) eqn:Heq; simpl.
    + apply mode_eqb_eq in Heq. left. tauto.
    + apply mode_eqb_neq in Heq. right. tauto.
Qed.

(** The configuration is never written by a call. *)
Lemma detect_config (self : t) (a m : Q) (h : bool) (now now' : Q) :
  let self' := snd (detect_active_mode self a m h now now') in
  mode_switch_cooldown self' = mode_switch_cooldown self
  /\ audio_level_threshold self' = audio_level_threshold self
  /\ motion_level_threshold self' = motion_level_threshold self
  /\ buffer_size self' = buffer_size self.
Proof.
  cbv zeta. unfold detect_active_mode.
  destruct (Qltb _ _); [simpl; tauto|].
  destruct (negb _); simpl; tauto.
Qed.

(** The buffers after a call do not depend on the cooldown. *)
Lemma detect_buffers (self : t) (a m : Q) (h : bool) (now now' : Q) :
  let self' := snd (detect_active_mode self a m h now now') in
  audio_levels self' = push (buffer_size self) (audio_levels self) a
  /\ motion_levels self' = push (buffer_size self) (motion_levels self) m.
Proof.
  cbv zeta. unfold detect_active_mode.
  destruct (Qltb _ _); [simpl; tauto|].
  destruct (negb _); simpl; tauto.
Qed.

(** The mode a call returns is the mode the object holds afterwards. *)
Lemma detect_returns_current (self : t) (a m : Q) (h : bool) (now now' : Q) :
  let r := detect_active_mode self a m h now now' in
  fst r = current_mode (snd r).
Proof.
  cbv zeta.
  destruct (detect_cases self a m h now now') as [H|[H|H]];
    cbv zeta in H; intuition congruence.
Qed.

Lemma clock_ok_weaken (es : list Event) (t0 t1 : Q) :
  t0 <= t1 -> clock_ok t1 es -> clock_ok t0 es.
Proof.
  destruct es as [|e es]; simpl; [tauto|].
  intros H (A & B & C). repeat split; auto.
  apply Qle_trans with t1; assumption.
Qed.

Lemma run_cons (self : t) (e : Event) (es : list Event) :
  run self (e :: es) =
  (fst (step self e) :: fst (run (snd (step self e)) es),
   snd (run (snd (step self e)) es)).
Proof.
  cbn [run]. destruct (step self e) as [m self']. cbn [fst snd].
  destruct (run self' es) as [ms self'']. reflexivity.
Qed.

Lemma run_cooldown (es : list Event) : forall self,
  mode_switch_cooldown (snd (run self es)) = mode_switch_cooldown self.
Proof.
  induction es as [|e es IH]; intro self; [reflexivity|].
  rewrite run_cons. cbn [snd]. rewrite IH.
  apply (detect_config self).
Qed.

(** With a clock that does not go back, the stamp of the last switch
    never goes back either. *)
Lemma run_last_switch (es : list Event) : forall self t0,
  t0 <= last_mode_switch self ->
  clock_ok t0 es ->
  t0 <= last_mode_switch (snd (run self es)).
Proof.
  induction es as [|e es IH]; intros self t0 Ht Hc; [exact Ht|].
  rewrite run_cons. cbn [snd]. destruct Hc as (H1 & H2 & H3).
  assert (H0 : t0 <= ev_now' e) by (apply Qle_trans with (ev_now e); auto).
  unfold step.
  destruct (detect_cases self (ev_audio e) (ev_motion e) (ev_hands e)
              (ev_now e) (ev_now' e)) as [H|[H|H]]; cbv zeta in H.
  - destruct H as (_ & _ & _ & Hl).
    apply IH; [rewrite Hl; exact Ht|].
    apply clock_ok_weaken with (ev_now' e); assumption.
  - destruct H as (_ & _ & _ & _ & Hl).
    apply IH; [rewrite Hl; exact Ht|].
    apply clock_ok_weaken with (ev_now' e); assumption.
  - destruct H as (_ & _ & _ & _ & Hl).
    apply Qle_trans with (ev_now' e); [exact H0|].
    apply IH; [rewrite Hl; apply Qle_refl|exact H3].
Qed.

(** During the cooldown a call changes neither the mode nor the stamp,
    whatever the signals. *)
Lemma cooldown_holds (self : t) (a m : Q) (h : bool) (now now' : Q) :
  now - last_mode_switch self < mode_switch_cooldown self ->
  let r := detect_active_mode self a m h now now' in
  fst r = current_mode self
  /\ current_mode (snd r) = current_mode self
  /\ last_mode_switch (snd r) = last_mode_switch self.
Proof.
  intros Hc. cbv zeta.
  destruct (detect_cases self a m h now now') as [H|[H|H]]; cbv zeta in H.
  - tauto.
  - destruct H as (H & _). exfalso. apply (Qlt_not_le _ _ Hc H).
  - destruct H as (H & _). exfalso. apply (Qlt_not_le _ _ Hc H).
Qed.

(** A call that changes the mode is out of the cooldown and stamps the
    switch with its second clock reading. *)
Lemma switch_stamps (self : t) (e : Event) :
  fst (step self e) <> current_mode self ->
  mode_switch_cooldown self <= ev_now e - last_mode_switch self
  /\ last_mode_switch (snd (step self e)) = ev_now' e.
Proof.
  unfold step. intros Hd.
  destruct (detect_cases self (ev_audio e) (ev_motion e) (ev_hands e)
              (ev_now e) (ev_now' e)) as [H|[H|H]]; cbv zeta in H.
  - exfalso. tauto.
  - exfalso. tauto.
  - tauto.
Qed.

(** Two calls that both change the mode are a cooldown apart. *)
Lemma switches_apart (self : t) (e_i : Event) (es : list Event)
      (e_j : Event) :
  ev_now e_i <= ev_now' e_i ->
  clock_ok (ev_now' e_i) es ->
  fst (step self e_i) <> current_mode self ->
  let self_j := snd (run (snd (step self e_i)) es) in
  fst (step self_j e_j) <> current_mode self_j ->
  mode_switch_cooldown self <= ev_now e_j - ev_now e_i.
Proof.
  intros Hi Hc Hs self_j Hs'.
  destruct (switch_stamps self e_i Hs) as (_ & Hl).
  destruct (switch_stamps self_j e_j Hs') as (Hcool & _).
  assert (Hlast : ev_now' e_i <= last_mode_switch self_j).
  { apply run_last_switch; [rewrite Hl; apply Qle_refl|exact Hc]. }
  assert (Hcd : mode_switch_cooldown self_j = mode_switch_cooldown self).
  { unfold self_j. rewrite run_cooldown. apply (detect_config self). }
  rewrite Hcd in Hcool. lra.
Qed.

(** *** Buffers *)

Lemma push_not_full (size : nat) (buf : list Q) (x : Q) :
  (length buf < size)%nat -> push size buf x = buf ++ [x].
Proof.
  intros H. unfold push.
  destruct (Nat.ltb_spec size (length (buf ++ [x]))) as [H'|H']; [|reflexivity].
  rewrite length_app in H'. simpl in H'. lia.
Qed.

Lemma push_full (size : nat) (buf : list Q) (x : Q) :
  (size <= length buf)%nat -> push size buf x = tl (buf ++ [x]).
Proof.
  intros H. unfold push.
  destruct (Nat.ltb_spec size (length (buf ++ [x]))) as [H'|H']; [reflexivity|].
  rewrite length_app in H'. simpl in H'. lia.
Qed.

Lemma push_length (size : nat) (buf : list Q) (x : Q) :
  (length buf <= size)%nat -> (length (push size buf x) <= size)%nat.
Proof.
  intros H. unfold push.
  destruct (Nat.ltb_spec size (length (buf ++ [x]))) as [H'|H'];
    [|exact H'].
  destruct buf as [|y buf]; simpl in *; [lia|].
  rewrite length_app in *. simpl in *. lia.
Qed.

Lemma push_last (size : nat) (buf : list Q) (x : Q) :
  (1 <= size)%nat -> last (push size buf x) 0 = x.
Proof.
  intros H. unfold push.
  destruct (Nat.ltb_spec size (length (buf ++ [x]))) as [H'|H'].
  - destruct buf as [|y buf]; [simpl in H'; lia|].
    simpl. destruct buf; [reflexivity|]. apply last_last.
  - apply last_last.
Qed.

Lemma run_buffers (es : list Event) : forall self,
  (length (audio_levels self) <= buffer_size self)%nat ->
  (length (motion_levels self) <= buffer_size self)%nat ->
  let self' := snd (run self es) in
  buffer_size self' = buffer_size self
  /\ (length (audio_levels self') <= buffer_size self)%nat
  /\ (length (motion_levels self') <= buffer_size self)%nat.
Proof.
  induction es as [|e es IH]; intros self Ha Hm; cbv zeta.
  - simpl. auto.
  - rewrite run_cons. cbn [snd]. unfold step.
    pose proof (detect_buffers self (ev_audio e) (ev_motion e) (ev_hands e)
                  (ev_now e) (ev_now' e)) as Hb.
    pose proof (detect_config self (ev_audio e) (ev_motion e) (ev_hands e)
                  (ev_now e) (ev_now' e)) as Hc.
    cbv zeta in Hb, Hc. destruct Hb as (Hb1 & Hb2).
    destruct Hc as (_ & _ & _ & Hsz).
    set (self1 := snd (detect_active_mode self (ev_audio e) (ev_motion e)
                         (ev_hands e) (ev_now e) (ev_now' e))) in *.
    specialize (IH self1). cbv zeta in IH. rewrite Hsz in IH.
    apply IH.
    + rewrite Hb1. apply push_length, Ha.
    + rewrite Hb2. apply push_length, Hm.
Qed.

(** *** The claims on the mode arbitrator *)

(** C1 (as amended).  A call made less than [mode_switch_cooldown] seconds
    after the last switch returns the current mode and leaves the mode and
    the stamp of the last switch as they were, whatever the audio level,
    the motion level and the hands flag; consequently, with a clock that
    does not go back, two calls that both change the returned mode are at
    least [mode_switch_cooldown] seconds apart. *)
Theorem C1_cooldown_blocks_switch :
  (forall (self : t) (audio_level motion_level : Q) (has_hands : bool)
          (now now' : Q),
      now - last_mode_switch self < mode_switch_cooldown self ->
      let r := detect_active_mode self audio_level motion_level has_hands
                                  now now' in
      fst r = current_mode self
      /\ current_mode (snd r) = current_mode self
      /\ last_mode_switch (snd r) = last_mode_switch self)
  /\
  (forall (self : t) (e_i : Event) (es : list Event) (e_j : Event),
      ev_now e_i <= ev_now' e_i ->
      clock_ok (ev_now' e_i) es ->
      fst (step self e_i) <> current_mode self ->
      let self_j := snd (run (snd (step self e_i)) es) in
      fst (step self_j e_j) <> current_mode self_j ->
      mode_switch_cooldown self <= ev_now e_j - ev_now e_i).
Proof.
  split.
  - exact cooldown_holds.
  - exact switches_apart.
Qed.

Lemma C1_cooldown_blocks_switch_witness :
  fst (detect_active_mode (__init__ 0) 1 1 true (1 # 2) (1 # 2)) = AUTO_DETECT
  /\ mode_switch_cooldown (__init__ 0) <= 3 - 1.
Proof.
  split.
  - apply (proj1 C1_cooldown_blocks_switch (__init__ 0) 1 1 true
                 (1 # 2) (1 # 2)).
    vm_compute. reflexivity.
  - apply (proj2 C1_cooldown_blocks_switch (__init__ 0)
                 (ev 0 1 true 1 1) [] (ev 1 0 false 3 3)).
    + vm_compute. discriminate.
    + exact I.
    + vm_compute. discriminate.
    + vm_compute. discriminate.
Defined.

(** C1, as stated, fails: two successive calls a tenth of a second apart
    return different modes (the first is made five seconds after the last
    switch and sees no signal, the second sees audio). *)
Lemma C1_successive_calls_differ_within_cooldown :
  let self := __init__ 0 in
  let e1 := ev 0 0 false 5 5 in
  let e2 := ev 1 0 false (51 # 10) (51 # 10) in
  ev_now e2 - ev_now e1 < mode_switch_cooldown self
  /\ fst (run self [e1; e2]) = [AUTO_DETECT; SPEECH_TO_SIGN].
Proof.
  split.
  - vm_compute. reflexivity.
  - vm_compute. reflexivity.
Qed.

(** C8.  Once the cooldown is over, the returned mode follows the priority
    rules on the rolling averages (which include the sample of the call):
    audio before motion from [AUTO_DETECT], half the audio threshold to
    leave [SPEECH_TO_SIGN], the audio threshold to leave [SIGN_TO_SPEECH];
    the mode is unchanged in every other case, the object holds the
    returned mode, and the stamp moves exactly when the mode changes. *)
Theorem C8_transition_rules :
  forall (self : t) (audio_level motion_level : Q) (has_hands : bool)
         (now now' : Q),
    mode_switch_cooldown self <= now - last_mode_switch self ->
    let avg_audio :=
      average (push (buffer_size self) (audio_levels self) audio_level) in
    let avg_motion :=
      average (push (buffer_size self) (motion_levels self) motion_level) in
    let thr_a := audio_level_threshold self in
    let thr_m := motion_level_threshold self in
    let r := detect_active_mode self audio_level motion_level has_hands
                                now now' in
    (current_mode self = AUTO_DETECT ->
       (thr_a < avg_audio -> fst r = SPEECH_TO_SIGN)
       /\ (avg_audio <= thr_a -> has_hands = true -> thr_m < avg_motion ->
            fst r = SIGN_TO_SPEECH)
       /\ (avg_audio <= thr_a -> has_hands = false \/ avg_motion <= thr_m ->
            fst r = AUTO_DETECT))
    /\ (current_mode self = SPEECH_TO_SIGN ->
         (avg_audio < thr_a * (1 # 2) -> has_hands = true ->
          thr_m < avg_motion -> fst r = SIGN_TO_SPEECH)
         /\ (thr_a * (1 # 2) <= avg_audio \/ has_hands = false
              \/ avg_motion <= thr_m -> fst r = SPEECH_TO_SIGN))
    /\ (current_mode self = SIGN_TO_SPEECH ->
         (thr_a < avg_audio -> fst r = SPEECH_TO_SIGN)
         /\ (avg_audio <= thr_a -> fst r = SIGN_TO_SPEECH))
    /\ current_mode (snd r) = fst r
    /\ (fst r = current_mode self ->
         last_mode_switch (snd r) = last_mode_switch self)
    /\ (fst r <> current_mode self -> last_mode_switch (snd r) = now').
Proof.
  intros self a m h now now' Hcool. cbv zeta.
  assert (Hdet : fst (detect_active_mode self a m h now now')
                 = detected self
                     (average (push (buffer_size self) (audio_levels self) a))
                     (average (push (buffer_size self) (motion_levels self) m))
                     h
                 /\ current_mode (snd (detect_active_mode self a m h now now'))
                    = fst (detect_active_mode self a m h now now')
                 /\ (fst (detect_active_mode self a m h now now')
                     = current_mode self ->
                     last_mode_switch
                       (snd (detect_active_mode self a m h now now'))
                     = last_mode_switch self)
                 /\ (fst (detect_active_mode self a m h now now')
                     <> current_mode self ->
                     last_mode_switch
                       (snd (detect_active_mode self a m h now now')) = now')).
  { destruct (detect_cases self a m h now now') as [H|[H|H]]; cbv zeta in H.
    - destruct H as (H & _). exfalso. apply (Qlt_not_le _ _ H Hcool).
    - intuition congruence.
    - intuition congruence. }
  destruct Hdet as (Hd & Hcur & Hsame & Hdiff).
  set (avg_audio := average (push (buffer_size self) (audio_levels self) a))
    in *.
  set (avg_motion := average (push (buffer_size self) (motion_levels self) m))
    in *.
  rewrite Hd in *. unfold detected in *.
  refine (conj _ (conj _ (conj _ (conj Hcur (conj Hsame Hdiff)))));
    intros Hm; rewrite Hm.
  - refine (conj _ (conj _ _)).
    + intros Ha. apply Qgtb_gt in Ha. rewrite Ha. reflexivity.
    + intros Ha Hh Hmo.
      apply Qgtb_le in Ha. apply Qgtb_gt in Hmo. rewrite Ha, Hh, Hmo.
      reflexivity.
    + intros Ha Hor. apply Qgtb_le in Ha. rewrite Ha.
      destruct Hor as [Hh|Hmo].
      * rewrite Hh. reflexivity.
      * apply Qgtb_le in Hmo. rewrite Hmo, andb_false_r. reflexivity.
  - refine (conj _ _).
    + intros Ha Hh Hmo.
      apply Qltb_lt in Ha. apply Qgtb_gt in Hmo. rewrite Ha, Hh, Hmo.
      reflexivity.
    + intros Hor. destruct Hor as [Ha|[Hh|Hmo]].
      * apply Qltb_ge in Ha. rewrite Ha. reflexivity.
      * rewrite Hh, andb_false_r. reflexivity.
      * apply Qgtb_le in Hmo. rewrite Hmo, andb_false_r. reflexivity.
  - refine (conj _ _).
    + intros Ha. apply Qgtb_gt in Ha. rewrite Ha. reflexivity.
    + intros Ha. apply Qgtb_le in Ha. rewrite Ha. reflexivity.
Qed.

Lemma C8_transition_rules_witness :
  fst (detect_active_mode (__init__ 0) 1 0 false 2 2) = SPEECH_TO_SIGN.
Proof.
  assert (H : mode_switch_cooldown (__init__ 0)
              <= 2 - last_mode_switch (__init__ 0))
    by (vm_compute; discriminate).
  destruct (C8_transition_rules (__init__ 0) 1 0 false 2 2 H) as (Hauto & _).
  apply Hauto.
  - reflexivity.
  - vm_compute. reflexivity.
Defined.

(** C9.  Every call appends the two samples to the rolling buffers and
    drops the oldest sample of a buffer that would exceed [buffer_size]
    (10) entries, whether or not the call is inside the cooldown; from
    [__init__] on, the buffers never hold more than 10 samples; and a call
    inside the cooldown, which returns the mode unchanged, still leaves the
    new samples at the end of the buffers the averages are taken over. *)
Theorem C9_rolling_buffers :
  (forall (self : t) (audio_level motion_level : Q) (has_hands : bool)
          (now now' : Q),
      let self' := snd (detect_active_mode self audio_level motion_level
                                           has_hands now now') in
      audio_levels self'
      = push (buffer_size self) (audio_levels self) audio_level
      /\ motion_levels self'
         = push (buffer_size self) (motion_levels self) motion_level)
  /\
  (forall (size : nat) (buf : list Q) (x : Q),
      ((length buf < size)%nat -> push size buf x = buf ++ [x])
      /\ ((size <= length buf)%nat -> push size buf x = tl (buf ++ [x])))
  /\
  (forall (t0 : Q) (es : list Event),
      let self' := snd (run (__init__ t0) es) in
      (length (audio_levels self') <= 10)%nat
      /\ (length (motion_levels self') <= 10)%nat)
  /\
  (forall (self : t) (audio_level motion_level : Q) (has_hands : bool)
          (now now' : Q),
      now - last_mode_switch self < mode_switch_cooldown self ->
      (1 <= buffer_size self)%nat ->
      let r := detect_active_mode self audio_level motion_level has_hands
                                  now now' in
      fst r = current_mode self
      /\ last (audio_levels (snd r)) 0 = audio_level
      /\ last (motion_levels (snd r)) 0 = motion_level).
Proof.
  refine (conj detect_buffers (conj _ (conj _ _))).
  - intros size buf x. split; [apply push_not_full | apply push_full].
  - intros t0 es.
    pose proof (run_buffers es (__init__ t0)) as H. cbv zeta in H.
    simpl in H. cbv zeta.
    destruct H as (_ & Ha & Hm); [lia | lia |]. split; assumption.
  - intros self a m h now now' Hc Hsz. cbv zeta.
    destruct (cooldown_holds self a m h now now' Hc) as (Hr & _).
    destruct (detect_buffers self a m h now now') as (Ha & Hm).
    rewrite Ha, Hm. repeat split.
    + exact Hr.
    + apply push_last, Hsz.
    + apply push_last, Hsz.
Qed.

Lemma C9_rolling_buffers_witness :
  fst (detect_active_mode (__init__ 0) 1 1 true (1 # 2) (1 # 2)) = AUTO_DETECT
  /\ last (audio_levels
             (snd (detect_active_mode (__init__ 0) 1 1 true (1 # 2) (1 # 2))))
          0 = 1.
Proof.
  assert (Hc : (1 # 2) - last_mode_switch (__init__ 0)
               < mode_switch_cooldown (__init__ 0))
    by (vm_compute; reflexivity).
  assert (Hs : (1 <= buffer_size (__init__ 0))%nat) by (simpl; lia).
  destruct (proj2 (proj2 (proj2 C9_rolling_buffers))
              (__init__ 0) 1 1 true (1 # 2) (1 # 2) Hc Hs) as (H1 & H2 & _).
  split; [exact H1 | exact H2].
Defined.

End ModeManagerFacts.

(** ** The performance governor *)

Section PerformanceOptimizerFacts.

Import PerformanceOptimizer.

Context {Data : Type}.

(** *** Frame skipping *)

Lemma current_fps_pos (dt : Q) : 0 < dt -> current_fps dt = 1 / dt.
Proof.
  intros H. unfold current_fps. apply Qgtb_gt in H. rewrite H. reflexivity.
Qed.

Lemma current_fps_nonpos (dt : Q) : dt <= 0 -> current_fps dt = 0.
Proof.
  intros H. unfold current_fps. apply Qgtb_le in H. rewrite H. reflexivity.
Qed.

(** For a positive target, the rate exceeds the target exactly when the
    interval is positive and shorter than [1 / target]. *)
Lemma rate_exceeds_iff (dt target : Q) :
  0 < target ->
  (target < current_fps dt <-> 0 < dt /\ dt * target < 1).
Proof.
  intros Ht. split.
  - intros H. destruct (Qlt_le_dec 0 dt) as [Hd|Hd].
    + split; [exact Hd|]. rewrite (current_fps_pos dt Hd) in H.
      apply (Qmult_lt_r _ _ dt Hd) in H.
      assert (E : 1 / dt * dt == 1) by (field; intro E; rewrite E in Hd;
                                        apply (Qlt_irrefl 0 Hd)).
      rewrite E in H. rewrite Qmult_comm. exact H.
    + rewrite (current_fps_nonpos dt Hd) in H.
      exfalso. apply (Qlt_irrefl 0). apply Qlt_trans with target; assumption.
  - intros (Hd & H). rewrite (current_fps_pos dt Hd).
    apply Qlt_shift_div_l; [exact Hd|].
    rewrite Qmult_comm. exact H.
Qed.

Lemma skip_cases (self : t Data) (current_time : Q) :
  let r := should_skip_frame self current_time in
  let s := optimization_settings self in
  (enable_frame_skipping s = false /\ r = (false, self))
  \/ (enable_frame_skipping s = true
      /\ target_fps s < current_fps (current_time - last_frame_time self)
      /\ r = (true, self))
  \/ (enable_frame_skipping s = true
      /\ current_fps (current_time - last_frame_time self) <= target_fps s
      /\ r = (false, set_last_frame_time self current_time)).
Proof.
  cbv zeta. unfold should_skip_frame.
  destruct (enable_frame_skipping (optimization_settings self)); simpl.
  - right.
    destruct (Qgtb (current_fps (current_time - last_frame_time self))
                   (target_fps (optimization_settings self))) eqn:E.
    + left. apply Qgtb_gt in E. auto.
    + right. apply Qgtb_le in E. auto.
  - left. auto.
Qed.

(** C3.  [should_skip_frame] returns true exactly when frame skipping is
    enabled and the rate computed from the time since the last accepted
    frame is strictly above the target (for a positive target: the
    interval is positive and strictly shorter than [1 / target_fps], so a
    call exactly at the threshold returns false); a call that returns true
    leaves the object, and so the stored time, as it was; so does a call
    with skipping disabled; a call that returns false with skipping
    enabled stores the time of the call. *)
Theorem C3_should_skip_frame :
  forall (self : t Data) (current_time : Q),
    let r := should_skip_frame self current_time in
    let s := optimization_settings self in
    let dt := current_time - last_frame_time self in
    (fst r = true <->
     enable_frame_skipping s = true /\ target_fps s < current_fps dt)
    /\ (0 < target_fps s ->
        (fst r = true <->
         enable_frame_skipping s = true /\ 0 < dt /\ dt * target_fps s < 1))
    /\ (0 < target_fps s -> dt == 1 / target_fps s -> fst r = false)
    /\ (fst r = true -> snd r = self)
    /\ (enable_frame_skipping s = false -> snd r = self)
    /\ (fst r = false -> enable_frame_skipping s = true ->
        snd r = set_last_frame_time self current_time
        /\ last_frame_time (snd r) = current_time).
Proof.
  intros self current_time. cbv zeta.
  assert (Hiff : fst (should_skip_frame self current_time) = true <->
                 enable_frame_skipping (optimization_settings self) = true
                 /\ target_fps (optimization_settings self)
                    < current_fps (current_time - last_frame_time self)).
  { destruct (skip_cases self current_time) as [H|[H|H]]; cbv zeta in H.
    - destruct H as (He & Hr). rewrite Hr, He. simpl.
      split; [discriminate | intros (H & _); discriminate].
    - destruct H as (He & Hlt & Hr). rewrite Hr. simpl. tauto.
    - destruct H as (He & Hle & Hr). rewrite Hr. simpl.
      split; [discriminate|]. intros (_ & Hlt). exfalso.
      apply (Qlt_not_le _ _ Hlt Hle). }
  refine (conj Hiff (conj _ (conj _ (conj _ (conj _ _))))).
  - intros Ht. rewrite Hiff. rewrite (rate_exceeds_iff _ _ Ht). tauto.
  - intros Ht Heq.
    apply not_true_is_false. intros E.
    apply Hiff in E. destruct E as (_ & E).
    apply (rate_exceeds_iff _ _ Ht) in E. destruct E as (_ & E).
    rewrite Heq in E.
    assert (E1 : 1 / target_fps (optimization_settings self)
                 * target_fps (optimization_settings self) == 1).
    { field. intro E0. rewrite E0 in Ht. apply (Qlt_irrefl 0 Ht). }
    rewrite E1 in E. apply (Qlt_irrefl 1 E).
  - destruct (skip_cases self current_time) as [H|[H|H]]; cbv zeta in H.
    + destruct H as (_ & Hr). rewrite Hr. reflexivity.
    + destruct H as (_ & _ & Hr). rewrite Hr. reflexivity.
    + destruct H as (_ & _ & Hr). rewrite Hr. simpl. discriminate.
  - intros He.
    destruct (skip_cases self current_time) as [H|[H|H]]; cbv zeta in H.
    + destruct H as (_ & Hr). rewrite Hr. reflexivity.
    + destruct H as (He' & _). congruence.
    + destruct H as (He' & _). congruence.
  - intros Hf He.
    destruct (skip_cases self current_time) as [H|[H|H]]; cbv zeta in H.
    + destruct H as (He' & _). congruence.
    + destruct H as (_ & _ & Hr). rewrite Hr in Hf. discriminate.
    + destruct H as (_ & _ & Hr). rewrite Hr. simpl. auto.
Qed.

(** *** Quality adjustment *)

Lemma dict_get_not_in {A} (k : string) (d : list (string * A)) :
  ~ In k (keys d) -> dict_get k d = None.
Proof.
  induction d as [|[k' v] d IH]; simpl; [reflexivity|].
  intros H. destruct (String.eqb_spec k k') as [E|E].
  - exfalso. apply H. left. symmetry. exact E.
  - apply IH. intros Hin. apply H. right. exact Hin.
Qed.

Lemma keys_stats_incl (k : string) (m : list (string * list Q)) :
  In k (keys (flat_map (fun kv : string * list Q =>
                          match snd kv with
                          | [] => []
                          | xs => [(fst kv, mean xs)]
                          end) m)) ->
  In k (keys m).
Proof.
  induction m as [|[k' v] m IH]; simpl; [tauto|].
  destruct v as [|x xs]; simpl.
  - intros H. right. apply IH, H.
  - intros [H|H]; [left; exact H | right; apply IH, H].
Qed.

(** With distinct metric names, the statistics hold the mean of a metric
    exactly when the metric has samples. *)
Lemma stats_lookup (k : string) (m : list (string * list Q)) :
  NoDup (keys m) ->
  dict_get k (flat_map (fun kv : string * list Q =>
                          match snd kv with
                          | [] => []
                          | xs => [(fst kv, mean xs)]
                          end) m)
  = match dict_get k m with
    | Some (x :: xs) => Some (mean (x :: xs))
    | _ => None
    end.
Proof.
  induction m as [|[k' v] m IH]; simpl; [reflexivity|].
  intros Hnd. inversion Hnd as [|? ? Hnotin Hnd']; subst.
  destruct (String.eqb_spec k k') as [E|E].
  - subst k'. destruct v as [|x xs]; simpl.
    + apply dict_get_not_in. intros Hin. apply Hnotin.
      apply keys_stats_incl, Hin.
    + rewrite String.eqb_refl. reflexivity.
  - destruct v as [|x xs]; simpl.
    + apply IH, Hnd'.
    + destruct (String.eqb_spec k k') as [E'|_]; [contradiction|].
      apply IH, Hnd'.
Qed.

(** For a side that is not negative, [int(side * 0.8)] is the integer part
    of four fifths of the side. *)
Lemma scale_08_floor (n : Z) :
  (0 <= n -> 5 * scale_08 n <= 4 * n < 5 * (scale_08 n + 1))%Z.
Proof.
  intros H. unfold scale_08.
  rewrite Z.quot_div_nonneg by lia.
  pose proof (Z.div_mod (n * 4) 5 ltac:(lia)) as E.
  pose proof (Z.mod_pos_bound (n * 4) 5 ltac:(lia)) as B.
  lia.
Qed.

Lemma auto_adjust_above_floor (self : t Data) :
  above_floor (optimization_settings self) ->
  above_floor (optimization_settings (auto_adjust_quality self)).
Proof.
  unfold above_floor, auto_adjust_quality. intros (Hw & Hh & Hr).
  destruct (Qgtb _ 100); destruct (Qgtb _ 50); simpl; lia.
Qed.

Lemma call_settings (self : t Data) (c : Call Data) :
  c <> AutoAdjustQuality ->
  optimization_settings (call self c) = optimization_settings self.
Proof.
  destruct c as [st n now|ct| |k|k d|st now|st now]; intros Hc; simpl.
  - unfold measure_latency. destruct (dict_get n (metrics self)); reflexivity.
  - unfold should_skip_frame.
    destruct (negb _); [reflexivity|]. destruct (Qgtb _ _); reflexivity.
  - congruence.
  - unfold get_cached_gesture.
    destruct (dict_get k (lru self)); reflexivity.
  - unfold cache_gesture.
    destruct (enable_caching _); [|reflexivity].
    destruct (100 <? _)%nat; reflexivity.
  - unfold optimize_video_frame, measure_latency.
    destruct (dict_get _ (metrics self)); reflexivity.
  - unfold optimize_audio_chunk, measure_latency.
    destruct (negb _); [reflexivity|].
    destruct (dict_get _ (metrics self)); reflexivity.
Qed.

Lemma calls_above_floor (cs : list (Call Data)) : forall self : t Data,
  above_floor (optimization_settings self) ->
  above_floor (optimization_settings (calls self cs)).
Proof.
  induction cs as [|c cs IH]; intros self H; [exact H|].
  unfold calls in *. simpl. apply IH.
  destruct c as [st n now|ct| |k|k d|st now|st now];
    try (rewrite call_settings by discriminate; exact H).
  apply auto_adjust_above_floor, H.
Qed.

(** The metric names never change. *)
Lemma dict_set_keys {A} (k : string) (v v0 : A) (d : list (string * A)) :
  dict_get k d = Some v0 -> keys (dict_set k v d) = keys d.
Proof.
  unfold keys. induction d as [|[k' v'] d IH]; simpl; [discriminate|].
  destruct (String.eqb_spec k k') as [->|_]; simpl.
  - reflexivity.
  - intros H. f_equal. apply IH, H.
Qed.

Lemma measure_latency_keys (self : t Data) (st : Q) (name : string)
      (now : Q) :
  keys (metrics (snd (measure_latency self st name now)))
  = keys (metrics self).
Proof.
  unfold measure_latency.
  destruct (dict_get name (metrics self)) as [dq|] eqn:E; simpl.
  - apply (dict_set_keys _ _ _ _ E).
  - reflexivity.
Qed.

Lemma call_metric_keys (self : t Data) (c : Call Data) :
  keys (metrics (call self c)) = keys (metrics self).
Proof.
  destruct c as [st n now|ct| |k|k d|st now|st now]; simpl.
  - apply measure_latency_keys.
  - unfold should_skip_frame.
    destruct (negb _); [reflexivity|]. destruct (Qgtb _ _); reflexivity.
  - reflexivity.
  - unfold get_cached_gesture.
    destruct (dict_get k (lru self)); reflexivity.
  - unfold cache_gesture.
    destruct (enable_caching _); [|reflexivity].
    destruct (100 <? _)%nat; reflexivity.
  - apply measure_latency_keys.
  - unfold optimize_audio_chunk.
    destruct (negb _); [reflexivity|]. apply measure_latency_keys.
Qed.

Lemma calls_metric_keys (cs : list (Call Data)) : forall self : t Data,
  keys (metrics (calls self cs)) = keys (metrics self).
Proof.
  induction cs as [|c cs IH]; intros self; [reflexivity|].
  unfold calls in *. simpl. rewrite IH. apply call_metric_keys.
Qed.

Lemma init_metric_keys (now : Q) :
  NoDup (keys (metrics (__init__ (Data := Data) now))).
Proof.
  simpl. repeat constructor; simpl; intuition discriminate.
Qed.

(** What a call of [auto_adjust_quality] does, by the two means it reads. *)
Lemma auto_adjust_spec (self : t Data) :
  let stats := get_performance_stats self in
  let avg name := match dict_get name stats with Some a => a | None => 0 end in
  let s := optimization_settings self in
  let s' := optimization_settings (auto_adjust_quality self) in
  (100 < avg "video_latency" ->
   max_resolution s' = (Z.max 320 (scale_08 (fst (max_resolution s))),
                        Z.max 240 (scale_08 (snd (max_resolution s)))))
  /\ (avg "video_latency" <= 100 -> max_resolution s' = max_resolution s)
  /\ (50 < avg "audio_latency" ->
      audio_sample_rate s' = Z.max 8000 (audio_sample_rate s - 2000))
  /\ (avg "audio_latency" <= 50 -> audio_sample_rate s' = audio_sample_rate s).
Proof.
  cbv zeta. unfold auto_adjust_quality.
  set (av := match dict_get "video_latency" (get_performance_stats self) with
             | Some a => a | None => 0 end).
  set (aa := match dict_get "audio_latency" (get_performance_stats self) with
             | Some a => a | None => 0 end).
  destruct (Qgtb av 100) eqn:Ev; destruct (Qgtb aa 50) eqn:Ea; simpl;
    try apply Qgtb_gt in Ev; try apply Qgtb_le in Ev;
    try apply Qgtb_gt in Ea; try apply Qgtb_le in Ea;
    refine (conj _ (conj _ (conj _ _))); intros H; try reflexivity;
    exfalso; lra.
Qed.

(** C4 (as amended).  A call of [auto_adjust_quality] reads the means of
    the samples recorded under ["video_latency"] and ["audio_latency"]:
    when the first is above 100 ms each side of the resolution cap becomes
    the integer part of 0.8 times the side, not below 320 (width) and 240
    (height); when the second is above 50 ms the audio sample rate drops
    by 2000 Hz, not below 8000 Hz; a metric without samples changes
    nothing, whatever the other metrics (among them
    ["video_processing_time"] and ["audio_processing_time"]) hold.  From
    [__init__] on, after any sequence of calls, the metric names are
    distinct, the cap is at least 320 x 240 and the rate at least
    8000 Hz. *)
Theorem C4_auto_adjust_quality :
  (forall self : t Data,
      NoDup (keys (metrics self)) ->
      let s := optimization_settings self in
      let s' := optimization_settings (auto_adjust_quality self) in
      (forall x xs,
          dict_get "video_latency" (metrics self) = Some (x :: xs) ->
          100 < mean (x :: xs) ->
          max_resolution s'
          = (Z.max 320 (scale_08 (fst (max_resolution s))),
             Z.max 240 (scale_08 (snd (max_resolution s)))))
      /\ (forall x xs,
             dict_get "audio_latency" (metrics self) = Some (x :: xs) ->
             50 < mean (x :: xs) ->
             audio_sample_rate s'
             = Z.max 8000 (audio_sample_rate s - 2000))
      /\ (dict_get "video_latency" (metrics self) = Some [] ->
          max_resolution s' = max_resolution s)
      /\ (dict_get "audio_latency" (metrics self) = Some [] ->
          audio_sample_rate s' = audio_sample_rate s))
  /\
  (forall n : Z,
      (0 <= n -> 5 * scale_08 n <= 4 * n < 5 * (scale_08 n + 1))%Z)
  /\
  (forall (now : Q) (cs : list (Call Data)),
      let self := calls (__init__ now) cs in
      let s := optimization_settings self in
      NoDup (keys (metrics self))
      /\ (320 <= fst (max_resolution s) /\ 240 <= snd (max_resolution s)
          /\ 8000 <= audio_sample_rate s)%Z).
Proof.
  refine (conj _ (conj scale_08_floor _)).
  - intros self Hnd. cbv zeta.
    pose proof (auto_adjust_spec self) as H. cbv zeta in H.
    unfold get_performance_stats in H.
    rewrite !(stats_lookup _ _ Hnd) in H.
    destruct H as (Hv & Hv' & Ha & Ha').
    refine (conj _ (conj _ (conj _ _))).
    + intros x xs E Hm. rewrite E in Hv. apply Hv, Hm.
    + intros x xs E Hm. rewrite E in Ha. apply Ha, Hm.
    + intros E. rewrite E in Hv'. apply Hv'. discriminate.
    + intros E. rewrite E in Ha'. apply Ha'. discriminate.
  - intros now cs. cbv zeta. split.
    + rewrite calls_metric_keys. apply init_metric_keys.
    + apply (calls_above_floor cs (__init__ now)).
      unfold above_floor. simpl. lia.
Qed.

(** *** The memo table of [get_cached_gesture] *)

Lemma held_cons_same {A} (k : string) (r : A) (l : list (string * A)) :
  held k r 0 ((k, r) :: l).
Proof.
  unfold held. simpl. rewrite String.eqb_refl. eauto.
Qed.

Lemma held_cons_other {A} (k k' : string) (r r' : A) (n : nat)
      (l : list (string * A)) :
  k' <> k -> held k r n l -> held k r (S n) ((k', r') :: l).
Proof.
  intros Hk (Hg & n' & Hr & Hn). unfold held. simpl.
  destruct (String.eqb_spec k k') as [E|_]; [congruence|].
  split; [exact Hg|]. exists (S n'). rewrite Hr. simpl.
  split; [reflexivity|lia].
Qed.

Lemma held_weaken {A} (k : string) (r : A) (n m : nat)
      (l : list (string * A)) :
  (n <= m)%nat -> held k r n l -> held k r m l.
Proof.
  intros Hle (Hg & n' & Hr & Hn). split; [exact Hg|].
  exists n'. split; [exact Hr|lia].
Qed.

Lemma held_del_other {A} (k k' : string) (r : A) (n : nat)
      (l : list (string * A)) :
  k' <> k -> held k r n l -> held k r n (dict_del k' l).
Proof.
  intros Hk. revert n. induction l as [|[k0 v0] l IH]; intros n H.
  - exact H.
  - destruct H as (Hg & n' & Hr & Hn). simpl in Hg, Hr. unfold dict_del.
    simpl. destruct (String.eqb_spec k k0) as [E|E].
    + subst k0. destruct (String.eqb_spec k' k) as [E'|_]; [contradiction|].
      simpl. injection Hg as ->.
      apply held_weaken with 0%nat; [lia | apply held_cons_same].
    + destruct (rank k l) as [m|] eqn:Hm; [|discriminate].
      simpl in Hr. injection Hr as <-.
      assert (Hl : held k r m l) by (split; [exact Hg|eauto]).
      specialize (IH m Hl).
      destruct (String.eqb_spec k' k0) as [E'|E']; simpl.
      * destruct IH as (Hg' & m' & Hr' & Hm'). split; [exact Hg'|].
        exists m'. split; [exact Hr'|lia].
      * destruct IH as (Hg' & m' & Hr' & Hm'). unfold held. simpl.
        destruct (String.eqb_spec k k0) as [?|_]; [contradiction|].
        split; [exact Hg'|]. exists (S m'). fold (dict_del k' l).
        rewrite Hr'. simpl. split; [reflexivity|lia].
Qed.

Lemma held_firstn {A} (k : string) (r : A) (n m : nat)
      (l : list (string * A)) :
  (n < m)%nat -> held k r n l -> held k r n (firstn m l).
Proof.
  revert n m. induction l as [|[k0 v0] l IH]; intros n m Hlt H.
  - rewrite firstn_nil. exact H.
  - destruct m as [|m]; [lia|]. simpl.
    destruct H as (Hg & n' & Hr & Hn). simpl in Hg, Hr. unfold held. simpl.
    destruct (String.eqb_spec k k0) as [E|E].
    + split; [exact Hg|]. exists 0%nat. split; [reflexivity|lia].
    + destruct (rank k l) as [j|] eqn:Hj; [|discriminate].
      simpl in Hr. injection Hr as <-.
      assert (Hl : held k r j l) by (split; [exact Hg|eauto]).
      destruct (IH j m ltac:(lia) Hl) as (Hg' & j' & Hr' & Hj').
      split; [exact Hg'|]. exists (S j'). rewrite Hr'. simpl.
      split; [reflexivity|lia].
Qed.

(** A lookup of [k] in a table that holds [r] for [k] returns [r]. *)
Lemma lookup_held (self : t Data) (k : string) (r : option Data) (n : nat) :
  held k r n (lru self) ->
  fst (get_cached_gesture self k) = r
  /\ held k r 0 (lru (snd (get_cached_gesture self k))).
Proof.
  intros (Hg & _). unfold get_cached_gesture. rewrite Hg.
  cbn [fst snd lru set_lru].
  split; [reflexivity | apply held_cons_same].
Qed.

(** The first lookup of a key puts its result in front of the table. *)
Lemma lookup_holds (self : t Data) (k : string) :
  held k (fst (get_cached_gesture self k)) 0
       (lru (snd (get_cached_gesture self k))).
Proof.
  unfold get_cached_gesture.
  destruct (dict_get k (lru self)) as [r|] eqn:Hg; cbn [fst snd lru set_lru].
  - apply held_cons_same.
  - unfold lru_maxsize. rewrite firstn_cons. apply held_cons_same.
Qed.

Lemma call_held (self : t Data) (c : Call Data) (k : string)
      (r : option Data) (n : nat) :
  held k r n (lru self) ->
  (n + (if other_lookup k c then 1 else 0) < lru_maxsize)%nat ->
  held k r (n + (if other_lookup k c then 1 else 0)) (lru (call self c)).
Proof.
  intros H Hn.
  destruct c as [st nm now|ct| |k'|k' d|st now|st now]; simpl in *.
  - rewrite Nat.add_0_r.
    unfold measure_latency. destruct (dict_get nm (metrics self)); exact H.
  - rewrite Nat.add_0_r. unfold should_skip_frame.
    destruct (negb _); [exact H|]. destruct (Qgtb _ _); exact H.
  - rewrite Nat.add_0_r. exact H.
  - destruct (String.eqb_spec k' k) as [E|E]; simpl in *.
    + subst k'. rewrite Nat.add_0_r.
      apply held_weaken with 0%nat; [lia|].
      apply (lookup_held self k r n H).
    + replace (n + 1)%nat with (S n) in * by lia.
      unfold get_cached_gesture.
      destruct (dict_get k' (lru self)) as [r'|] eqn:Hg;
        cbn [fst snd lru set_lru].
      * apply held_cons_other; [exact E|].
        apply held_del_other; [exact E | exact H].
      * apply held_firstn; [exact Hn|].
        apply held_cons_other; [exact E | exact H].
  - rewrite Nat.add_0_r. unfold cache_gesture.
    destruct (enable_caching _); [|exact H].
    destruct (100 <? _)%nat; exact H.
  - rewrite Nat.add_0_r. unfold optimize_video_frame, measure_latency.
    destruct (dict_get _ (metrics self)); exact H.
  - rewrite Nat.add_0_r. unfold optimize_audio_chunk, measure_latency.
    destruct (negb _); [exact H|].
    destruct (dict_get _ (metrics self)); exact H.
Qed.

Lemma calls_held (cs : list (Call Data)) :
  forall (self : t Data) (k : string) (r : option Data) (n : nat),
    held k r n (lru self) ->
    (n + other_lookups k cs < lru_maxsize)%nat ->
    held k r (n + other_lookups k cs) (lru (calls self cs)).
Proof.
  induction cs as [|c cs IH]; intros self k r n H Hn.
  - unfold other_lookups. simpl. rewrite Nat.add_0_r. exact H.
  - unfold calls, other_lookups in *. simpl in *.
    destruct (other_lookup k c) eqn:Ec; simpl in *.
    + replace (n + S (length (filter (other_lookup k) cs)))%nat
        with ((n + 1) + length (filter (other_lookup k) cs))%nat in * by lia.
      apply IH; [|exact Hn].
      pose proof (call_held self c k r n H) as Hc. rewrite Ec in Hc.
      apply Hc. lia.
    + apply IH; [|exact Hn].
      pose proof (call_held self c k r n H) as Hc. rewrite Ec in Hc.
      rewrite Nat.add_0_r in Hc. apply Hc. lia.
Qed.

(** C10.  Once [get_cached_gesture] has been called for a key, a later
    call for that key returns the result of the first call, whatever
    [cache_gesture] has stored in between (for the same key or others), as
    long as the entry is in the memo table: fewer than 128 lookups of
    other keys in between are not enough to evict it.  In particular a
    first result [None] stays [None]. *)
Theorem C10_get_cached_gesture_memoized :
  forall (self : t Data) (gesture_key : string) (cs : list (Call Data)),
    (other_lookups gesture_key cs < 128)%nat ->
    let first := get_cached_gesture self gesture_key in
    let later := get_cached_gesture (calls (snd first) cs) gesture_key in
    fst later = fst first
    /\ (fst first = None -> fst later = None).
Proof.
  intros self k cs Hn. cbv zeta.
  pose proof (lookup_holds self k) as H0.
  pose proof (calls_held cs _ k _ 0%nat H0) as H1.
  simpl in H1. specialize (H1 Hn).
  destruct (lookup_held _ k _ _ H1) as (Hr & _).
  split; [exact Hr|]. intros E. rewrite Hr. exact E.
Qed.

End PerformanceOptimizerFacts.

(** *** Instances *)

Lemma C3_should_skip_frame_witness :
  let self := PerformanceOptimizer.__init__ (Data := string) 0 in
  fst (PerformanceOptimizer.should_skip_frame self (1 # 15)) = false
  /\ PerformanceOptimizer.last_frame_time
       (snd (PerformanceOptimizer.should_skip_frame self (1 # 15)))
     = 1 # 15.
Proof.
  intros self.
  pose proof (C3_should_skip_frame self (1 # 15)) as H.
  cbv zeta in H. destruct H as (_ & _ & Hb & _ & _ & Hupd).
  assert (Hf : fst (PerformanceOptimizer.should_skip_frame self (1 # 15))
               = false).
  { apply Hb; vm_compute; reflexivity. }
  split; [exact Hf|].
  apply Hupd; [exact Hf | reflexivity].
Defined.

Lemma C4_auto_adjust_quality_witness :
  let self :=
    snd (PerformanceOptimizer.measure_latency
           (PerformanceOptimizer.__init__ (Data := string) 0)
           0 "video_latency" 1) in
  PerformanceOptimizer.max_resolution
    (PerformanceOptimizer.optimization_settings
       (PerformanceOptimizer.auto_adjust_quality self))
  = (512, 384)%Z.
Proof.
  intros self.
  assert (Hnd : NoDup (keys (PerformanceOptimizer.metrics self))).
  { vm_compute. repeat constructor; simpl; intuition discriminate. }
  destruct (proj1 C4_auto_adjust_quality self Hnd) as (Hv & _).
  rewrite (Hv (1000 # 1) []).
  - reflexivity.
  - reflexivity.
  - vm_compute. reflexivity.
Defined.

(** C4, as stated, fails: after [optimize_video_frame] has recorded a
    processing time of 200 ms and [optimize_audio_chunk] one of 60 ms, a
    call changes neither the resolution cap nor the sample rate. *)
Lemma C4_processing_time_not_consulted :
  let self0 := PerformanceOptimizer.__init__ (Data := string) 0 in
  let self1 := PerformanceOptimizer.optimize_video_frame self0 0 (1 # 5) in
  let self2 := PerformanceOptimizer.optimize_audio_chunk self1 0 (3 # 50) in
  let s' := PerformanceOptimizer.optimization_settings
              (PerformanceOptimizer.auto_adjust_quality self2) in
  (exists v, dict_get "video_processing_time"
                      (PerformanceOptimizer.get_performance_stats self2)
             = Some v /\ 100 < v)
  /\ (exists a, dict_get "audio_processing_time"
                         (PerformanceOptimizer.get_performance_stats self2)
                = Some a /\ 50 < a)
  /\ PerformanceOptimizer.max_resolution s' = (640, 480)%Z
  /\ PerformanceOptimizer.audio_sample_rate s' = 16000%Z.
Proof.
  cbv zeta. refine (conj _ (conj _ (conj _ _))).
  - eexists. split; [vm_compute; reflexivity | vm_compute; reflexivity].
  - eexists. split; [vm_compute; reflexivity | vm_compute; reflexivity].
  - vm_compute. reflexivity.
  - vm_compute. reflexivity.
Qed.

Lemma C10_get_cached_gesture_memoized_witness :
  let self := PerformanceOptimizer.__init__ (Data := string) 0 in
  let first := PerformanceOptimizer.get_cached_gesture self "wave" in
  let cs := [PerformanceOptimizer.CacheGesture "wave" "hello"] in
  let self' := PerformanceOptimizer.calls (snd first) cs in
  dict_get "wave" (PerformanceOptimizer._cache self') = Some "hello"
  /\ fst (PerformanceOptimizer.get_cached_gesture self' "wave") = None.
Proof.
  cbv zeta. split; [reflexivity|].
  assert (Hn : (PerformanceOptimizer.other_lookups "wave"
                  [PerformanceOptimizer.CacheGesture "wave" "hello"]
                < 128)%nat) by (vm_compute; lia).
  destruct (C10_get_cached_gesture_memoized
              (PerformanceOptimizer.__init__ (Data := string) 0) "wave"
              [PerformanceOptimizer.CacheGesture "wave" "hello"] Hn)
    as (_ & Hnone).
  apply Hnone. reflexivity.
Defined.

(** The bound of C10 is the capacity of the table: after the lookups of
    128 other keys the entry is gone and the next lookup reads the dict
    again. *)
Example lru_eviction :
  let self := PerformanceOptimizer.__init__ (Data := string) 0 in
  let first := PerformanceOptimizer.get_cached_gesture self "wave" in
  let cs :=
    PerformanceOptimizer.CacheGesture "wave" "hello"
    :: map (fun n => PerformanceOptimizer.GetCachedGesture (key_of_length n))
           (seq 1 128) in
  let self' := PerformanceOptimizer.calls (snd first) cs in
  fst first = None
  /\ PerformanceOptimizer.other_lookups "wave" cs = 128%nat
  /\ fst (PerformanceOptimizer.get_cached_gesture self' "wave") = Some "hello".
Proof.
  vm_compute. repeat split.
Qed.

(** ** The ensemble translator *)

Section EnsembleTranslatorFacts.

Import EnsembleTranslator.

(** *** Sums *)

Lemma fold_left_Qplus (l : list Q) : forall a, fold_left Qplus l a == a + sum l.
Proof.
  unfold sum. induction l as [|x l IH]; intros a; simpl.
  - ring.
  - rewrite (IH (a + x)), (IH (0 + x)). ring.
Qed.

Lemma sum_cons (x : Q) (l : list Q) : sum (x :: l) == x + sum l.
Proof.
  unfold sum at 1. simpl. rewrite fold_left_Qplus. ring.
Qed.

Lemma sum_app (l1 l2 : list Q) : sum (l1 ++ l2) == sum l1 + sum l2.
Proof.
  induction l1 as [|x l1 IH]; simpl.
  - unfold sum at 2. simpl. ring.
  - rewrite !sum_cons, IH. ring.
Qed.

Lemma sum_pos (l : list Q) :
  l <> [] -> Forall (fun x => 0 < x) l -> 0 < sum l.
Proof.
  intros Hne Hall. induction Hall as [|x l Hx Hall IH]; [congruence|].
  rewrite sum_cons. destruct l as [|y l].
  - unfold sum. simpl. lra.
  - assert (0 < sum (y :: l)) by (apply IH; discriminate). lra.
Qed.

(** *** The arg-max of a score vector *)

Lemma argmax_from_first_max (l : list Q) :
  forall (pre : list Q) (bi : nat),
    first_max bi pre ->
    first_max (argmax_from bi (nth bi pre 0) (length pre) l) (pre ++ l).
Proof.
  induction l as [|x l IH]; intros pre bi H.
  - simpl. rewrite app_nil_r. exact H.
  - destruct H as (Hlt & Hmax & Hfirst). cbn [argmax_from].
    assert (Hlen : length (pre ++ [x]) = S (length pre))
      by (rewrite length_app; simpl; lia).
    replace (pre ++ x :: l) with ((pre ++ [x]) ++ l)
      by (rewrite <- app_assoc; reflexivity).
    destruct (Qltb (nth bi pre 0) x) eqn:E.
    + apply Qltb_lt in E.
      assert (Hx : nth (length pre) (pre ++ [x]) 0 = x)
        by (rewrite app_nth2, Nat.sub_diag by lia; reflexivity).
      rewrite <- Hx at 1. rewrite <- Hlen. apply IH.
      unfold first_max. rewrite Hlen, Hx.
      refine (conj _ (conj _ _)).
      * lia.
      * intros j Hj. destruct (Nat.eq_dec j (length pre)) as [->|Hne].
        -- rewrite Hx. apply Qle_refl.
        -- rewrite app_nth1 by lia. apply Qlt_le_weak.
           apply Qle_lt_trans with (nth bi pre 0); [apply Hmax; lia|exact E].
      * intros j Hj. rewrite app_nth1 by lia.
        apply Qle_lt_trans with (nth bi pre 0); [apply Hmax; lia|exact E].
    + apply Qltb_ge in E.
      assert (Hb : nth bi (pre ++ [x]) 0 = nth bi pre 0)
        by (apply app_nth1; exact Hlt).
      rewrite <- Hb. rewrite <- Hlen. apply IH.
      unfold first_max. rewrite Hlen, Hb.
      refine (conj _ (conj _ _)).
      * lia.
      * intros j Hj. destruct (Nat.eq_dec j (length pre)) as [->|Hne].
        -- rewrite app_nth2, Nat.sub_diag by lia. exact E.
        -- rewrite app_nth1 by lia. apply Hmax. lia.
      * intros j Hj. rewrite app_nth1 by lia. apply Hfirst, Hj.
Qed.

Lemma argmax_first_max (l : list Q) (X : nat) :
  argmax l = Some X -> first_max X l.
Proof.
  destruct l as [|x l]; [discriminate|]. simpl. intros H. injection H as <-.
  apply (argmax_from_first_max l [x] 0%nat).
  unfold first_max. simpl. refine (conj _ (conj _ _)).
  - lia.
  - intros j Hj. replace j with 0%nat by lia. apply Qle_refl.
  - intros j Hj. lia.
Qed.

Lemma first_max_unique (l : list Q) (X Y : nat) :
  first_max X l -> first_max Y l -> X = Y.
Proof.
  intros (HX & HXmax & HXfirst) (HY & HYmax & HYfirst).
  destruct (Nat.lt_trichotomy X Y) as [H|[H|H]]; [|exact H|].
  - exfalso. apply (Qlt_not_le _ _ (HYfirst X H)). apply HXmax, HY.
  - exfalso. apply (Qlt_not_le _ _ (HXfirst Y H)). apply HYmax, HX.
Qed.

Lemma first_max_argmax (l : list Q) (X : nat) :
  first_max X l -> argmax l = Some X.
Proof.
  intros H. destruct (argmax l) as [Y|] eqn:E.
  - f_equal. apply (first_max_unique l); [apply argmax_first_max, E|exact H].
  - destruct l; [|discriminate]. destruct H as (H & _). simpl in H. lia.
Qed.

(** An increasing map applied to every score keeps the arg-max. *)
Lemma first_max_map (f : Q -> Q) (l : list Q) (X : nat) :
  (forall x y, x <= y -> f x <= f y) ->
  (forall x y, x < y -> f x < f y) ->
  first_max X l -> first_max X (map f l).
Proof.
  intros Hle Hlt (HX & Hmax & Hfirst). unfold first_max.
  rewrite length_map.
  assert (Hn : forall j, (j < length l)%nat ->
                         nth j (map f l) 0 = f (nth j l 0)).
  { intros j Hj. rewrite (nth_indep _ 0 (f 0)) by (rewrite length_map; lia).
    apply map_nth. }
  refine (conj HX (conj _ _)).
  - intros j Hj. rewrite !Hn by lia. apply Hle, Hmax, Hj.
  - intros j Hj. rewrite !Hn by lia. apply Hlt, Hfirst, Hj.
Qed.

Lemma vec_add_nth (a : list Q) : forall b c,
  vec_add a b = Some c ->
  length c = length a
  /\ length b = length a
  /\ forall j, (j < length a)%nat -> nth j c 0 = nth j a 0 + nth j b 0.
Proof.
  induction a as [|x a IH]; intros [|y b] c H; simpl in H; try discriminate.
  - injection H as <-. simpl. repeat split. intros j Hj. lia.
  - destruct (vec_add a b) as [c'|] eqn:E; [|discriminate].
    injection H as <-. destruct (IH b c' E) as (H1 & H2 & H3). simpl.
    repeat split; try lia.
    intros [|j] Hj; [reflexivity|]. apply H3. lia.
Qed.

Lemma vec_add_defined (a : list Q) : forall b,
  length b = length a -> exists c, vec_add a b = Some c.
Proof.
  induction a as [|x a IH]; intros [|y b] H; simpl in *; try discriminate.
  - eauto.
  - destruct (IH b ltac:(lia)) as (c & ->). eauto.
Qed.

(** The sum of two vectors with the same arg-max has that arg-max. *)
Lemma first_max_add (a b c : list Q) (X : nat) :
  vec_add a b = Some c ->
  first_max X a -> first_max X b -> first_max X c.
Proof.
  intros H (HX & Hmax & Hfirst) (HX' & Hmax' & Hfirst').
  destruct (vec_add_nth a b c H) as (Hc & Hb & Hn).
  unfold first_max. rewrite Hc. refine (conj HX (conj _ _)).
  - intros j Hj. rewrite !Hn by lia.
    apply Qplus_le_compat; [apply Hmax, Hj | apply Hmax'; lia].
  - intros j Hj. rewrite !Hn by lia.
    apply Qplus_lt_le_compat; [apply Hfirst, Hj|].
    apply Qlt_le_weak, Hfirst', Hj.
Qed.

Lemma first_max_scale (l : list Q) (w : Q) (X : nat) :
  0 < w -> first_max X l -> first_max X (scale l w).
Proof.
  intros Hw. unfold scale. apply first_max_map.
  - intros x y H. apply Qmult_le_compat_r; [exact H | apply Qlt_le_weak, Hw].
  - intros x y H. apply Qmult_lt_compat_r; assumption.
Qed.

Lemma first_max_div (l : list Q) (d : Q) (X : nat) :
  0 < d -> first_max X l -> first_max X (map (fun x => x / d) l).
Proof.
  intros Hd. pose proof (Qinv_lt_0_compat d Hd) as Hi. apply first_max_map.
  - intros x y H. unfold Qdiv.
    apply Qmult_le_compat_r; [exact H | apply Qlt_le_weak, Hi].
  - intros x y H. unfold Qdiv. apply Qmult_lt_compat_r; assumption.
Qed.

(** *** Agreement *)

Lemma agree_iff (l : list Z) :
  agree l = true <-> l <> [] /\ forall a b, In a l -> In b l -> a = b.
Proof.
  unfold agree. rewrite Nat.eqb_eq. split.
  - intros H. split.
    + intros ->. simpl in H. discriminate.
    + intros a b Ha Hb.
      apply (nodup_In Z.eq_dec) in Ha. apply (nodup_In Z.eq_dec) in Hb.
      destruct (nodup Z.eq_dec l) as [|x [|y r]]; simpl in H;
        try discriminate.
      simpl in Ha, Hb. destruct Ha as [<-|[]]. destruct Hb as [<-|[]].
      reflexivity.
  - intros (Hne & Hall).
    pose proof (NoDup_nodup Z.eq_dec l) as Hnd.
    destruct (nodup Z.eq_dec l) as [|x [|y r]] eqn:E.
    + exfalso. destruct l as [|a l]; [congruence|].
      assert (Ha : In a (nodup Z.eq_dec (a :: l)))
        by (apply nodup_In; left; reflexivity).
      rewrite E in Ha. exact Ha.
    + reflexivity.
    + exfalso.
      assert (Hx : In x l) by (apply (nodup_In Z.eq_dec); rewrite E;
                               left; reflexivity).
      assert (Hy : In y l) by (apply (nodup_In Z.eq_dec); rewrite E;
                               right; left; reflexivity).
      pose proof (Hall x y Hx Hy) as Exy. subst y.
      inversion Hnd as [|? ? Hnotin _]. apply Hnotin. left. reflexivity.
Qed.

(** *** The loop over the valid predictions *)

Lemma dict_get_In {A} (k : string) (d : list (string * A)) (v : A) :
  dict_get k d = Some v -> In (k, v) d.
Proof.
  induction d as [|[k' v'] d IH]; simpl; [discriminate|].
  destruct (String.eqb_spec k k') as [->|_].
  - intros H. injection H as ->. left. reflexivity.
  - intros H. right. apply IH, H.
Qed.

Lemma weight_of_pos (weights : list (string * Q)) (m : string) :
  weights_positive weights -> 0 < weight_of weights m.
Proof.
  intros (_ & H). unfold weight_of.
  destruct (dict_get m weights) as [w|] eqn:E; [|reflexivity].
  apply dict_get_In in E. rewrite Forall_forall in H. apply (H _ E).
Qed.

Lemma total_pos (weights : list (string * Q)) :
  weights_positive weights -> 0 < sum (values weights).
Proof.
  intros (Hne & H). apply sum_pos.
  - unfold values. destruct weights; [congruence|discriminate].
  - unfold values. rewrite Forall_map. exact H.
Qed.

Lemma dict_set_Forall {A} (P : string * A -> Prop) (k : string) (v : A)
      (d : list (string * A)) :
  P (k, v) -> Forall P d -> Forall P (dict_set k v d).
Proof.
  intros Hkv H. induction H as [|[k' v'] d Hx Hd IH]; simpl.
  - constructor; [exact Hkv|constructor].
  - destruct (String.eqb k k'); constructor; assumption.
Qed.

Lemma dict_set_nonempty {A} (k : string) (v : A) (d : list (string * A)) :
  dict_set k v d <> [].
Proof.
  destruct d as [|[k' v'] d]; simpl; [discriminate|].
  destruct (String.eqb k k'); discriminate.
Qed.

Lemma accumulate_step (weights : list (string * Q))
      (acc : option (list Q)) (mr : list (string * ModelResult))
      (p : Prediction) :
  accumulate weights (Some (acc, mr)) p
  = match acc with
    | None =>
        Some (Some (scale (probabilities p) (weight_of weights (model p))),
              dict_set (model p) (entry_of p) mr)
    | Some probs =>
        match vec_add probs
                      (scale (probabilities p) (weight_of weights (model p)))
        with
        | Some probs' =>
            Some (Some probs', dict_set (model p) (entry_of p) mr)
        | None => None
        end
    end.
Proof. reflexivity. Qed.

(** When every valid prediction carries the label [x], which is the
    arg-max [X] of its score vector of length [n], the loop succeeds, the
    weighted sum has arg-max [X] and every entry carries the label [x]. *)
Lemma loop_agreeing (weights : list (string * Q)) (x : Z) (X n : nat)
      (valid : list Prediction) :
  weights_positive weights ->
  Forall (fun p => prediction p = x
                   /\ first_max X (probabilities p)
                   /\ length (probabilities p) = n) valid ->
  forall (acc : option (list Q)) (mr : list (string * ModelResult)),
    match acc with
    | None => True
    | Some s => first_max X s /\ length s = n
    end ->
    Forall (fun kv => mr_prediction (snd kv) = x) mr ->
    exists acc' mr',
      fold_left (accumulate weights) valid (Some (acc, mr))
      = Some (acc', mr')
      /\ match acc' with
         | None => acc = None /\ valid = []
         | Some s => first_max X s /\ length s = n
         end
      /\ Forall (fun kv => mr_prediction (snd kv) = x) mr'
      /\ (valid <> [] -> mr' <> []).
Proof.
  intros Hw Hall. induction Hall as [|p valid (Hp & Hfm & Hlen) _ IH];
    intros acc mr Hacc Hmr.
  - exists acc, mr. simpl. split; [reflexivity|].
    split; [destruct acc; auto|]. split; [exact Hmr|congruence].
  - cbn [fold_left]. rewrite accumulate_step.
    pose proof (weight_of_pos weights (model p) Hw) as Hwp.
    pose proof (first_max_scale _ _ _ Hwp Hfm) as Hs.
    assert (Hsl : length (scale (probabilities p)
                                (weight_of weights (model p))) = n)
      by (unfold scale; rewrite length_map; exact Hlen).
    assert (Hmr' : Forall (fun kv => mr_prediction (snd kv) = x)
                          (dict_set (model p) (entry_of p) mr))
      by (apply dict_set_Forall; [exact Hp | exact Hmr]).
    destruct acc as [s|].
    + destruct Hacc as (Hfs & Hls).
      destruct (vec_add_defined s (scale (probabilities p)
                                         (weight_of weights (model p))))
        as (c & Hc); [congruence|].
      rewrite Hc.
      destruct (vec_add_nth _ _ _ Hc) as (Hcl & _).
      destruct (IH (Some c) (dict_set (model p) (entry_of p) mr))
        as (acc' & mr' & Hf & Ha & Hm & Hne).
      * split; [apply (first_max_add _ _ _ _ Hc Hfs Hs) | congruence].
      * exact Hmr'.
      * exists acc', mr'. split; [exact Hf|].
        split; [destruct acc'; [exact Ha | destruct Ha; discriminate]|].
        split; [exact Hm|]. intros _.
        destruct valid as [|q valid]; [|apply Hne; discriminate].
        simpl in Hf. injection Hf as _ <-. apply dict_set_nonempty.
    + destruct (IH (Some (scale (probabilities p)
                                (weight_of weights (model p))))
                   (dict_set (model p) (entry_of p) mr))
        as (acc' & mr' & Hf & Ha & Hm & Hne).
      * split; assumption.
      * exact Hmr'.
      * exists acc', mr'. split; [exact Hf|].
        split; [destruct acc'; [exact Ha | destruct Ha; discriminate]|].
        split; [exact Hm|]. intros _.
        destruct valid as [|q valid]; [|apply Hne; discriminate].
        simpl in Hf. injection Hf as _ <-. apply dict_set_nonempty.
Qed.

(** The loop leaves an entry for every model it has seen. *)
Lemma loop_nonempty (weights : list (string * Q)) (valid : list Prediction) :
  forall acc mr acc' mr',
    fold_left (accumulate weights) valid (Some (acc, mr)) = Some (acc', mr') ->
    valid <> [] \/ mr <> [] -> mr' <> [].
Proof.
  induction valid as [|p valid IH]; intros acc mr acc' mr' H Hne.
  - simpl in H. injection H as _ <-. destruct Hne; congruence.
  - cbn [fold_left] in H. rewrite accumulate_step in H.
    destruct acc as [s|].
    + destruct (vec_add _ _) as [c|].
      * apply (IH _ _ _ _ H). right. apply dict_set_nonempty.
      * exfalso. clear - H. induction valid as [|q valid IHv];
          simpl in H; [discriminate | exact (IHv H)].
    + apply (IH _ _ _ _ H). right. apply dict_set_nonempty.
Qed.

(** *** The three branches of a fusion *)

(** The object after a call differs from the object before it in the
    statistics and the history of results only. *)
Lemma fusion_cases (self : t) (predictions : list Prediction)
      (r : Result) (self' : t) :
  _ensemble_predictions self predictions = Some (r, self') ->
  vocabulary self' = vocabulary self
  /\ ensemble_weights self' = ensemble_weights self
  /\ ((filter success predictions = []
       /\ r = Failure "No valid predictions" "ensemble"
       /\ self' = self)
      \/ (exists p,
             filter success predictions = [p]
             /\ r = Single p "ensemble_single" [model p]
             /\ bump_only (model p) (stats self) = Some (stats self')
             /\ results_cache self' = results_cache self)
      \/ (exists e weighted_sum i,
             (2 <= length (filter success predictions))%nat
             /\ r = Fused e
             /\ fold_left (accumulate (ensemble_weights self))
                          (filter success predictions) (Some (None, []))
                = Some (Some weighted_sum, e_model_results e)
             /\ ~ sum (values (ensemble_weights self)) == 0
             /\ e_probabilities e
                = map (fun x => x / sum (values (ensemble_weights self)))
                      weighted_sum
             /\ argmax (e_probabilities e) = Some i
             /\ e_prediction e = Z.of_nat i
             /\ e_confidence e = nth i (e_probabilities e) 0
             /\ e_agreement e
                = agree (map mr_prediction (values (e_model_results e)))
             /\ e_models_used e = keys (e_model_results e)
             /\ e_method e = "ensemble"
             /\ stats self'
                = record_fusion (stats self) (e_agreement e) (e_confidence e)
             /\ results_cache self'
                = deque_append 10 (results_cache self) e)).
Proof.
  unfold _ensemble_predictions.
  destruct (filter success predictions) as [|p [|q valid]] eqn:Hv.
  - intros H. injection H as <- <-.
    split; [reflexivity|]. split; [reflexivity|]. left. auto.
  - destruct (bump_only (model p) (stats self)) as [s'|] eqn:Hb;
      [|discriminate].
    intros H. injection H as <- <-. cbn [vocabulary ensemble_weights].
    split; [reflexivity|]. split; [reflexivity|].
    right. left. exists p. cbn [stats results_cache]. auto.
  - destruct (fold_left _ _ _) as [[[ws|] mr]|] eqn:Hf; try discriminate.
    destruct (Qeq_bool (sum (values (ensemble_weights self))) 0) eqn:Ht;
      [discriminate|].
    destruct (argmax _) as [i|] eqn:Ha; [|discriminate].
    intros H. injection H as <- <-. cbn [vocabulary ensemble_weights].
    split; [reflexivity|]. split; [reflexivity|].
    right. right.
    eexists. exists ws, i.
    cbn [e_prediction e_confidence e_probabilities e_method e_models_used
         e_model_results e_agreement stats results_cache].
    repeat match goal with |- _ /\ _ => split end;
      try reflexivity; try exact Ha.
    + simpl. lia.
    + intros E. apply Qeq_bool_iff in E. congruence.
Qed.

Lemma bump_only_cases (m : string) (s s' : Stats) :
  bump_only m s = Some s' ->
  ensemble_predictions s' = ensemble_predictions s
  /\ agreement_rate s' = agreement_rate s
  /\ average_confidence s' = average_confidence s
  /\ ((m = "i3d" /\ i3d_only s' = (i3d_only s + 1)%Z
       /\ tgcn_only s' = tgcn_only s)
      \/ (m = "tgcn" /\ i3d_only s' = i3d_only s
          /\ tgcn_only s' = (tgcn_only s + 1)%Z)).
Proof.
  unfold bump_only.
  destruct (String.eqb_spec m "i3d") as [E|_].
  - intros H. injection H as <-. simpl.
    refine (conj eq_refl (conj eq_refl (conj eq_refl _))). left. auto.
  - destruct (String.eqb_spec m "tgcn") as [E|_]; [|discriminate].
    intros H. injection H as <-. simpl.
    refine (conj eq_refl (conj eq_refl (conj eq_refl _))). right. auto.
Qed.

(** *** The single-model branch *)

(** C6.  When exactly one prediction is valid and it comes from one of the
    two channels, the call returns the copy of that prediction with the
    method ['ensemble_single'] and [models_used] naming the channel, adds
    one to the usage counter of the channel, and changes nothing else. *)
Theorem C6_single_channel_passthrough :
  forall (self : t) (predictions : list Prediction) (p : Prediction),
    filter success predictions = [p] ->
    model p = "i3d" \/ model p = "tgcn" ->
    exists self',
      _ensemble_predictions self predictions
      = Some (Single p "ensemble_single" [model p], self')
      /\ (model p = "i3d" ->
          i3d_only (stats self') = (i3d_only (stats self) + 1)%Z
          /\ tgcn_only (stats self') = tgcn_only (stats self))
      /\ (model p = "tgcn" ->
          tgcn_only (stats self') = (tgcn_only (stats self) + 1)%Z
          /\ i3d_only (stats self') = i3d_only (stats self))
      /\ ensemble_predictions (stats self')
         = ensemble_predictions (stats self)
      /\ agreement_rate (stats self') = agreement_rate (stats self)
      /\ average_confidence (stats self') = average_confidence (stats self)
      /\ ensemble_weights self' = ensemble_weights self
      /\ results_cache self' = results_cache self.
Proof.
  intros self predictions p Hv Hm.
  unfold _ensemble_predictions. rewrite Hv. unfold bump_only.
  destruct Hm as [Hm|Hm]; rewrite Hm; simpl;
    eexists; (split; [reflexivity|]); simpl;
    repeat match goal with |- _ /\ _ => split end;
    try reflexivity; try (intros _; split; reflexivity);
    intros E; discriminate E.
Qed.

(** *** A well-formed call returns *)

Lemma loop_defined (weights : list (string * Q)) (n : nat)
      (valid : list Prediction) :
  Forall (fun p => length (probabilities p) = n) valid ->
  forall (acc : option (list Q)) (mr : list (string * ModelResult)),
    match acc with None => True | Some s => length s = n end ->
    exists acc' mr',
      fold_left (accumulate weights) valid (Some (acc, mr))
      = Some (acc', mr')
      /\ match acc' with
         | None => acc = None /\ valid = []
         | Some s => length s = n
         end.
Proof.
  intros Hall. induction Hall as [|p valid Hlen _ IH]; intros acc mr Hacc.
  - exists acc, mr. split; [reflexivity|]. destruct acc; auto.
  - cbn [fold_left]. rewrite accumulate_step.
    assert (Hsl : length (scale (probabilities p)
                                (weight_of weights (model p))) = n)
      by (unfold scale; rewrite length_map; exact Hlen).
    destruct acc as [s|].
    + destruct (vec_add_defined s (scale (probabilities p)
                                         (weight_of weights (model p))))
        as (c & Hc); [congruence|].
      rewrite Hc. destruct (vec_add_nth _ _ _ Hc) as (Hcl & _).
      destruct (IH (Some c) (dict_set (model p) (entry_of p) mr))
        as (acc' & mr' & Hf & Ha); [congruence|].
      exists acc', mr'. split; [exact Hf|].
      destruct acc'; [exact Ha | destruct Ha; discriminate].
    + destruct (IH (Some (scale (probabilities p)
                                (weight_of weights (model p))))
                   (dict_set (model p) (entry_of p) mr))
        as (acc' & mr' & Hf & Ha); [exact Hsl|].
      exists acc', mr'. split; [exact Hf|].
      destruct acc'; [exact Ha | destruct Ha; discriminate].
Qed.

(** When every valid prediction comes from one of the two channels and
    carries a score vector of one non-zero length, and the stored weights
    do not sum to zero, the call returns. *)
Lemma fusion_defined (self : t) (predictions : list Prediction) (n : nat) :
  (forall p, In p (filter success predictions) ->
             (model p = "i3d" \/ model p = "tgcn")
             /\ length (probabilities p) = S n) ->
  ~ sum (values (ensemble_weights self)) == 0 ->
  exists r self', _ensemble_predictions self predictions = Some (r, self').
Proof.
  intros Hall Hnz. unfold _ensemble_predictions.
  destruct (filter success predictions) as [|p [|q valid]] eqn:Hv.
  - eauto.
  - destruct (Hall p (or_introl eq_refl)) as (Hm & _).
    unfold bump_only. destruct Hm as [-> | ->]; simpl; eauto.
  - assert (Hlen : Forall (fun p => length (probabilities p) = S n)
                          (p :: q :: valid)).
    { apply Forall_forall. intros x Hx. apply (Hall x Hx). }
    destruct (loop_defined (ensemble_weights self) _ _ Hlen None [] I)
      as (acc' & mr' & Hf & Ha).
    rewrite Hf.
    destruct acc' as [s|]; [|destruct Ha as (_ & Ha); discriminate].
    destruct (Qeq_bool (sum (values (ensemble_weights self))) 0) eqn:E.
    { apply Qeq_bool_iff in E. contradiction. }
    destruct s as [|x s]; [simpl in Ha; discriminate|].
    cbn [map argmax]. eauto.
Qed.

(** *** The running statistics *)

Lemma inject_Z_succ (n : nat) :
  inject_Z (Z.of_nat n + 1) == inject_Z (Z.of_nat n) + 1.
Proof. rewrite inject_Z_plus. reflexivity. Qed.

Lemma inject_Z_succ_nonzero (n : nat) : ~ inject_Z (Z.of_nat n + 1) == 0.
Proof.
  intros E. unfold Qeq in E. simpl in E. lia.
Qed.

Lemma div_mul_cancel (x d : Q) : ~ d == 0 -> x / d * d == x.
Proof. intros H. field. exact H. Qed.

Lemma record_fusion_inv (s : Stats) (agreement : bool) (c : Q)
      (n : nat) (sc : Q) (na c1 c2 : nat) :
  stats_inv s n sc na c1 c2 ->
  stats_inv (record_fusion s agreement c) (S n) (sc + c)
            (na + if agreement then 1 else 0) c1 c2.
Proof.
  intros (Hn & Hc & Ha & H1 & H2). unfold stats_inv, record_fusion.
  cbn [ensemble_predictions average_confidence agreement_rate i3d_only
       tgcn_only].
  rewrite Hn.
  replace (Z.of_nat n + 1 - 1)%Z with (Z.of_nat n) by lia.
  replace (Z.of_nat (S n)) with (Z.of_nat n + 1)%Z by lia.
  pose proof (inject_Z_succ_nonzero n) as Hnz.
  repeat match goal with |- _ /\ _ => split end; try assumption.
  - reflexivity.
  - rewrite (div_mul_cancel _ _ Hnz), Hc. reflexivity.
  - rewrite (div_mul_cancel _ _ Hnz), Ha.
    destruct agreement.
    + replace (Z.of_nat (na + 1)) with (Z.of_nat na + 1)%Z by lia.
      rewrite inject_Z_plus. reflexivity.
    + rewrite Nat.add_0_r. ring.
Qed.

Lemma stats_inv_eq (s : Stats) (n : nat) (sc sc' : Q) (na c1 c2 : nat) :
  sc == sc' -> stats_inv s n sc na c1 c2 -> stats_inv s n sc' na c1 c2.
Proof.
  intros E (Hn & Hc & H). unfold stats_inv. rewrite <- E. auto.
Qed.

Lemma update_weights_stats (self self' : t) (w : list (string * Q)) :
  update_ensemble_weights self w = Some self' -> stats self' = stats self.
Proof.
  unfold update_ensemble_weights. destruct w as [|kv w].
  - intros H. injection H as <-. reflexivity.
  - destruct (Qeq_bool _ 0); [discriminate|].
    intros H. injection H as <-. reflexivity.
Qed.

Lemma run_stats_inv (ops : list Op) :
  forall (self : t) (n : nat) (sc : Q) (na c1 c2 : nat)
         (rs : list Result) (self' : t),
    stats_inv (stats self) n sc na c1 c2 ->
    run self ops = Some (rs, self') ->
    stats_inv (stats self')
              (n + length (fused_of rs))
              (sc + sum (map e_confidence (fused_of rs)))
              (na + agreements (fused_of rs))
              (c1 + singles_of "i3d" rs)
              (c2 + singles_of "tgcn" rs).
Proof.
  induction ops as [|op ops IH]; intros self n sc na c1 c2 rs self' Hinv Hrun.
  - simpl in Hrun. injection Hrun as <- <-.
    unfold singles_of, agreements. simpl. rewrite !Nat.add_0_r.
    apply stats_inv_eq with sc; [unfold sum; simpl; ring | exact Hinv].
  - destruct op as [ps|w]; simpl in Hrun.
    + destruct (_ensemble_predictions self ps) as [[r self1]|] eqn:Hf;
        [|discriminate].
      destruct (run self1 ops) as [[rs1 self2]|] eqn:Hr; [|discriminate].
      injection Hrun as <- <-.
      destruct (fusion_cases _ _ _ _ Hf) as (_ & _ & [H|[H|H]]).
      * destruct H as (_ & -> & ->).
        apply (IH _ _ _ _ _ _ _ _ Hinv Hr).
      * destruct H as (p & _ & -> & Hb & _).
        destruct (bump_only_cases _ _ _ Hb) as (E1 & E2 & E3 & Hm).
        destruct Hinv as (Hn & Hc & Ha & H1 & H2).
        unfold singles_of. cbn [filter fused_of flat_map app].
        fold (fused_of rs1).
        destruct Hm as [(Em & Ei & Et)|(Em & Ei & Et)]; rewrite Em;
          cbn [String.eqb Ascii.eqb Bool.eqb andb length];
          [ replace (c1 + S (length (filter _ rs1)))%nat
              with (S c1 + singles_of "i3d" rs1)%nat
              by (unfold singles_of; lia)
          | replace (c2 + S (length (filter _ rs1)))%nat
              with (S c2 + singles_of "tgcn" rs1)%nat
              by (unfold singles_of; lia) ];
          apply (IH self1 _ _ _ _ _ _ _ ) with (2 := Hr);
          unfold stats_inv; rewrite E1, E2, E3, Ei, Et;
          repeat match goal with |- _ /\ _ => split end;
          try assumption; lia.
      * destruct H as (e & ws & i & _ & -> & _ & _ & _ & _ & _ & _ & _ & _
                       & _ & Hs & _).
        cbn [fused_of flat_map app]. fold (fused_of rs1).
        cbn [map length].
        pose proof (record_fusion_inv _ (e_agreement e) (e_confidence e)
                      _ _ _ _ _ Hinv) as Hinv'.
        rewrite <- Hs in Hinv'.
        pose proof (IH _ _ _ _ _ _ _ _ Hinv' Hr) as Hfin.
        unfold singles_of in *. cbn [filter].
        unfold agreements in *. cbn [filter].
        replace (n + S (length (fused_of rs1)))%nat
          with (S n + length (fused_of rs1))%nat by lia.
        replace (na + length (if e_agreement e
                              then e :: filter e_agreement (fused_of rs1)
                              else filter e_agreement (fused_of rs1)))%nat
          with (na + (if e_agreement e then 1 else 0)
                + length (filter e_agreement (fused_of rs1)))%nat
          by (destruct (e_agreement e); simpl; lia).
        eapply stats_inv_eq; [|exact Hfin].
        rewrite sum_cons. ring.
    + destruct (update_ensemble_weights self w) as [self1|] eqn:Hu;
        [|discriminate].
      apply (IH self1 _ _ _ _ _ _ _) with (2 := Hrun).
      rewrite (update_weights_stats _ _ _ Hu). exact Hinv.
Qed.

(** C7 (as amended).  A two-model fusion adds one to
    [ensemble_predictions] and folds its confidence and its agreement flag
    into the two running means; a single-model result adds one to the
    counter of its channel and leaves the count and the two means as they
    were; a call on well-formed predictions returns.  Hence, after any
    trace of fusions and weight updates on a new translator, the count is
    the number of two-model fusions, the mean confidence is the arithmetic
    mean of their confidences, the agreement rate is the fraction of them
    that were in agreement, and the two channel counters count the
    single-model results of their channel. *)
Theorem C7_running_statistics :
  (forall (self : t) (predictions : list Prediction) (e : Ensemble)
          (self' : t),
      _ensemble_predictions self predictions = Some (Fused e, self') ->
      let n := ensemble_predictions (stats self') in
      n = (ensemble_predictions (stats self) + 1)%Z
      /\ average_confidence (stats self')
         = (average_confidence (stats self) * inject_Z (n - 1)
            + e_confidence e) / inject_Z n
      /\ agreement_rate (stats self')
         = (agreement_rate (stats self) * inject_Z (n - 1)
            + (if e_agreement e then 1 else 0)) / inject_Z n
      /\ i3d_only (stats self') = i3d_only (stats self)
      /\ tgcn_only (stats self') = tgcn_only (stats self))
  /\
  (forall (self : t) (predictions : list Prediction) (p : Prediction)
          (method : string) (models_used : list string) (self' : t),
      _ensemble_predictions self predictions
      = Some (Single p method models_used, self') ->
      ensemble_predictions (stats self') = ensemble_predictions (stats self)
      /\ average_confidence (stats self') = average_confidence (stats self)
      /\ agreement_rate (stats self') = agreement_rate (stats self)
      /\ ((model p = "i3d"
           /\ i3d_only (stats self') = (i3d_only (stats self) + 1)%Z
           /\ tgcn_only (stats self') = tgcn_only (stats self))
          \/ (model p = "tgcn"
              /\ i3d_only (stats self') = i3d_only (stats self)
              /\ tgcn_only (stats self') = (tgcn_only (stats self) + 1)%Z)))
  /\
  (forall (self : t) (predictions : list Prediction) (n : nat),
      (forall p, In p (filter success predictions) ->
                 (model p = "i3d" \/ model p = "tgcn")
                 /\ length (probabilities p) = S n) ->
      ~ sum (values (ensemble_weights self)) == 0 ->
      exists r self',
        _ensemble_predictions self predictions = Some (r, self'))
  /\
  (forall (vocab : VocabularyManager) (weights : option (list (string * Q)))
          (ops : list Op) (rs : list Result) (self' : t),
      run (__init__ vocab weights) ops = Some (rs, self') ->
      let fused := fused_of rs in
      let s := stats self' in
      ensemble_predictions s = Z.of_nat (length fused)
      /\ (fused <> [] ->
          average_confidence s == sum (map e_confidence fused) / len fused)
      /\ (fused <> [] ->
          agreement_rate s
          == inject_Z (Z.of_nat (agreements fused)) / len fused)
      /\ i3d_only s = Z.of_nat (singles_of "i3d" rs)
      /\ tgcn_only s = Z.of_nat (singles_of "tgcn" rs)).
Proof.
  refine (conj _ (conj _ (conj fusion_defined _))).
  - intros self predictions e self' Hf. cbv zeta.
    destruct (fusion_cases _ _ _ _ Hf) as (_ & _ & [H|[H|H]]).
    + destruct H as (_ & H & _). discriminate H.
    + destruct H as (p & _ & H & _). discriminate H.
    + destruct H as (e' & ws & i & _ & He & _ & _ & _ & _ & _ & _ & _ & _
                     & _ & Hs & _).
      injection He as <-. rewrite Hs. unfold record_fusion.
      cbn [ensemble_predictions average_confidence agreement_rate
           i3d_only tgcn_only].
      auto 6.
  - intros self predictions p method models_used self' Hf.
    destruct (fusion_cases _ _ _ _ Hf) as (_ & _ & [H|[H|H]]).
    + destruct H as (_ & H & _). discriminate H.
    + destruct H as (p' & _ & He & Hb & _). injection He as <- _ _.
      destruct (bump_only_cases _ _ _ Hb) as (E1 & E2 & E3 & Hm).
      auto.
    + destruct H as (e' & ws & i & _ & He & _). discriminate He.
  - intros vocab weights ops rs self' Hrun. cbv zeta.
    assert (Hinit : stats_inv (stats (__init__ vocab weights)) 0 0 0 0 0).
    { unfold stats_inv. simpl. repeat split; try reflexivity; ring. }
    pose proof (run_stats_inv ops _ _ _ _ _ _ _ _ Hinit Hrun) as H.
    simpl in H. destruct H as (Hn & Hc & Ha & H1 & H2).
    repeat match goal with |- _ /\ _ => split end; try assumption.
    + intros Hne.
      assert (Hnz : ~ len (fused_of rs) == 0).
      { unfold len, Qeq. simpl.
        destruct (fused_of rs); [congruence|]. simpl. lia. }
      assert (E : sum (map e_confidence (fused_of rs))
                  == average_confidence (stats self') * len (fused_of rs))
        by (unfold len; rewrite Hc; ring).
      rewrite E. field. exact Hnz.
    + intros Hne.
      assert (Hnz : ~ len (fused_of rs) == 0).
      { unfold len, Qeq. simpl.
        destruct (fused_of rs); [congruence|]. simpl. lia. }
      assert (E : inject_Z (Z.of_nat (agreements (fused_of rs)))
                  == agreement_rate (stats self') * len (fused_of rs))
        by (unfold len; rewrite Ha; ring).
      rewrite E. field. exact Hnz.
Qed.

(** *** Agreement and the fused top-1 *)

Lemma fused_agreement_iff (self : t) (predictions : list Prediction)
      (e : Ensemble) (self' : t) :
  _ensemble_predictions self predictions = Some (Fused e, self') ->
  (e_agreement e = true <->
   forall m1 m2,
     In m1 (values (e_model_results e)) ->
     In m2 (values (e_model_results e)) ->
     mr_prediction m1 = mr_prediction m2).
Proof.
  intros Hf.
  destruct (fusion_cases _ _ _ _ Hf) as (_ & _ & [H|[H|H]]).
  - destruct H as (_ & H & _). discriminate H.
  - destruct H as (p & _ & H & _). discriminate H.
  - destruct H as (e' & ws & i & Hlen & He & Hfold & _ & _ & _ & _ & _ & Ha
                   & _).
    injection He as <-. rewrite Ha, agree_iff.
    assert (Hne : e_model_results e <> []).
    { apply (loop_nonempty _ _ _ _ _ _ Hfold). left.
      destruct (filter success predictions); [simpl in Hlen; lia|].
      discriminate. }
    split.
    + intros (_ & Hall) m1 m2 H1 H2.
      apply Hall; apply in_map; assumption.
    + intros Hall. split.
      * unfold values. destruct (e_model_results e); [congruence|].
        discriminate.
      * intros a b Ha' Hb'.
        apply in_map_iff in Ha'. destruct Ha' as (m1 & <- & H1).
        apply in_map_iff in Hb'. destruct Hb' as (m2 & <- & H2).
        apply Hall; assumption.
Qed.

Lemma two_channel_results (self : t) (p1 p2 : Prediction)
      (e : Ensemble) (self' : t) :
  success p1 = true -> success p2 = true -> model p1 <> model p2 ->
  _ensemble_predictions self [p1; p2] = Some (Fused e, self') ->
  e_model_results e = [(model p1, entry_of p1); (model p2, entry_of p2)].
Proof.
  intros H1 H2 Hm Hf.
  destruct (fusion_cases _ _ _ _ Hf) as (_ & _ & [H|[H|H]]).
  - destruct H as (_ & H & _). discriminate H.
  - destruct H as (p & _ & H & _). discriminate H.
  - destruct H as (e' & ws & i & _ & He & Hfold & _).
    injection He as <-. simpl in Hfold. rewrite H1, H2 in Hfold.
    cbn [fold_left] in Hfold. rewrite !accumulate_step in Hfold.
    destruct (vec_add _ _) as [c|]; [|discriminate].
    injection Hfold as _ <-. simpl.
    destruct (String.eqb_spec (model p2) (model p1)) as [E|_];
      [congruence|reflexivity].
Qed.

(** *** Scores under rounding *)

Lemma first_max_max_at (X : nat) (l : list Q) : first_max X l -> max_at X l.
Proof. intros (H1 & H2 & _). split; assumption. Qed.

Lemma max_at_map (f : Q -> Q) (X : nat) (l : list Q) :
  (forall x y, x <= y -> f x <= f y) ->
  max_at X l -> max_at X (map f l).
Proof.
  intros Hf (HX & Hmax). split; [rewrite length_map; exact HX|].
  intros j Hj. rewrite length_map in Hj.
  rewrite !(nth_indep (map f l) 0 (f 0)) by (rewrite length_map; assumption).
  rewrite !map_nth. apply Hf, Hmax, Hj.
Qed.

Lemma vec_add_fl_nth (rnd : Q -> Q) (a : list Q) : forall b c,
  vec_add_fl rnd a b = Some c ->
  length c = length a
  /\ length b = length a
  /\ forall j, (j < length a)%nat ->
               nth j c 0 = rnd (nth j a 0 + nth j b 0).
Proof.
  induction a as [|x a IH]; intros [|y b] c H; simpl in H;
    try discriminate H.
  - injection H as <-. simpl. repeat split. intros j Hj. lia.
  - destruct (vec_add_fl rnd a b) as [c'|] eqn:E; [|discriminate H].
    injection H as <-. destruct (IH b c' E) as (H1 & H2 & H3).
    simpl. repeat split; try congruence.
    intros [|j] Hj; [reflexivity|]. apply H3. lia.
Qed.

Lemma vec_add_fl_defined (rnd : Q -> Q) (a : list Q) : forall b,
  length b = length a -> exists c, vec_add_fl rnd a b = Some c.
Proof.
  induction a as [|x a IH]; intros [|y b] H; simpl in H; try discriminate H.
  - exists []. reflexivity.
  - injection H as H. destruct (IH b H) as (c & E).
    exists (rnd (x + y) :: c). simpl. rewrite E. reflexivity.
Qed.

Lemma vec_add_fl_exact (a : list Q) : forall b,
  vec_add_fl (fun x => x) a b = vec_add a b.
Proof.
  induction a as [|x a IH]; intros [|y b]; simpl;
    rewrite ?IH; reflexivity.
Qed.

Section Monotone.

Variable rnd : Q -> Q.
Hypothesis rnd_monotone : forall x y, x <= y -> rnd x <= rnd y.

Lemma max_at_scale (X : nat) (probs : list Q) (weight : Q) :
  0 <= weight -> max_at X probs -> max_at X (scale_fl rnd probs weight).
Proof.
  intros Hw. unfold scale_fl.
  apply (max_at_map (fun p => rnd (p * weight))).
  intros x y Hxy. apply rnd_monotone, Qmult_le_compat_r; assumption.
Qed.

Lemma max_at_add (X : nat) (a b c : list Q) :
  max_at X a -> max_at X b -> vec_add_fl rnd a b = Some c -> max_at X c.
Proof.
  intros (Ha & Hamax) (Hb & Hbmax) Hc.
  destruct (vec_add_fl_nth rnd a b c Hc) as (Hl & Hl2 & Hn).
  split; [rewrite Hl; exact Ha|].
  intros j Hj. rewrite Hl in Hj.
  rewrite (Hn j Hj), (Hn X Ha).
  apply rnd_monotone, Qplus_le_compat.
  - apply Hamax, Hj.
  - apply Hbmax. rewrite Hl2. exact Hj.
Qed.

Lemma max_at_div (X : nat) (l : list Q) (total : Q) :
  0 < total -> max_at X l -> max_at X (map (fun x => rnd (x / total)) l).
Proof.
  intros Ht. apply (max_at_map (fun x => rnd (x / total))).
  intros x y Hxy. apply rnd_monotone. unfold Qdiv.
  apply Qmult_le_compat_r; [exact Hxy|].
  apply Qlt_le_weak, Qinv_lt_0_compat, Ht.
Qed.

(** When the arg-max of every valid score vector is [X], index [X]
    holds the maximum of the rounded weighted sum. *)
Lemma loop_max_at (weights : list (string * Q)) (X n : nat)
      (valid : list Prediction) :
  (forall m, 0 <= weight_of weights m) ->
  Forall (fun p => max_at X (probabilities p)
                   /\ length (probabilities p) = n) valid ->
  forall acc : option (list Q),
    match acc with
    | None => True
    | Some s => max_at X s /\ length s = n
    end ->
    exists acc',
      fold_left (accumulate_fl rnd weights) valid (Some acc) = Some acc'
      /\ match acc' with
         | None => acc = None /\ valid = []
         | Some s => max_at X s /\ length s = n
         end.
Proof.
  intros Hw Hall. induction Hall as [|p valid (Hm & Hlen) _ IH];
    intros acc Hacc.
  - exists acc. split; [reflexivity|]. destruct acc; auto.
  - cbn [fold_left]. unfold accumulate_fl at 2.
    pose proof (max_at_scale X _ _ (Hw (model p)) Hm) as Hs.
    assert (Hsl : length (scale_fl rnd (probabilities p)
                                   (weight_of weights (model p))) = n)
      by (unfold scale_fl; rewrite length_map; exact Hlen).
    destruct acc as [s|].
    + destruct Hacc as (Hfs & Hls).
      destruct (vec_add_fl_defined rnd s
                  (scale_fl rnd (probabilities p)
                            (weight_of weights (model p))))
        as (c & Hc); [congruence|].
      rewrite Hc.
      destruct (IH (Some c)) as (acc' & E & H).
      * split; [apply (max_at_add X _ _ _ Hfs Hs Hc)|].
        destruct (vec_add_fl_nth rnd _ _ _ Hc) as (Hl & _). congruence.
      * exists acc'. split; [exact E|].
        destruct acc' as [s'|]; [exact H|].
        destruct H as (H & _). discriminate H.
    + destruct (IH (Some (scale_fl rnd (probabilities p)
                                   (weight_of weights (model p)))))
        as (acc' & E & H); [split; assumption|].
      exists acc'. split; [exact E|].
      destruct acc' as [s'|]; [exact H|].
      destruct H as (H & _). discriminate H.
Qed.

End Monotone.

Lemma max_at_argmax (X : nat) (l : list Q) :
  max_at X l ->
  exists i,
    argmax l = Some i
    /\ (i <= X)%nat
    /\ nth i l 0 == nth X l 0
    /\ forall j, (j < i)%nat -> nth j l 0 < nth X l 0.
Proof.
  intros (HX & Hmax).
  destruct (argmax l) as [i|] eqn:E;
    [|destruct l; [simpl in HX; lia|discriminate E]].
  destruct (argmax_first_max _ _ E) as (Hi & Himax & Hifirst).
  assert (Heq : nth i l 0 == nth X l 0).
  { apply Qle_antisym; [apply Hmax, Hi | apply Himax, HX]. }
  exists i. refine (conj eq_refl (conj _ (conj Heq _))).
  - destruct (Nat.le_gt_cases i X) as [H|H]; [exact H|].
    exfalso. specialize (Hifirst X H). rewrite Heq in Hifirst.
    apply (Qlt_irrefl _ Hifirst).
  - intros j Hj. rewrite <- Heq. apply Hifirst, Hj.
Qed.

Lemma accumulate_none (weights : list (string * Q))
      (valid : list Prediction) :
  fold_left (accumulate weights) valid None = None.
Proof. induction valid as [|p valid IH]; [reflexivity|exact IH]. Qed.

(** The scores of [_ensemble_predictions] are those of the loop without
    rounding. *)
Lemma loop_exact (weights : list (string * Q)) (valid : list Prediction) :
  forall (acc : option (list Q)) (mr : list (string * ModelResult))
         (acc' : option (list Q)) (mr' : list (string * ModelResult)),
    fold_left (accumulate weights) valid (Some (acc, mr)) = Some (acc', mr') ->
    fold_left (accumulate_fl (fun x => x) weights) valid (Some acc)
    = Some acc'.
Proof.
  induction valid as [|p valid IH]; intros acc mr acc' mr' H.
  - simpl in H. injection H as <- _. reflexivity.
  - cbn [fold_left] in *. rewrite accumulate_step in H.
    unfold accumulate_fl at 2. destruct acc as [s|].
    + rewrite vec_add_fl_exact.
      change (scale_fl (fun x => x) (probabilities p)
                       (weight_of weights (model p)))
        with (scale (probabilities p) (weight_of weights (model p))).
      destruct (vec_add s (scale (probabilities p)
                                 (weight_of weights (model p)))) as [c|].
      * apply (IH _ _ _ _ H).
      * rewrite accumulate_none in H. discriminate H.
    + apply (IH _ _ _ _ H).
Qed.

Lemma scores_exact (self : t) (predictions : list Prediction)
      (e : Ensemble) (self' : t) :
  _ensemble_predictions self predictions = Some (Fused e, self') ->
  fused_scores_fl (fun x => x) (ensemble_weights self)
                  (filter success predictions)
  = Some (e_probabilities e)
  /\ argmax (e_probabilities e) = Some (Z.to_nat (e_prediction e)).
Proof.
  intros Hf.
  destruct (fusion_cases _ _ _ _ Hf) as (_ & _ & [H|[H|H]]).
  - destruct H as (_ & H & _). discriminate H.
  - destruct H as (p & _ & H & _). discriminate H.
  - destruct H as (e' & ws & i & _ & He & Hfold & Hnz & Hp & Ha & Hi & _).
    injection He as <-. split.
    + unfold fused_scores_fl. rewrite (loop_exact _ _ _ _ _ _ Hfold).
      change (sum_fl (fun x => x) (values (ensemble_weights self)))
        with (sum (values (ensemble_weights self))).
      destruct (Qeq_bool (sum (values (ensemble_weights self))) 0) eqn:Eq.
      * apply Qeq_bool_iff in Eq. contradiction.
      * rewrite Hp. reflexivity.
    + rewrite Hi, Nat2Z.id. exact Ha.
Qed.

(** C2 (as amended).  When the stored weights are positive, at least two
    predictions are valid, every one of them carries the same label, that
    label is the arg-max of its score vector and the score vectors have
    one length, the call returns a fused result in agreement.  No label
    has a higher fused score than the agreed one, whatever monotone
    rounding follows each product, sum and quotient: the fused top-1 is
    the first label whose fused score equals that of the agreed label,
    the agreed label itself unless the score of an earlier label comes
    out equal to it.  The scores and the top-1 of the result are those
    of the loop without rounding.  In general the agreement flag of a
    fused result is true exactly when the individual top-1 labels
    recorded in [model_results] are all the same; for two channels,
    exactly when the two labels are equal. *)
Theorem C2_agreement_and_fused_top1 :
  (forall (self : t) (predictions : list Prediction) (X n : nat),
      weights_positive (ensemble_weights self) ->
      (2 <= length (filter success predictions))%nat ->
      (forall p, In p (filter success predictions) ->
                 prediction p = Z.of_nat X
                 /\ argmax (probabilities p) = Some X
                 /\ length (probabilities p) = n) ->
      exists e self',
        _ensemble_predictions self predictions = Some (Fused e, self')
        /\ e_agreement e = true)
  /\
  (forall (rnd : Q -> Q) (self : t) (predictions : list Prediction)
          (X n : nat),
      (forall x y, x <= y -> rnd x <= rnd y) ->
      weights_positive (ensemble_weights self) ->
      0 < sum_fl rnd (values (ensemble_weights self)) ->
      (2 <= length (filter success predictions))%nat ->
      (forall p, In p (filter success predictions) ->
                 prediction p = Z.of_nat X
                 /\ argmax (probabilities p) = Some X
                 /\ length (probabilities p) = n) ->
      exists scores i,
        fused_scores_fl rnd (ensemble_weights self)
                        (filter success predictions)
        = Some scores
        /\ argmax scores = Some i
        /\ max_at X scores
        /\ (i <= X)%nat
        /\ nth i scores 0 == nth X scores 0
        /\ forall j, (j < i)%nat -> nth j scores 0 < nth X scores 0)
  /\
  (forall (self : t) (predictions : list Prediction) (e : Ensemble)
          (self' : t),
      _ensemble_predictions self predictions = Some (Fused e, self') ->
      fused_scores_fl (fun x => x) (ensemble_weights self)
                      (filter success predictions)
      = Some (e_probabilities e)
      /\ argmax (e_probabilities e) = Some (Z.to_nat (e_prediction e)))
  /\
  (forall (self : t) (predictions : list Prediction) (e : Ensemble)
          (self' : t),
      _ensemble_predictions self predictions = Some (Fused e, self') ->
      (e_agreement e = true <->
       forall m1 m2,
         In m1 (values (e_model_results e)) ->
         In m2 (values (e_model_results e)) ->
         mr_prediction m1 = mr_prediction m2))
  /\
  (forall (self : t) (p1 p2 : Prediction) (e : Ensemble) (self' : t),
      success p1 = true -> success p2 = true -> model p1 <> model p2 ->
      _ensemble_predictions self [p1; p2] = Some (Fused e, self') ->
      e_model_results e = [(model p1, entry_of p1); (model p2, entry_of p2)]
      /\ (e_agreement e = true <-> prediction p1 = prediction p2)).
Proof.
  refine (conj _ (conj _ (conj scores_exact (conj fused_agreement_iff _)))).
  - intros self predictions X n Hw Hlen Hall.
    assert (Hall' : Forall (fun p => prediction p = Z.of_nat X
                                     /\ first_max X (probabilities p)
                                     /\ length (probabilities p) = n)
                           (filter success predictions)).
    { apply Forall_forall. intros p Hp.
      destruct (Hall p Hp) as (H1 & H2 & H3).
      auto using argmax_first_max. }
    destruct (loop_agreeing _ _ _ _ _ Hw Hall' None [] I (Forall_nil _))
      as (acc' & mr' & Hfold & Hacc & Hmr & Hne).
    unfold _ensemble_predictions.
    destruct (filter success predictions) as [|p [|q valid]] eqn:Hv;
      [simpl in Hlen; lia | simpl in Hlen; lia |].
    rewrite Hfold.
    destruct acc' as [s|]; [|destruct Hacc as (_ & Hacc); discriminate].
    destruct Hacc as (Hfm & _).
    pose proof (total_pos _ Hw) as Ht.
    destruct (Qeq_bool (sum (values (ensemble_weights self))) 0) eqn:Eq.
    { apply Qeq_bool_iff in Eq. rewrite Eq in Ht.
      exfalso. apply (Qlt_irrefl 0 Ht). }
    rewrite (first_max_argmax _ _ (first_max_div _ _ _ Ht Hfm)).
    eexists. eexists. split; [reflexivity|]. cbn [e_agreement].
    apply agree_iff. split.
    + specialize (Hne ltac:(discriminate)).
      unfold values. destruct mr'; [congruence|discriminate].
    + rewrite Forall_forall in Hmr. intros a b Ha Hb.
      apply in_map_iff in Ha. destruct Ha as (m1 & <- & H1).
      apply in_map_iff in Hb. destruct Hb as (m2 & <- & H2).
      unfold values in H1, H2.
      apply in_map_iff in H1. destruct H1 as (kv1 & <- & H1).
      apply in_map_iff in H2. destruct H2 as (kv2 & <- & H2).
      rewrite (Hmr _ H1), (Hmr _ H2). reflexivity.
  - intros rnd self predictions X n Hmono Hw Ht Hlen Hall.
    assert (Hall' : Forall (fun p => max_at X (probabilities p)
                                     /\ length (probabilities p) = n)
                           (filter success predictions)).
    { apply Forall_forall. intros p Hp.
      destruct (Hall p Hp) as (_ & H2 & H3).
      split; [|exact H3]. apply first_max_max_at, argmax_first_max, H2. }
    assert (Hwn : forall m, 0 <= weight_of (ensemble_weights self) m)
      by (intros m; apply Qlt_le_weak, weight_of_pos, Hw).
    destruct (loop_max_at rnd Hmono _ X n _ Hwn Hall' None I)
      as (acc' & Hfold & Hacc).
    unfold fused_scores_fl. rewrite Hfold.
    destruct acc' as [s|].
    + destruct Hacc as (Hs & _).
      destruct (Qeq_bool (sum_fl rnd (values (ensemble_weights self))) 0)
        eqn:Eq.
      { apply Qeq_bool_iff in Eq. rewrite Eq in Ht.
        exfalso. apply (Qlt_irrefl 0 Ht). }
      pose proof (max_at_div rnd Hmono X s _ Ht Hs) as Hd.
      destruct (max_at_argmax X _ Hd) as (i & Ha & Hi & Heq & Hfirst).
      eexists. exists i. split; [reflexivity|].
      refine (conj Ha (conj Hd (conj Hi (conj Heq Hfirst)))).
    + destruct Hacc as (_ & Hv). rewrite Hv in Hlen. simpl in Hlen. lia.
  - intros self p1 p2 e self' H1 H2 Hm Hf.
    pose proof (two_channel_results _ _ _ _ _ H1 H2 Hm Hf) as Hr.
    split; [exact Hr|].
    rewrite (fused_agreement_iff _ _ _ _ Hf), Hr. simpl. split.
    + intros H. apply (H (entry_of p1) (entry_of p2)); auto.
    + intros E m1 m2 [<-|[<-|[]]] [<-|[<-|[]]]; simpl; congruence.
Qed.

(** *** The weights *)

Lemma sum_map_div (l : list Q) (d : Q) :
  sum (map (fun x => x / d) l) == sum l / d.
Proof.
  induction l as [|x l IH]; simpl.
  - unfold sum. simpl. unfold Qdiv. ring.
  - rewrite !sum_cons, IH. unfold Qdiv. ring.
Qed.

Lemma values_map_div (w : list (string * Q)) (d : Q) :
  values (map (fun kv => (fst kv, snd kv / d)) w)
  = map (fun x => x / d) (values w).
Proof.
  unfold values. rewrite !map_map. reflexivity.
Qed.

Lemma update_weights_normalized (self self' : t) (w : list (string * Q)) :
  w <> [] ->
  update_ensemble_weights self w = Some self' ->
  ensemble_weights self'
  = map (fun kv => (fst kv, snd kv / sum (values w))) w
  /\ sum (values (ensemble_weights self')) == 1.
Proof.
  intros Hne. unfold update_ensemble_weights.
  destruct w as [|kv w]; [congruence|].
  remember (kv :: w) as w0 eqn:Hw0.
  destruct (Qeq_bool (sum (values w0)) 0) eqn:E; [discriminate|].
  intros H.
  assert (Hs : ensemble_weights self'
               = map (fun kv => (fst kv, snd kv / sum (values w0))) w0)
    by (injection H as <-; reflexivity).
  split; [exact Hs|].
  rewrite Hs, values_map_div, sum_map_div.
  field. intros E0. apply Qeq_bool_iff in E0. congruence.
Qed.

Lemma update_weights_defined (self : t) (w : list (string * Q)) :
  ~ sum (values w) == 0 ->
  exists self', update_ensemble_weights self w = Some self'.
Proof.
  intros H. unfold update_ensemble_weights. destruct w as [|kv w]; [eauto|].
  destruct (Qeq_bool (sum (values (kv :: w))) 0) eqn:E; [|eauto].
  apply Qeq_bool_iff in E. contradiction.
Qed.

Lemma scale_nth (l : list Q) (w : Q) (j : nat) :
  (j < length l)%nat -> nth j (scale l w) 0 = nth j l 0 * w.
Proof.
  intros H. unfold scale.
  rewrite (nth_indep _ 0 ((fun p => p * w) 0)) by (rewrite length_map; lia).
  apply (map_nth (fun p => p * w)).
Qed.

(** What the two-model branch computes from the stored weights. *)
Lemma fused_probabilities (self : t) (p1 p2 : Prediction)
      (e : Ensemble) (self' : t) :
  success p1 = true -> success p2 = true ->
  _ensemble_predictions self [p1; p2] = Some (Fused e, self') ->
  let weights := ensemble_weights self in
  let total := sum (values weights) in
  ~ total == 0
  /\ length (e_probabilities e) = length (probabilities p1)
  /\ length (probabilities p2) = length (probabilities p1)
  /\ forall j, (j < length (probabilities p1))%nat ->
               nth j (e_probabilities e) 0
               = (nth j (probabilities p1) 0 * weight_of weights (model p1)
                  + nth j (probabilities p2) 0 * weight_of weights (model p2))
                 / total.
Proof.
  intros H1 H2 Hf. cbv zeta.
  destruct (fusion_cases _ _ _ _ Hf) as (_ & _ & [H|[H|H]]).
  - destruct H as (_ & H & _). discriminate H.
  - destruct H as (p & _ & H & _). discriminate H.
  - destruct H as (e' & ws & i & _ & He & Hfold & Hnz & Hp & _).
    injection He as <-. simpl in Hfold. rewrite H1, H2 in Hfold.
    cbn [fold_left] in Hfold. rewrite !accumulate_step in Hfold.
    destruct (vec_add _ _) as [c|] eqn:Hc; [|discriminate].
    injection Hfold as <- _.
    destruct (vec_add_nth _ _ _ Hc) as (Hl & Hl2 & Hn).
    unfold scale in Hl, Hl2. repeat rewrite length_map in Hl.
    repeat rewrite length_map in Hl2.
    split; [exact Hnz|]. rewrite Hp, length_map.
    split; [exact Hl|]. split; [exact Hl2|].
    intros j Hj.
    rewrite (nth_indep _ 0 ((fun x => x / sum (values (ensemble_weights self)))
                              0)) by (rewrite length_map; lia).
    rewrite (map_nth (fun x => x / sum (values (ensemble_weights self)))).
    rewrite Hn by (unfold scale; rewrite length_map; exact Hj).
    rewrite !scale_nth by lia. reflexivity.
Qed.


End EnsembleTranslatorFacts.

(** *** Instances for the ensemble translator *)

Lemma C2_agreement_and_fused_top1_witness :
  exists e self',
    EnsembleTranslator._ensemble_predictions
      (EnsembleTranslator.__init__ vocab0 None) [pred_i3d; pred_tgcn]
    = Some (EnsembleTranslator.Fused e, self')
    /\ EnsembleTranslator.e_agreement e = true.
Proof.
  apply (proj1 C2_agreement_and_fused_top1
               (EnsembleTranslator.__init__ vocab0 None)
               [pred_i3d; pred_tgcn] 0%nat 2%nat).
  - split; [discriminate|]. repeat constructor.
  - simpl. lia.
  - simpl. intros p [<-|[<-|[]]]; repeat split; reflexivity.
Defined.

(** The scenario of two channels that disagree: the first is sure of
    label 0, the second prefers label 1; with the default weights the
    fused top-1 is label 0 and the agreement flag is false. *)
Example fusion_disagreement :
  match EnsembleTranslator._ensemble_predictions
          (EnsembleTranslator.__init__ vocab0 None)
          [pred_i3d; pred_tgcn_other] with
  | Some (EnsembleTranslator.Fused e, _) =>
      EnsembleTranslator.e_prediction e = 0%Z
      /\ EnsembleTranslator.e_agreement e = false
      /\ EnsembleTranslator.e_confidence e == 7 # 10
  | _ => False
  end.
Proof.
  vm_compute. repeat split.
Qed.



Lemma C6_single_channel_passthrough_witness :
  exists self',
    EnsembleTranslator._ensemble_predictions
      (EnsembleTranslator.__init__ vocab0 None) [pred_i3d; pred_failed]
    = Some (EnsembleTranslator.Single pred_i3d "ensemble_single" ["i3d"],
            self')
    /\ EnsembleTranslator.i3d_only (EnsembleTranslator.stats self') = 1%Z.
Proof.
  destruct (C6_single_channel_passthrough
              (EnsembleTranslator.__init__ vocab0 None)
              [pred_i3d; pred_failed] pred_i3d)
    as (self' & Hr & Hi & _).
  - reflexivity.
  - left. reflexivity.
  - exists self'. split; [exact Hr|]. apply Hi. reflexivity.
Defined.

Lemma C7_running_statistics_witness :
  match EnsembleTranslator.run
          (EnsembleTranslator.__init__ vocab0 None) trace0 with
  | Some (rs, self') =>
      EnsembleTranslator.ensemble_predictions (EnsembleTranslator.stats self')
      = 2%Z
      /\ EnsembleTranslator.average_confidence (EnsembleTranslator.stats self')
         == sum (map EnsembleTranslator.e_confidence
                     (EnsembleTranslator.fused_of rs))
            / len (EnsembleTranslator.fused_of rs)
  | None => False
  end.
Proof.
  destruct (EnsembleTranslator.run
              (EnsembleTranslator.__init__ vocab0 None) trace0)
    as [[rs self']|] eqn:E.
  - destruct (proj2 (proj2 (proj2 C7_running_statistics)) _ _ _ _ _ E)
      as (Hn & Hc & _).
    vm_compute in E. injection E as <- _.
    split; [exact Hn|]. apply Hc. discriminate.
  - vm_compute in E. discriminate E.
Defined.

Example trace0_statistics :
  match EnsembleTranslator.run
          (EnsembleTranslator.__init__ vocab0 None) trace0 with
  | Some (_, self') =>
      let s := EnsembleTranslator.stats self' in
      EnsembleTranslator.ensemble_predictions s = 2%Z
      /\ EnsembleTranslator.i3d_only s = 2%Z
      /\ EnsembleTranslator.tgcn_only s = 0%Z
      /\ EnsembleTranslator.agreement_rate s == 1 # 2
      /\ EnsembleTranslator.average_confidence s == ((92 # 100) + (7 # 10)) / 2
  | None => False
  end.
Proof.
  vm_compute. repeat split.
Qed.

(** C2, as stated, fails when a stored weight is negative: after
    [update_ensemble_weights] with the weights 11 and -10 (which it
    normalizes to themselves, their sum being 1), two channels that both
    report label 0, with confidences 0.9 and 0.99, are fused into label 1;
    the agreement flag is true. *)
Lemma C2_negative_weight_changes_top1 :
  let p1 := EnsembleTranslator.mkPrediction
              true "i3d" 0 (9 # 10) [9 # 10; 1 # 10] [0; 1]%Z
              [9 # 10; 1 # 10] in
  let p2 := EnsembleTranslator.mkPrediction
              true "tgcn" 0 (99 # 100) [99 # 100; 1 # 100] [0; 1]%Z
              [99 # 100; 1 # 100] in
  argmax (EnsembleTranslator.probabilities p1) = Some 0%nat
  /\ argmax (EnsembleTranslator.probabilities p2) = Some 0%nat
  /\ match EnsembleTranslator.update_ensemble_weights
             (EnsembleTranslator.__init__ vocab0 None)
             [("i3d", 11); ("tgcn", -10 # 1)] with
     | Some self =>
         match EnsembleTranslator._ensemble_predictions self [p1; p2] with
         | Some (EnsembleTranslator.Fused e, _) =>
             EnsembleTranslator.e_agreement e = true
             /\ EnsembleTranslator.e_prediction e = 1%Z
         | _ => False
         end
     | None => False
     end.
Proof.
  vm_compute. repeat split.
Qed.

Lemma round_tenths_monotone (x y : Q) :
  x <= y -> round_tenths x <= round_tenths y.
Proof.
  intros H. unfold round_tenths.
  assert (H10 : x * 10 <= y * 10) by lra.
  pose proof (Qfloor_resp_le _ _ H10) as Hf.
  unfold Qle. cbn [Qnum Qden]. lia.
Qed.

(** Rounding can make an earlier label reach the score of the agreed
    one: with the default weights and every product, sum and quotient
    rounded down to a multiple of 1/10, two channels whose arg-max is
    label 1 (scores 0.44 and 0.46) are fused into equal scores, of which
    the arg-max is label 0. *)
Example rounding_can_move_top1 :
  let p1 := EnsembleTranslator.mkPrediction
              true "i3d" 1 (46 # 100) [44 # 100; 46 # 100] [1; 0]%Z
              [46 # 100; 44 # 100] in
  let p2 := EnsembleTranslator.mkPrediction
              true "tgcn" 1 (46 # 100) [44 # 100; 46 # 100] [1; 0]%Z
              [46 # 100; 44 # 100] in
  argmax (EnsembleTranslator.probabilities p1) = Some 1%nat
  /\ argmax (EnsembleTranslator.probabilities p2) = Some 1%nat
  /\ match EnsembleTranslator.fused_scores_fl
             round_tenths EnsembleTranslator.default_weights [p1; p2] with
     | Some scores =>
         argmax scores = Some 0%nat
         /\ nth 0 scores 0 == nth 1 scores 0
     | None => False
     end.
Proof.
  vm_compute. repeat split.
Qed.

(** C7, as stated, fails for a single-model result, which is a fusion
    too: the call returns the copy of the only valid prediction and the
    count of predictions stays as it was. *)
Lemma C7_single_result_not_counted :
  let self := EnsembleTranslator.__init__ vocab0 None in
  match EnsembleTranslator._ensemble_predictions
          self [pred_i3d; pred_failed] with
  | Some (EnsembleTranslator.Single p _ _, self') =>
      p = pred_i3d
      /\ EnsembleTranslator.ensemble_predictions
           (EnsembleTranslator.stats self')
         = EnsembleTranslator.ensemble_predictions
             (EnsembleTranslator.stats self)
      /\ EnsembleTranslator.i3d_only (EnsembleTranslator.stats self') = 1%Z
  | _ => False
  end.
Proof.
  vm_compute. repeat split.
Qed.

(** * Further properties *)

(** ** The mode arbitrator: window, override, report *)

Section ModeManagerMore.

Import ModeManager.

Lemma lastn_all {A} (n : nat) (l : list A) :
  (length l <= n)%nat -> lastn n l = l.
Proof.
  intros H. unfold lastn. replace (length l - n)%nat with 0%nat by lia.
  reflexivity.
Qed.

Lemma lastn_length {A} (n : nat) (l : list A) :
  length (lastn n l) = Nat.min n (length l).
Proof. unfold lastn. rewrite length_skipn. lia. Qed.

(** Pushing onto the last [size] elements of [l] keeps the last [size]
    elements of [l] with the sample added. *)
Lemma push_lastn (size : nat) (l : list Q) (x : Q) :
  push size (lastn size l) x = lastn size (l ++ [x]).
Proof.
  destruct (Nat.lt_ge_cases (length l) size) as [Hlt|Hge].
  - rewrite lastn_all by lia. rewrite push_not_full by exact Hlt.
    rewrite lastn_all; [reflexivity|]. rewrite length_app. simpl. lia.
  - rewrite push_full by (rewrite lastn_length; lia).
    unfold lastn. rewrite length_app. simpl.
    replace (length l + 1 - size)%nat with (S (length l - size)) by lia.
    remember (length l - size)%nat as k eqn:Hk.
    assert (Hkl : (k <= length l)%nat) by lia.
    clear Hk Hge. revert k Hkl.
    induction l as [|y l IH]; intros k Hkl.
    + simpl in Hkl. replace k with 0%nat by lia. reflexivity.
    + destruct k as [|k].
      * reflexivity.
      * simpl in Hkl. cbn [skipn app]. apply IH. lia.
Qed.

Lemma run_window (es : list Event) :
  forall (self : t) (la lm : list Q),
    audio_levels self = lastn (buffer_size self) la ->
    motion_levels self = lastn (buffer_size self) lm ->
    let self' := snd (run self es) in
    audio_levels self'
    = lastn (buffer_size self) (la ++ map ev_audio es)
    /\ motion_levels self'
       = lastn (buffer_size self) (lm ++ map ev_motion es).
Proof.
  induction es as [|e es IH]; intros self la lm Ha Hm; cbv zeta.
  - simpl. rewrite !app_nil_r. auto.
  - rewrite run_cons. cbn [snd map]. unfold step.
    pose proof (detect_buffers self (ev_audio e) (ev_motion e) (ev_hands e)
                  (ev_now e) (ev_now' e)) as Hb.
    pose proof (detect_config self (ev_audio e) (ev_motion e) (ev_hands e)
                  (ev_now e) (ev_now' e)) as Hc.
    cbv zeta in Hb, Hc. destruct Hb as (Hb1 & Hb2).
    destruct Hc as (_ & _ & _ & Hsz).
    set (self1 := snd (detect_active_mode self (ev_audio e) (ev_motion e)
                         (ev_hands e) (ev_now e) (ev_now' e))) in *.
    specialize (IH self1 (la ++ [ev_audio e]) (lm ++ [ev_motion e])).
    cbv zeta in IH. rewrite Hsz in IH.
    rewrite <- !app_assoc in IH. apply IH.
    + rewrite Hb1, Ha. apply push_lastn.
    + rewrite Hb2, Hm. apply push_lastn.
Qed.

(** X1.  The rolling buffers are sliding windows: after any sequence of
    calls each buffer holds the last [buffer_size] samples of its old
    content followed by the samples of the calls, in order. *)
Theorem X1_buffers_are_sliding_windows :
  forall (self : t) (es : list Event),
    (length (audio_levels self) <= buffer_size self)%nat ->
    (length (motion_levels self) <= buffer_size self)%nat ->
    let self' := snd (run self es) in
    audio_levels self'
    = lastn (buffer_size self) (audio_levels self ++ map ev_audio es)
    /\ motion_levels self'
       = lastn (buffer_size self) (motion_levels self ++ map ev_motion es).
Proof.
  intros self es Ha Hm. apply run_window; rewrite lastn_all; auto.
Qed.

Lemma X1_buffers_are_sliding_windows_witness :
  audio_levels
    (snd (run (__init__ 0)
              (map (fun n => ev (inject_Z (Z.of_nat n)) 0 false 0 0)
                   (seq 1 12))))
  = map (fun n => inject_Z (Z.of_nat n)) (seq 3 10).
Proof.
  destruct (X1_buffers_are_sliding_windows
              (__init__ 0)
              (map (fun n => ev (inject_Z (Z.of_nat n)) 0 false 0 0)
                   (seq 1 12)))
    as (Ha & _); [simpl; lia | simpl; lia |].
  rewrite Ha. vm_compute. reflexivity.
Defined.

Lemma detected_not_auto (self : t) (a m : Q) (h : bool) :
  current_mode self <> AUTO_DETECT -> detected self a m h <> AUTO_DETECT.
Proof.
  unfold detected. destruct (current_mode self); intros H.
  - destruct (_ && _); discriminate.
  - destruct (Qgtb _ _); discriminate.
  - congruence.
Qed.

Lemma step_not_auto (self : t) (e : Event) :
  current_mode self <> AUTO_DETECT ->
  fst (step self e) <> AUTO_DETECT
  /\ current_mode (snd (step self e)) <> AUTO_DETECT.
Proof.
  intros H. unfold step.
  destruct (detect_cases self (ev_audio e) (ev_motion e) (ev_hands e)
              (ev_now e) (ev_now' e)) as [C|[C|C]]; cbv zeta in C.
  - destruct C as (_ & C1 & C2 & _). rewrite C1, C2. auto.
  - destruct C as (_ & _ & C1 & C2 & _). rewrite C1, C2. auto.
  - destruct C as (_ & C1 & _ & C2 & _). rewrite C2, C1.
    split; apply detected_not_auto, H.
Qed.

(** X2.  Automatic detection never goes back to [AUTO_DETECT]: once the
    mode is one of the two channels, every later call returns one of the
    two channels, whatever the signals and the clock (only [set_mode] and
    [reset] restore [AUTO_DETECT]). *)
Theorem X2_no_return_to_auto_detect :
  forall (self : t) (es : list Event),
    current_mode self <> AUTO_DETECT ->
    Forall (fun m => m <> AUTO_DETECT) (fst (run self es))
    /\ current_mode (snd (run self es)) <> AUTO_DETECT.
Proof.
  intros self es. revert self.
  induction es as [|e es IH]; intros self H.
  - simpl. auto.
  - rewrite run_cons. cbn [fst snd].
    destruct (step_not_auto self e H) as (H1 & H2).
    destruct (IH _ H2) as (H3 & H4). auto.
Qed.

Lemma X2_no_return_to_auto_detect_witness :
  Forall (fun m => m <> AUTO_DETECT)
         (fst (run (set_mode (__init__ 0) SIGN_TO_SPEECH 0)
                   [ev 0 0 false 5 5; ev 1 0 false 7 7])).
Proof.
  apply (X2_no_return_to_auto_detect
           (set_mode (__init__ 0) SIGN_TO_SPEECH 0)
           [ev 0 0 false 5 5; ev 1 0 false 7 7]).
  simpl. discriminate.
Defined.

Lemma sum_le_bound (l : list Q) (b : Q) :
  Forall (fun x => x <= b) l -> sum l <= len l * b.
Proof.
  intros H. induction H as [|x l Hx _ IH].
  - unfold sum, len. simpl. change (inject_Z 0) with 0.
    setoid_replace (0 * b) with 0 by ring. apply Qle_refl.
  - rewrite sum_cons. unfold len in *. cbn [length].
    rewrite Nat2Z.inj_succ, <- Z.add_1_r, inject_Z_plus.
    change (inject_Z 1) with 1.
    setoid_replace ((inject_Z (Z.of_nat (length l)) + 1) * b)
      with (b + inject_Z (Z.of_nat (length l)) * b) by ring.
    apply Qplus_le_compat; assumption.
Qed.

Lemma len_pos {A} (l : list A) : l <> [] -> 0 < len l.
Proof.
  intros H. destruct l as [|x l]; [congruence|].
  unfold len, Qlt. simpl. lia.
Qed.

Lemma average_le_bound (l : list Q) (b : Q) :
  l <> [] -> Forall (fun x => x <= b) l -> average l <= b.
Proof.
  intros Hne H. pose proof (len_pos l Hne) as Hl.
  pose proof (sum_le_bound l b H) as Hs.
  destruct l as [|x l]; [congruence|]. unfold average.
  apply Qle_shift_div_r; [exact Hl|]. rewrite Qmult_comm. exact Hs.
Qed.

Lemma average_singleton (x : Q) : average [x] == x.
Proof. unfold average, sum, len. simpl. field. Qed.

Lemma push_empty (size : nat) (x : Q) :
  (1 <= size)%nat -> push size [] x = [x].
Proof.
  intros H. unfold push. cbn [app length].
  destruct (Nat.ltb_spec size 1) as [L|_]; [lia|reflexivity].
Qed.

Lemma average_nonpositive (l : list Q) :
  Forall (fun x => x <= 0) l -> average l <= 0.
Proof.
  intros H. destruct l as [|x l]; [apply Qle_refl|].
  apply average_le_bound; [discriminate|exact H].
Qed.

(** X3.  The speech channel starts on loud audio only: a call that
    returns [SPEECH_TO_SIGN] from another mode was made with the
    cooldown over and with the average of the audio window, the new
    sample included, above the audio threshold.  In particular, with a
    non-negative threshold, a window whose samples are all zero or below
    never starts it (its mean is zero or below, also when the sum and
    the quotient are rounded); nor does, on empty buffers, a first
    sample at or below the threshold (the mean of one sample is the
    sample itself). *)
Theorem X3_speech_needs_loud_average :
  forall (self : t) (audio_level motion_level : Q) (has_hands : bool)
         (now now' : Q),
    current_mode self <> SPEECH_TO_SIGN ->
    let r := detect_active_mode self audio_level motion_level has_hands
                                now now' in
    let window := push (buffer_size self) (audio_levels self) audio_level in
    (fst r = SPEECH_TO_SIGN ->
     mode_switch_cooldown self <= now - last_mode_switch self
     /\ audio_level_threshold self < average window)
    /\ (0 <= audio_level_threshold self ->
        Forall (fun x => x <= 0) window ->
        fst r <> SPEECH_TO_SIGN)
    /\ ((1 <= buffer_size self)%nat -> audio_levels self = [] ->
        audio_level <= audio_level_threshold self ->
        fst r <> SPEECH_TO_SIGN).
Proof.
  intros self a m h now now' Hm. cbv zeta.
  assert (H1 : fst (detect_active_mode self a m h now now') = SPEECH_TO_SIGN ->
               mode_switch_cooldown self <= now - last_mode_switch self
               /\ audio_level_threshold self
                  < average (push (buffer_size self) (audio_levels self) a)).
  { intros E.
    destruct (detect_cases self a m h now now') as [C|[C|C]]; cbv zeta in C.
    - destruct C as (_ & C & _). rewrite C in E. contradiction.
    - destruct C as (_ & _ & C & _). rewrite C in E. contradiction.
    - destruct C as (Hc & C & _). split; [exact Hc|].
      rewrite C in E. unfold detected in E.
      destruct (current_mode self); [congruence| |].
      + destruct (Qgtb _ (audio_level_threshold self)) eqn:G;
          [apply Qgtb_gt, G | discriminate E].
      + destruct (Qgtb _ (audio_level_threshold self)) eqn:G;
          [apply Qgtb_gt, G |].
        destruct (_ && _); discriminate E. }
  refine (conj H1 (conj _ _)).
  - intros Hthr Hq E. destruct (H1 E) as (_ & L).
    pose proof (average_nonpositive _ Hq) as Ha. lra.
  - intros Hsz Hb Hle E. destruct (H1 E) as (_ & L).
    rewrite Hb, (push_empty _ _ Hsz), average_singleton in L. lra.
Qed.

Lemma X3_speech_needs_loud_average_witness :
  fst (detect_active_mode (__init__ 0) 0 1 true 5 5) <> SPEECH_TO_SIGN.
Proof.
  destruct (X3_speech_needs_loud_average (__init__ 0) 0 1 true 5 5)
    as (_ & H & _).
  - simpl. discriminate.
  - apply H.
    + simpl. lra.
    + vm_compute. repeat constructor. discriminate.
Defined.

Lemma run_in_cooldown (es : list Event) :
  forall self : t,
    (forall e, In e es ->
               ev_now e - last_mode_switch self < mode_switch_cooldown self) ->
    fst (run self es) = repeat (current_mode self) (length es)
    /\ current_mode (snd (run self es)) = current_mode self
    /\ last_mode_switch (snd (run self es)) = last_mode_switch self.
Proof.
  induction es as [|e es IH]; intros self H.
  - simpl. auto.
  - rewrite run_cons. cbn [fst snd length repeat]. unfold step.
    destruct (cooldown_holds self (ev_audio e) (ev_motion e) (ev_hands e)
                (ev_now e) (ev_now' e) (H e (or_introl eq_refl)))
      as (H1 & H2 & H3).
    destruct (detect_config self (ev_audio e) (ev_motion e) (ev_hands e)
                (ev_now e) (ev_now' e)) as (Hc & _).
    destruct (IH (snd (detect_active_mode self (ev_audio e) (ev_motion e)
                         (ev_hands e) (ev_now e) (ev_now' e))))
      as (I1 & I2 & I3).
    + intros e' He'. rewrite H3, Hc. apply H. right. exact He'.
    + rewrite I1, I2, I3, H1, H2, H3. auto.
Qed.

(** X4.  A manual override holds for the whole cooldown: after
    [set_mode], every call made less than [mode_switch_cooldown] seconds
    after the override returns the mode that was set, whatever the
    signals, and the windows hold samples received after the override
    only. *)
Theorem X4_manual_override_holds_during_cooldown :
  forall (self : t) (mode : TranslationMode) (t0 : Q) (es : list Event),
    (forall e, In e es -> ev_now e - t0 < mode_switch_cooldown self) ->
    let r := run (set_mode self mode t0) es in
    fst r = repeat mode (length es)
    /\ current_mode (snd r) = mode
    /\ audio_levels (snd r) = lastn (buffer_size self) (map ev_audio es)
    /\ motion_levels (snd r) = lastn (buffer_size self) (map ev_motion es).
Proof.
  intros self mode t0 es H. cbv zeta.
  destruct (run_in_cooldown es (set_mode self mode t0) H) as (H1 & H2 & _).
  destruct (run_window es (set_mode self mode t0) [] [] eq_refl eq_refl)
    as (H3 & H4).
  simpl in H1, H2, H3, H4. auto.
Qed.

Lemma X4_manual_override_holds_during_cooldown_witness :
  fst (run (set_mode (__init__ 0) SIGN_TO_SPEECH 10)
           [ev 1 0 false (21 # 2) (21 # 2)])
  = [SIGN_TO_SPEECH].
Proof.
  apply (X4_manual_override_holds_during_cooldown
           (__init__ 0) SIGN_TO_SPEECH 10 [ev 1 0 false (21 # 2) (21 # 2)]).
  intros e [<-|[]]. vm_compute. reflexivity.
Defined.

(** X5.  The report read after a call agrees with the call: it names the
    mode the call returned, its levels are the samples of the call, its
    averages are the averages the call compared with the thresholds, and
    the time in the mode is counted from the stamp of the call when the
    call changed the mode. *)
Theorem X5_mode_info_reports_the_call :
  forall (self : t) (audio_level motion_level : Q) (has_hands : bool)
         (now now' later : Q),
    (1 <= buffer_size self)%nat ->
    let r := detect_active_mode self audio_level motion_level has_hands
                                now now' in
    let info := get_mode_info (snd r) later in
    info_current_mode info = value (fst r)
    /\ info_audio_level info = audio_level
    /\ info_motion_level info = motion_level
    /\ info_avg_audio_level info
       = average (push (buffer_size self) (audio_levels self) audio_level)
    /\ info_avg_motion_level info
       = average (push (buffer_size self) (motion_levels self) motion_level)
    /\ (fst r <> current_mode self -> info_time_in_mode info = later - now')
    /\ (fst r = current_mode self ->
        info_time_in_mode info = later - last_mode_switch self).
Proof.
  intros self a m h now now' later Hsz. cbv zeta. unfold get_mode_info.
  cbn [info_current_mode info_audio_level info_motion_level
       info_avg_audio_level info_avg_motion_level info_time_in_mode].
  destruct (detect_buffers self a m h now now') as (Ha & Hm).
  rewrite Ha, Hm, !push_last by exact Hsz.
  rewrite <- (detect_returns_current self a m h now now').
  refine (conj eq_refl (conj eq_refl (conj eq_refl
            (conj eq_refl (conj eq_refl (conj _ _)))))).
  - intros Hd.
    destruct (detect_cases self a m h now now') as [C|[C|C]]; cbv zeta in C.
    + exfalso. tauto.
    + exfalso. tauto.
    + destruct C as (_ & _ & _ & _ & C). rewrite C. reflexivity.
  - intros Hd.
    destruct (detect_cases self a m h now now') as [C|[C|C]]; cbv zeta in C.
    + destruct C as (_ & _ & _ & C). rewrite C. reflexivity.
    + destruct C as (_ & _ & _ & _ & C). rewrite C. reflexivity.
    + exfalso. tauto.
Qed.

Lemma X5_mode_info_reports_the_call_witness :
  info_current_mode
    (get_mode_info (snd (detect_active_mode (__init__ 0) 1 0 false 2 2)) 3)
  = "speech_to_sign".
Proof.
  assert (Hs : (1 <= buffer_size (__init__ 0))%nat) by (simpl; lia).
  destruct (X5_mode_info_reports_the_call (__init__ 0) 1 0 false 2 2 3 Hs)
    as (H & _).
  rewrite H. vm_compute. reflexivity.
Defined.

End ModeManagerMore.

(** ** The performance governor: metrics, gesture cache, settings *)

Section PerformanceOptimizerMore.

Import PerformanceOptimizer.

Context {Data : Type}.

(** *** The latency windows *)

Lemma deque_append_length {A} (n : nat) (dq : list A) (x : A) :
  (length dq <= n)%nat -> (length (deque_append n dq x) <= n)%nat.
Proof.
  intros H. unfold deque_append.
  destruct (Nat.ltb_spec n (length (dq ++ [x]))) as [H'|H']; [|exact H'].
  destruct dq as [|y dq]; simpl in *; [lia|].
  rewrite length_app in *. simpl in *. lia.
Qed.

Lemma measure_latency_bounded (self : t Data) (st : Q) (name : string)
      (now : Q) :
  windows_bounded (metrics self) ->
  windows_bounded (metrics (snd (measure_latency self st name now))).
Proof.
  intros H. unfold measure_latency.
  destruct (dict_get name (metrics self)) as [dq|] eqn:E; simpl; [|exact H].
  apply dict_set_Forall; [|exact H]. simpl.
  apply deque_append_length.
  apply dict_get_In in E. unfold windows_bounded in H.
  rewrite Forall_forall in H. apply (H _ E).
Qed.

Lemma call_windows_bounded (self : t Data) (c : Call Data) :
  windows_bounded (metrics self) -> windows_bounded (metrics (call self c)).
Proof.
  intros H. destruct c as [st n now|ct| |k|k d|st now|st now]; simpl.
  - apply measure_latency_bounded, H.
  - unfold should_skip_frame.
    destruct (negb _); [exact H|]. destruct (Qgtb _ _); exact H.
  - exact H.
  - unfold get_cached_gesture. destruct (dict_get k (lru self)); exact H.
  - unfold cache_gesture. destruct (enable_caching _); [|exact H].
    destruct (100 <? _)%nat; exact H.
  - apply measure_latency_bounded, H.
  - unfold optimize_audio_chunk. destruct (negb _); [exact H|].
    apply measure_latency_bounded, H.
Qed.

Lemma calls_windows_bounded (cs : list (Call Data)) : forall self : t Data,
  windows_bounded (metrics self) -> windows_bounded (metrics (calls self cs)).
Proof.
  induction cs as [|c cs IH]; intros self H; [exact H|].
  unfold calls in *. simpl. apply IH, call_windows_bounded, H.
Qed.

(** X6.  Every latency window is bounded: after any sequence of calls on a
    new optimizer no metric holds more than 100 samples.  A sample for a
    name that is not a metric is measured and returned but not stored:
    the object is left as it was. *)
Theorem X6_latency_windows_bounded :
  (forall (now : Q) (cs : list (Call Data)) (name : string) (dq : list Q),
      dict_get name (metrics (calls (__init__ now) cs)) = Some dq ->
      (length dq <= 100)%nat)
  /\
  (forall (self : t Data) (start_time : Q) (name : string) (now : Q),
      ~ In name (keys (metrics self)) ->
      measure_latency self start_time name now
      = ((now - start_time) * 1000, self)).
Proof.
  split.
  - intros now cs name dq E.
    assert (H : windows_bounded (metrics (calls (__init__ (Data := Data) now)
                                                cs))).
    { apply calls_windows_bounded. unfold windows_bounded. simpl.
      repeat constructor. }
    apply dict_get_In in E. unfold windows_bounded in H.
    rewrite Forall_forall in H. apply (H _ E).
  - intros self st name now Hn. unfold measure_latency.
    rewrite (dict_get_not_in _ _ Hn). reflexivity.
Qed.

End PerformanceOptimizerMore.

Lemma X6_latency_windows_bounded_witness :
  PerformanceOptimizer.measure_latency
    (PerformanceOptimizer.__init__ (Data := string) 0) 1 "jitter" 2
  = ((2 - 1) * 1000, PerformanceOptimizer.__init__ (Data := string) 0).
Proof.
  apply (proj2 (X6_latency_windows_bounded (Data := string))).
  simpl. intuition discriminate.
Defined.

(** *** The gesture dict *)

Section GestureCacheFacts.

Import PerformanceOptimizer.

Context {Data : Type}.

Lemma dict_get_set_same {A} (k : string) (v : A) (d : list (string * A)) :
  dict_get k (dict_set k v d) = Some v.
Proof.
  induction d as [|[k' v'] d IH]; simpl.
  - rewrite String.eqb_refl. reflexivity.
  - destruct (String.eqb_spec k k') as [->|Hne]; simpl.
    + rewrite String.eqb_refl. reflexivity.
    + destruct (String.eqb_spec k k') as [E|_]; [contradiction|exact IH].
Qed.

Lemma dict_get_set_other {A} (k k0 : string) (v : A)
      (d : list (string * A)) :
  k0 <> k -> dict_get k0 (dict_set k v d) = dict_get k0 d.
Proof.
  intros Hne. induction d as [|[k' v'] d IH]; simpl.
  - destruct (String.eqb_spec k0 k) as [E|_]; [contradiction|reflexivity].
  - destruct (String.eqb_spec k k') as [->|Hk]; simpl.
    + destruct (String.eqb_spec k0 k') as [E|_]; [contradiction|reflexivity].
    + destruct (String.eqb_spec k0 k'); [reflexivity|exact IH].
Qed.

Lemma dict_set_new {A} (k : string) (v : A) (d : list (string * A)) :
  ~ In k (keys d) -> dict_set k v d = d ++ [(k, v)].
Proof.
  unfold keys. induction d as [|[k' v'] d IH]; simpl; intros H.
  - reflexivity.
  - destruct (String.eqb_spec k k') as [E|_].
    + exfalso. apply H. left. symmetry. exact E.
    + f_equal. apply IH. intros Hin. apply H. right. exact Hin.
Qed.

Lemma dict_set_old {A} (k : string) (v : A) (d : list (string * A)) :
  In k (keys d) -> keys (dict_set k v d) = keys d.
Proof.
  unfold keys. induction d as [|[k' v'] d IH]; simpl; intros H.
  - contradiction.
  - destruct (String.eqb_spec k k') as [->|Hne]; simpl; [reflexivity|].
    f_equal. apply IH. destruct H as [E|H]; [congruence|exact H].
Qed.

Lemma dict_del_not_in {A} (k : string) (d : list (string * A)) :
  ~ In k (keys d) -> dict_del k d = d.
Proof.
  unfold keys, dict_del. induction d as [|[k' v'] d IH]; simpl; intros H.
  - reflexivity.
  - destruct (String.eqb_spec k k') as [E|_]; simpl.
    + exfalso. apply H. left. symmetry. exact E.
    + f_equal. apply IH. intros Hin. apply H. right. exact Hin.
Qed.

(** Deleting the first [n] keys of a dict drops its first [n] entries. *)
Lemma delete_oldest {A} (n : nat) : forall d : list (string * A),
  NoDup (keys d) ->
  fold_left (fun d0 k => dict_del k d0) (firstn n (keys d)) d = skipn n d.
Proof.
  induction n as [|n IH]; intros d Hnd; [reflexivity|].
  destruct d as [|[k v] d]; [reflexivity|].
  cbn [keys map fst firstn fold_left skipn].
  inversion Hnd as [|? ? Hnotin Hnd']; subst.
  assert (E : dict_del k ((k, v) :: d) = d).
  { unfold dict_del. simpl. rewrite String.eqb_refl. simpl.
    apply (dict_del_not_in k d Hnotin). }
  rewrite E. apply IH, Hnd'.
Qed.

Lemma cache_of_set__cache (self : t Data) (c : list (string * Data)) :
  _cache (set__cache self c) = c.
Proof. reflexivity. Qed.

(** What [cache_gesture] leaves in the dict, by the three cases. *)
Lemma cache_gesture_cases (self : t Data) (k : string) (d : Data) :
  enable_caching (optimization_settings self) = true ->
  cache_ok (_cache self) ->
  (In k (keys (_cache self))
   /\ _cache (cache_gesture self k d) = dict_set k d (_cache self)
   /\ keys (_cache (cache_gesture self k d)) = keys (_cache self))
  \/ (~ In k (keys (_cache self))
      /\ (length (_cache self) < 100)%nat
      /\ _cache (cache_gesture self k d) = _cache self ++ [(k, d)])
  \/ (~ In k (keys (_cache self))
      /\ length (_cache self) = 100%nat
      /\ _cache (cache_gesture self k d)
         = skipn 20 (_cache self) ++ [(k, d)]).
Proof.
  intros He (Hnd & Hlen). unfold cache_gesture. rewrite He.
  destruct (in_dec string_dec k (keys (_cache self))) as [Hin|Hnin].
  - left. split; [exact Hin|].
    pose proof (dict_set_old k d _ Hin) as Hk.
    assert (Hl : length (dict_set k d (_cache self)) = length (_cache self)).
    { unfold keys in Hk. rewrite <- (length_map fst), Hk, length_map.
      reflexivity. }
    rewrite Hl. destruct (Nat.ltb_spec 100 (length (_cache self))); [lia|].
    simpl. auto.
  - right. rewrite (dict_set_new k d _ Hnin). rewrite length_app.
    cbn [length].
    destruct (Nat.ltb_spec 100 (length (_cache self) + 1)) as [Hf|Hf].
    + right. split; [exact Hnin|]. split; [lia|].
      rewrite cache_of_set__cache, delete_oldest.
      * rewrite skipn_app.
        replace (20 - length (_cache self))%nat with 0%nat by lia.
        reflexivity.
      * unfold keys. rewrite map_app. simpl.
        apply NoDup_app; [exact Hnd | repeat constructor; simpl; tauto |].
        intros x Hx [<-|[]]. exact (Hnin Hx).
    + left. split; [exact Hnin|]. split; [lia|]. reflexivity.
Qed.

Lemma dict_get_none_not_in {A} (k : string) (d : list (string * A)) :
  dict_get k d = None -> ~ In k (keys d).
Proof.
  unfold keys. induction d as [|[k' v'] d IH]; simpl; [tauto|].
  destruct (String.eqb_spec k k') as [->|Hne]; [discriminate|].
  intros H [E|Hin]; [congruence | exact (IH H Hin)].
Qed.

Lemma dict_get_app_new {A} (k : string) (v : A) (d : list (string * A)) :
  ~ In k (keys d) -> dict_get k (d ++ [(k, v)]) = Some v.
Proof.
  intros H. rewrite <- (dict_set_new k v d H). apply dict_get_set_same.
Qed.

Lemma keys_app {A} (d1 d2 : list (string * A)) :
  keys (d1 ++ d2) = keys d1 ++ keys d2.
Proof. unfold keys. apply map_app. Qed.

Lemma keys_skipn {A} (n : nat) (d : list (string * A)) :
  keys (skipn n d) = skipn n (keys d).
Proof. unfold keys. symmetry. apply skipn_map. Qed.

Lemma In_skipn {A} (n : nat) (l : list A) (x : A) :
  In x (skipn n l) -> In x l.
Proof.
  intros H. rewrite <- (firstn_skipn n l). apply in_or_app. right. exact H.
Qed.

Lemma NoDup_skipn {A} (n : nat) (l : list A) :
  NoDup l -> NoDup (skipn n l).
Proof.
  intros H. rewrite <- (firstn_skipn n l) in H.
  apply NoDup_app_remove_l in H. exact H.
Qed.

Lemma NoDup_app_disjoint {A} (l1 l2 : list A) (x : A) :
  NoDup (l1 ++ l2) -> In x l1 -> In x l2 -> False.
Proof.
  induction l1 as [|a l1 IH]; simpl; intros Hnd H1 H2; [exact H1|].
  inversion Hnd as [|? ? Hnotin Hnd']; subst.
  destruct H1 as [->|H1].
  - apply Hnotin, in_or_app. right. exact H2.
  - exact (IH Hnd' H1 H2).
Qed.

Lemma NoDup_keys_app_new {A} (k : string) (v : A) (d : list (string * A)) :
  NoDup (keys d) -> ~ In k (keys d) -> NoDup (keys (d ++ [(k, v)])).
Proof.
  intros Hnd Hnin. unfold keys. rewrite map_app. simpl.
  apply NoDup_app; [exact Hnd | repeat constructor; simpl; tauto |].
  intros x Hx [<-|[]]. exact (Hnin Hx).
Qed.

Lemma cache_gesture_ok (self : t Data) (k : string) (d : Data) :
  cache_ok (_cache self) -> cache_ok (_cache (cache_gesture self k d)).
Proof.
  intros Hok.
  destruct (enable_caching (optimization_settings self)) eqn:He.
  - destruct Hok as (Hnd & Hlen).
    destruct (cache_gesture_cases self k d He (conj Hnd Hlen))
      as [(Hin & Hc & Hk)|[(Hnin & Hl & Hc)|(Hnin & Hl & Hc)]].
    + split; [rewrite Hk; exact Hnd|].
      rewrite <- (length_map fst). fold (keys (_cache (cache_gesture self k d))).
      rewrite Hk. unfold keys. rewrite length_map. exact Hlen.
    + rewrite Hc. split; [apply NoDup_keys_app_new; assumption|].
      rewrite length_app. simpl. lia.
    + rewrite Hc. split.
      * apply NoDup_keys_app_new.
        -- rewrite keys_skipn. apply NoDup_skipn, Hnd.
        -- rewrite keys_skipn. intros Hin. apply Hnin.
           apply (In_skipn 20), Hin.
      * rewrite length_app, length_skipn. simpl. lia.
  - unfold cache_gesture. rewrite He. exact Hok.
Qed.

Lemma call_cache_ok (self : t Data) (c : Call Data) :
  cache_ok (_cache self) -> cache_ok (_cache (call self c)).
Proof.
  intros H. destruct c as [st n now|ct| |k|k d|st now|st now]; simpl.
  - unfold measure_latency. destruct (dict_get n (metrics self)); exact H.
  - unfold should_skip_frame.
    destruct (negb _); [exact H|]. destruct (Qgtb _ _); exact H.
  - exact H.
  - unfold get_cached_gesture. destruct (dict_get k (lru self)); exact H.
  - apply cache_gesture_ok, H.
  - unfold optimize_video_frame, measure_latency.
    destruct (dict_get _ (metrics self)); exact H.
  - unfold optimize_audio_chunk, measure_latency.
    destruct (negb _); [exact H|].
    destruct (dict_get _ (metrics self)); exact H.
Qed.

Lemma call_flags (self : t Data) (c : Call Data) :
  enable_caching (optimization_settings (call self c))
  = enable_caching (optimization_settings self)
  /\ frame_count (call self c) = frame_count self.
Proof.
  destruct c as [st n now|ct| |k|k d|st now|st now]; simpl.
  - unfold measure_latency. destruct (dict_get n (metrics self)); auto.
  - unfold should_skip_frame.
    destruct (negb _); [auto|]. destruct (Qgtb _ _); auto.
  - unfold auto_adjust_quality.
    destruct (Qgtb _ 100); destruct (Qgtb _ 50); auto.
  - unfold get_cached_gesture. destruct (dict_get k (lru self)); auto.
  - unfold cache_gesture.
    destruct (enable_caching (optimization_settings self)) eqn:E; [|auto].
    destruct (100 <? _)%nat; simpl; auto.
  - unfold optimize_video_frame, measure_latency.
    destruct (dict_get _ (metrics self)); auto.
  - unfold optimize_audio_chunk, measure_latency.
    destruct (negb _); [auto|].
    destruct (dict_get _ (metrics self)); auto.
Qed.

(** What every sequence of calls keeps of a new optimizer. *)
Lemma calls_reachable (cs : list (Call Data)) : forall self : t Data,
  cache_ok (_cache self) ->
  cache_ok (_cache (calls self cs))
  /\ enable_caching (optimization_settings (calls self cs))
     = enable_caching (optimization_settings self)
  /\ frame_count (calls self cs) = frame_count self.
Proof.
  induction cs as [|c cs IH]; intros self H; [auto|].
  unfold calls in *. simpl.
  destruct (IH (call self c) (call_cache_ok self c H)) as (I1 & I2 & I3).
  destruct (call_flags self c) as (F1 & F2).
  rewrite I2, I3, F1, F2. auto.
Qed.

(** X7.  A stored gesture can be read back: on any optimizer reached from
    [__init__], after [cache_gesture] the dict holds the data under the
    key, a lookup of a key that was never looked up before returns the
    data, and the dict has distinct keys and at most 100 entries. *)
Theorem X7_cached_gesture_round_trip :
  forall (now : Q) (cs : list (Call Data)) (gesture_key : string)
         (data : Data),
    let self := calls (__init__ now) cs in
    let self' := cache_gesture self gesture_key data in
    dict_get gesture_key (_cache self') = Some data
    /\ (dict_get gesture_key (lru self) = None ->
        fst (get_cached_gesture self' gesture_key) = Some data)
    /\ NoDup (keys (_cache self'))
    /\ (length (_cache self') <= 100)%nat.
Proof.
  intros now cs k d. cbv zeta.
  destruct (calls_reachable cs (__init__ now)) as (Hok & He & _).
  { split; [constructor | simpl; lia]. }
  simpl in He.
  assert (Hget : dict_get k (_cache (cache_gesture (calls (__init__ now) cs)
                                                   k d)) = Some d).
  { destruct (cache_gesture_cases _ k d He Hok)
      as [(Hin & Hc & _)|[(Hnin & _ & Hc)|(Hnin & _ & Hc)]]; rewrite Hc.
    - apply dict_get_set_same.
    - apply dict_get_app_new, Hnin.
    - apply dict_get_app_new. rewrite keys_skipn. intros Hin.
      apply Hnin, (In_skipn 20), Hin. }
  split; [exact Hget|]. split.
  - intros Hl. unfold get_cached_gesture.
    assert (E : lru (cache_gesture (calls (__init__ now) cs) k d)
                = lru (calls (__init__ now) cs)).
    { unfold cache_gesture. destruct (enable_caching _); [|reflexivity].
      destruct (100 <? _)%nat; reflexivity. }
    rewrite E, Hl. simpl. exact Hget.
  - apply cache_gesture_ok, Hok.
Qed.

(** X8.  Storing a new key in a full dict makes room first by count: of
    the 100 entries the 20 oldest are dropped and the 80 newest are kept
    in order, followed by the new entry. *)
Theorem X8_full_cache_drops_twenty_oldest :
  forall (self : t Data) (gesture_key : string) (data : Data),
    enable_caching (optimization_settings self) = true ->
    NoDup (keys (_cache self)) ->
    length (_cache self) = 100%nat ->
    ~ In gesture_key (keys (_cache self)) ->
    let self' := cache_gesture self gesture_key data in
    _cache self' = skipn 20 (_cache self) ++ [(gesture_key, data)]
    /\ length (_cache self') = 81%nat
    /\ (forall k, In k (firstn 20 (keys (_cache self))) ->
                  dict_get k (_cache self') = None).
Proof.
  intros self k d He Hnd Hlen Hnin. cbv zeta.
  assert (Hle : (length (_cache self) <= 100)%nat) by lia.
  destruct (cache_gesture_cases self k d He (conj Hnd Hle))
    as [(Hin & _)|[(_ & Hl & _)|(_ & _ & Hc)]];
    [contradiction | lia |].
  rewrite Hc. split; [reflexivity|]. split.
  - rewrite length_app, length_skipn. simpl. lia.
  - intros k0 Hk0. apply dict_get_not_in.
    rewrite keys_app, keys_skipn. intros Hin. apply in_app_or in Hin.
    rewrite <- (firstn_skipn 20 (keys (_cache self))) in Hnd.
    destruct Hin as [Hin|[E|[]]].
    + exact (NoDup_app_disjoint _ _ k0 Hnd Hk0 Hin).
    + subst k0. apply Hnin. rewrite <- (firstn_skipn 20 (keys (_cache self))).
      apply in_or_app. left. exact Hk0.
Qed.

End GestureCacheFacts.

Lemma X7_cached_gesture_round_trip_witness :
  fst (PerformanceOptimizer.get_cached_gesture
         (PerformanceOptimizer.cache_gesture
            (PerformanceOptimizer.__init__ (Data := string) 0)
            "wave" "hello")
         "wave")
  = Some "hello".
Proof.
  destruct (X7_cached_gesture_round_trip (Data := string) 0 [] "wave" "hello")
    as (_ & H & _).
  apply H. reflexivity.
Defined.

Lemma X8_full_cache_drops_twenty_oldest_witness :
  let self :=
    PerformanceOptimizer.calls
      (PerformanceOptimizer.__init__ (Data := string) 0)
      (map (fun n => PerformanceOptimizer.CacheGesture (key_of_length n) "g")
           (seq 1 100)) in
  length (PerformanceOptimizer._cache
            (PerformanceOptimizer.cache_gesture self "wave" "hello"))
  = 81%nat.
Proof.
  intros self.
  destruct (X8_full_cache_drops_twenty_oldest self "wave" "hello")
    as (_ & H & _).
  - vm_compute. reflexivity.
  - apply (calls_reachable _ (PerformanceOptimizer.__init__ 0)).
    split; [constructor | simpl; lia].
  - vm_compute. reflexivity.
  - apply dict_get_none_not_in. vm_compute. reflexivity.
  - exact H.
Defined.

(** *** The settings of the second recogniser *)

Section I3DSettingsFacts.

Import PerformanceOptimizer.

Context {Data : Type}.

(** X9.  [update_i3d_settings] writes the keys that are given and nothing
    else: read back, each of the four settings is the given value or the
    old one, the other settings stay; writing back what
    [get_i3d_optimization_settings] returns, or an empty dict, leaves the
    optimizer as it was. *)
Theorem X9_i3d_settings_round_trip :
  forall (self : t Data) (u : I3DUpdate),
    let or_else {A} (o : option A) (d : A) : A :=
      match o with Some x => x | None => d end in
    let old := get_i3d_optimization_settings self in
    let new := get_i3d_optimization_settings (update_i3d_settings self u) in
    let s := optimization_settings self in
    let s' := optimization_settings (update_i3d_settings self u) in
    buffer_size new = or_else (new_buffer_size u) (buffer_size old)
    /\ sequence_length new
       = or_else (new_sequence_length u) (sequence_length old)
    /\ stride new = or_else (new_stride u) (stride old)
    /\ enabled new = or_else (new_enabled u) (enabled old)
    /\ max_resolution s' = max_resolution s
    /\ target_fps s' = target_fps s
    /\ audio_sample_rate s' = audio_sample_rate s
    /\ enable_frame_skipping s' = enable_frame_skipping s
    /\ enable_audio_compression s' = enable_audio_compression s
    /\ enable_caching s' = enable_caching s
    /\ update_i3d_settings self
         (mkI3DUpdate (Some (buffer_size old)) (Some (sequence_length old))
                      (Some (stride old)) (Some (enabled old)))
       = self
    /\ update_i3d_settings self (mkI3DUpdate None None None None) = self.
Proof.
  intros self u. cbv zeta.
  destruct self as [m fst_ abs lft fc s c l]. destruct s.
  destruct u as [[b|] [sl|] [st|] [e|]]; repeat split; reflexivity.
Qed.

Lemma multiple_in_window (s n : Z) :
  (0 < s)%Z ->
  exists k, (n <= k < n + s)%Z /\ (k mod s = 0)%Z
            /\ forall k', (n <= k' < n + s)%Z -> (k' mod s = 0)%Z -> k' = k.
Proof.
  intros Hs. exists (n + (- n) mod s)%Z.
  pose proof (Z.mod_pos_bound (- n) s Hs) as Hb.
  split; [lia|]. split.
  - rewrite Z.add_mod_idemp_r by lia.
    replace (n + - n)%Z with 0%Z by lia. apply Z.mod_0_l. lia.
  - intros k' Hk' Hm.
    assert (Hk : ((n + (- n) mod s) mod s = 0)%Z).
    { rewrite Z.add_mod_idemp_r by lia.
      replace (n + - n)%Z with 0%Z by lia. apply Z.mod_0_l. lia. }
    apply Z.mod_divide in Hm; [|lia]. apply Z.mod_divide in Hk; [|lia].
    destruct Hm as (q & Hq). destruct Hk as (q' & Hq').
    assert (q = q') by nia. subst q'. lia.
Qed.

(** X10.  [should_process_i3d_frame] selects the frames whose count is a
    multiple of the stride: with a positive stride, exactly one frame of
    every [stride] consecutive frames; it selects no frame when the
    recogniser is disabled, and the remainder raises when the stride is
    zero. *)
Theorem X10_i3d_frames_are_strided :
  forall self : t Data,
    let s := optimization_settings self in
    (enable_i3d s = false ->
     forall n, should_process_i3d_frame self n = Some false)
    /\ (enable_i3d s = true -> i3d_stride s = 0%Z ->
        forall n, should_process_i3d_frame self n = None)
    /\ (enable_i3d s = true -> i3d_stride s <> 0%Z ->
        forall n, exists b,
          should_process_i3d_frame self n = Some b
          /\ (b = true <-> (i3d_stride s | n)%Z))
    /\ (enable_i3d s = true -> (0 < i3d_stride s)%Z ->
        forall n, exists k,
          (n <= k < n + i3d_stride s)%Z
          /\ should_process_i3d_frame self k = Some true
          /\ forall k', (n <= k' < n + i3d_stride s)%Z ->
                        should_process_i3d_frame self k' = Some true ->
                        k' = k).
Proof.
  intros self. cbv zeta. unfold should_process_i3d_frame.
  refine (conj _ (conj _ (conj _ _))).
  - intros He n. rewrite He. reflexivity.
  - intros He Hs n. rewrite He, Hs. reflexivity.
  - intros He Hs n. rewrite He. simpl.
    destruct (Z.eqb_spec (i3d_stride (optimization_settings self)) 0)
      as [E|_]; [contradiction|].
    eexists. split; [reflexivity|].
    rewrite Z.eqb_eq. apply Z.mod_divide. exact Hs.
  - intros He Hs n. rewrite He. simpl.
    destruct (Z.eqb_spec (i3d_stride (optimization_settings self)) 0)
      as [E|_]; [lia|].
    destruct (multiple_in_window _ n Hs) as (k & Hk & Hm & Hu).
    exists k. split; [exact Hk|]. split.
    + rewrite Hm. reflexivity.
    + intros k' Hk' E. injection E as E. apply Z.eqb_eq in E.
      apply Hu; assumption.
Qed.

End I3DSettingsFacts.

Lemma X9_i3d_settings_round_trip_witness :
  PerformanceOptimizer.stride
    (PerformanceOptimizer.get_i3d_optimization_settings
       (PerformanceOptimizer.update_i3d_settings
          (PerformanceOptimizer.__init__ (Data := string) 0)
          (PerformanceOptimizer.mkI3DUpdate None None (Some 8%Z) None)))
  = 8%Z.
Proof.
  destruct (X9_i3d_settings_round_trip
              (PerformanceOptimizer.__init__ (Data := string) 0)
              (PerformanceOptimizer.mkI3DUpdate None None (Some 8%Z) None))
    as (_ & _ & H & _).
  exact H.
Defined.

Lemma X10_i3d_frames_are_strided_witness :
  exists k,
    (100 <= k < 100 + 16)%Z
    /\ PerformanceOptimizer.should_process_i3d_frame
         (PerformanceOptimizer.__init__ (Data := string) 0) k
       = Some true.
Proof.
  destruct (X10_i3d_frames_are_strided
              (PerformanceOptimizer.__init__ (Data := string) 0))
    as (_ & _ & _ & H).
  destruct (H eq_refl) with (n := 100%Z) as (k & Hk & E & _).
  - simpl. lia.
  - exists k. split; [exact Hk | exact E].
Defined.

(** *** Recommendations and the quality settings *)

Section QualityFacts.

Import PerformanceOptimizer.

Context {Data : Type}.

Lemma recommendations_cases (self : t Data) (now : Q) :
  let stats := get_performance_stats self in
  let avg name := match dict_get name stats with Some a => a | None => 0 end in
  let recs := get_optimization_recommendations self now in
  (In "Consider reducing video resolution or frame rate" recs
   <-> 100 < avg "video_latency")
  /\ (In "Consider reducing audio sample rate or buffer size" recs
      <-> 50 < avg "audio_latency")
  /\ (In "Consider using cached translations or simplified models" recs
      <-> 150 < avg "translation_latency").
Proof.
  cbv zeta. unfold get_optimization_recommendations.
  set (av := match dict_get "video_latency" (get_performance_stats self) with
             | Some a => a | None => 0 end).
  set (aa := match dict_get "audio_latency" (get_performance_stats self) with
             | Some a => a | None => 0 end).
  set (at_ := match dict_get "translation_latency"
                             (get_performance_stats self) with
              | Some a => a | None => 0 end).
  set (fps := match current_fps_stat self now with
              | Some f => f | None => 0 end).
  rewrite <- !Qgtb_gt.
  destruct (Qgtb av 100); destruct (Qgtb aa 50); destruct (Qgtb at_ 150);
    destruct (Qltb fps 10); destruct (Qgtb fps 30);
    simpl; intuition congruence.
Qed.

(** X11.  [get_optimization_recommendations] and [auto_adjust_quality]
    read the same two averages against the same limits: the advice to
    reduce the video resolution is given exactly when a call of
    [auto_adjust_quality] would scale the resolution cap, and the advice
    to reduce the audio sample rate exactly when it would lower the rate;
    without the advice the setting stays. *)
Theorem X11_recommendations_match_adjustment :
  forall (self : t Data) (now : Q),
    let recs := get_optimization_recommendations self now in
    let s := optimization_settings self in
    let s' := optimization_settings (auto_adjust_quality self) in
    (In "Consider reducing video resolution or frame rate" recs ->
     max_resolution s'
     = (Z.max 320 (scale_08 (fst (max_resolution s))),
        Z.max 240 (scale_08 (snd (max_resolution s)))))
    /\ (~ In "Consider reducing video resolution or frame rate" recs ->
        max_resolution s' = max_resolution s)
    /\ (In "Consider reducing audio sample rate or buffer size" recs ->
        audio_sample_rate s' = Z.max 8000 (audio_sample_rate s - 2000))
    /\ (~ In "Consider reducing audio sample rate or buffer size" recs ->
        audio_sample_rate s' = audio_sample_rate s).
Proof.
  intros self now. cbv zeta.
  destruct (recommendations_cases self now) as (Rv & Ra & _).
  destruct (auto_adjust_spec self) as (Hv & Hv' & Ha & Ha').
  cbv zeta in Rv, Ra.
  refine (conj _ (conj _ (conj _ _))); intros H.
  - apply Hv, Rv, H.
  - apply Hv'. apply Qnot_lt_le. intros L. apply H, Rv, L.
  - apply Ha, Ra, H.
  - apply Ha'. apply Qnot_lt_le. intros L. apply H, Ra, L.
Qed.

Lemma calls_frame_count (cs : list (Call Data)) : forall self : t Data,
  frame_count (calls self cs) = frame_count self.
Proof.
  induction cs as [|c cs IH]; intros self; [reflexivity|].
  unfold calls in *. simpl. rewrite IH. apply call_flags.
Qed.

(** X12.  No method counts frames: [frame_count] is 0 from [__init__] on,
    [get_performance_stats] never sets ["current_fps"], and the
    recommendations, whenever they are asked for, hold the low frame rate
    message and never the high frame rate one. *)
Theorem X12_frame_rate_always_reported_low :
  forall (now : Q) (cs : list (Call Data)) (t1 : Q),
    let self := calls (__init__ now) cs in
    let recs := get_optimization_recommendations self t1 in
    frame_count self = 0%Z
    /\ current_fps_stat self t1 = None
    /\ In "Frame rate is low, check CPU/GPU usage" recs
    /\ ~ In "Frame rate is high, consider enabling frame skipping" recs.
Proof.
  intros now cs t1. cbv zeta.
  pose proof (calls_frame_count cs (__init__ now)) as Hf.
  change (frame_count (__init__ now)) with 0%Z in Hf.
  assert (Hc : current_fps_stat (calls (__init__ now) cs) t1 = None).
  { unfold current_fps_stat. rewrite Hf. reflexivity. }
  refine (conj Hf (conj Hc _)).
  unfold get_optimization_recommendations. rewrite Hc.
  change (Qltb 0 10) with true. cbv iota.
  split.
  - rewrite !in_app_iff. right. right. right. left. reflexivity.
  - rewrite !in_app_iff.
    destruct (Qgtb _ 100); destruct (Qgtb _ 50); destruct (Qgtb _ 150);
      simpl; intuition congruence.
Qed.

Lemma call_quality_ladder (self : t Data) (c : Call Data) :
  let P (s : Settings) :=
    In (max_resolution s)
       [(640, 480); (512, 384); (409, 307); (327, 245); (320, 240)]%Z
    /\ In (audio_sample_rate s) [16000; 14000; 12000; 10000; 8000]%Z in
  P (optimization_settings self) -> P (optimization_settings (call self c)).
Proof.
  cbv zeta. intros (Hr & Ha).
  destruct c; try (rewrite call_settings by discriminate; split; assumption).
  cbn [call].
  destruct (auto_adjust_spec self) as (Hv & Hv' & Hu & Hu').
  cbv zeta in Hv, Hv', Hu, Hu'.
  split.
  - match type of Hv with (100 < ?a -> _) =>
      destruct (Qlt_le_dec 100 a) as [L|L] end.
    + rewrite (Hv L). simpl in Hr.
      destruct Hr as [E|[E|[E|[E|[E|[]]]]]]; rewrite <- E; simpl; auto 6.
    + rewrite (Hv' L). exact Hr.
  - match type of Hu with (50 < ?a -> _) =>
      destruct (Qlt_le_dec 50 a) as [L|L] end.
    + rewrite (Hu L). simpl in Ha.
      destruct Ha as [E|[E|[E|[E|[E|[]]]]]]; rewrite <- E; simpl; auto 6.
    + rewrite (Hu' L). exact Ha.
Qed.

Lemma scale_08_le (n : Z) : (0 <= n -> scale_08 n <= n)%Z.
Proof.
  intros H. unfold scale_08. rewrite Z.quot_div_nonneg by lia.
  apply Z.div_le_upper_bound; lia.
Qed.

(** X13.  [auto_adjust_quality] only ever lowers the quality: from
    settings at or above the floors, a call raises neither side of the
    resolution cap nor the sample rate, and at the floors (320 x 240,
    8000 Hz) it changes neither; from [__init__] on, whatever is called,
    the cap is one of five resolutions and the rate one of five rates. *)
Theorem X13_quality_only_decreases :
  (forall self : t Data,
      let s := optimization_settings self in
      let s' := optimization_settings (auto_adjust_quality self) in
      above_floor s ->
      (fst (max_resolution s') <= fst (max_resolution s)
       /\ snd (max_resolution s') <= snd (max_resolution s)
       /\ audio_sample_rate s' <= audio_sample_rate s)%Z
      /\ (max_resolution s = (320, 240)%Z ->
          max_resolution s' = (320, 240)%Z)
      /\ (audio_sample_rate s = 8000%Z -> audio_sample_rate s' = 8000%Z))
  /\
  (forall (now : Q) (cs : list (Call Data)),
      let s := optimization_settings (calls (__init__ now) cs) in
      In (max_resolution s)
         [(640, 480); (512, 384); (409, 307); (327, 245); (320, 240)]%Z
      /\ In (audio_sample_rate s) [16000; 14000; 12000; 10000; 8000]%Z).
Proof.
  split.
  - intros self. cbv zeta. intros (Hw & Hh & Hr).
    destruct (auto_adjust_spec self) as (Hv & Hv' & Hu & Hu').
    cbv zeta in Hv, Hv', Hu, Hu'.
    pose proof (scale_08_le (fst (max_resolution (optimization_settings self))))
      as Sw.
    pose proof (scale_08_le (snd (max_resolution (optimization_settings self))))
      as Sh.
    assert (Hres :
      max_resolution (optimization_settings (auto_adjust_quality self))
      = max_resolution (optimization_settings self)
      \/ max_resolution (optimization_settings (auto_adjust_quality self))
         = (Z.max 320
              (scale_08 (fst (max_resolution (optimization_settings self)))),
            Z.max 240
              (scale_08 (snd (max_resolution (optimization_settings self)))))).
    { match type of Hv with (100 < ?a -> _) =>
        destruct (Qlt_le_dec 100 a) as [L|L] end; auto. }
    assert (Hrate :
      audio_sample_rate (optimization_settings (auto_adjust_quality self))
      = audio_sample_rate (optimization_settings self)
      \/ audio_sample_rate (optimization_settings (auto_adjust_quality self))
         = Z.max 8000
             (audio_sample_rate (optimization_settings self) - 2000)%Z).
    { match type of Hu with (50 < ?a -> _) =>
        destruct (Qlt_le_dec 50 a) as [L|L] end; auto. }
    refine (conj (conj _ (conj _ _)) (conj _ _)).
    + destruct Hres as [E|E]; rewrite E; simpl; lia.
    + destruct Hres as [E|E]; rewrite E; simpl; lia.
    + destruct Hrate as [E|E]; rewrite E; lia.
    + intros E0. destruct Hres as [E|E]; rewrite E; rewrite E0; reflexivity.
    + intros E0. destruct Hrate as [E|E]; rewrite E; rewrite E0; reflexivity.
  - intros now cs. cbv zeta.
    assert (G : forall (cs : list (Call Data)) (self : t Data),
               (In (max_resolution (optimization_settings self))
                   [(640, 480); (512, 384); (409, 307); (327, 245);
                    (320, 240)]%Z
                /\ In (audio_sample_rate (optimization_settings self))
                      [16000; 14000; 12000; 10000; 8000]%Z) ->
               In (max_resolution (optimization_settings (calls self cs)))
                  [(640, 480); (512, 384); (409, 307); (327, 245);
                   (320, 240)]%Z
               /\ In (audio_sample_rate
                        (optimization_settings (calls self cs)))
                     [16000; 14000; 12000; 10000; 8000]%Z).
    { clear cs. induction cs as [|c cs IH]; intros self H; [exact H|].
      unfold calls in *. simpl. apply IH.
      apply (call_quality_ladder self c). exact H. }
    apply G. simpl. auto.
Qed.

End QualityFacts.

Lemma X13_quality_only_decreases_witness :
  let self :=
    snd (PerformanceOptimizer.measure_latency
           (PerformanceOptimizer.__init__ (Data := string) 0)
           0 "video_latency" 1) in
  (fst (PerformanceOptimizer.max_resolution
          (PerformanceOptimizer.optimization_settings
             (PerformanceOptimizer.auto_adjust_quality self)))
   <= 640)%Z.
Proof.
  intros self.
  destruct (proj1 (X13_quality_only_decreases (Data := string)) self)
    as ((H & _) & _).
  - unfold PerformanceOptimizer.above_floor. simpl. lia.
  - exact H.
Defined.

Lemma X11_recommendations_match_adjustment_witness :
  let self :=
    snd (PerformanceOptimizer.measure_latency
           (PerformanceOptimizer.__init__ (Data := string) 0)
           0 "video_latency" 1) in
  PerformanceOptimizer.max_resolution
    (PerformanceOptimizer.optimization_settings
       (PerformanceOptimizer.auto_adjust_quality self))
  = (512, 384)%Z.
Proof.
  intros self.
  destruct (X11_recommendations_match_adjustment self 1) as (H & _).
  apply H. vm_compute. left. reflexivity.
Defined.

(** *** The resize step of optimize_video_frame *)

Section ResizeFacts.

Import PerformanceOptimizer.

Context {Data : Type}.

Lemma int_of_Q_bounds (x : Q) (m : Z) :
  0 <= x -> x <= inject_Z m -> (0 <= int_of_Q x <= m)%Z.
Proof.
  destruct x as [n d]. unfold Qle, int_of_Q. simpl. intros H0 Hm.
  rewrite Z.quot_div_nonneg by lia. split.
  - apply Z.div_pos; lia.
  - apply Z.div_le_upper_bound; lia.
Qed.

Lemma min_Q_cases (a b : Q) :
  (min_Q a b = a \/ min_Q a b = b) /\ min_Q a b <= a /\ min_Q a b <= b.
Proof.
  unfold min_Q. destruct (Qltb b a) eqn:E.
  - apply Qltb_lt in E. refine (conj (or_intror eq_refl) (conj _ _)); lra.
  - apply Qltb_ge in E. refine (conj (or_introl eq_refl) (conj _ _)); lra.
Qed.

Lemma inject_Z_pos (n : Z) : (0 < n)%Z -> 0 < inject_Z n.
Proof. intros H. unfold Qlt. simpl. lia. Qed.

Lemma inject_Z_nonneg (n : Z) : (0 <= n)%Z -> 0 <= inject_Z n.
Proof. intros H. unfold Qle. simpl. lia. Qed.

Lemma ratio_bounds (m n : Z) :
  (0 <= m)%Z -> (0 < n)%Z ->
  0 <= inject_Z m / inject_Z n
  /\ inject_Z n * (inject_Z m / inject_Z n) == inject_Z m
  /\ ((m <= n)%Z -> inject_Z m / inject_Z n <= 1).
Proof.
  intros Hm Hn.
  pose proof (inject_Z_pos n Hn) as Pn.
  pose proof (inject_Z_nonneg m Hm) as Pm.
  refine (conj _ (conj _ _)).
  - apply Qle_shift_div_l; [exact Pn|]. lra.
  - apply Qmult_div_r. lra.
  - intros Hle. apply Qle_shift_div_r; [exact Pn|].
    rewrite Qmult_1_l. rewrite <- Zle_Qle. exact Hle.
Qed.

(** X14.  The size passed to [cv2.resize] by [optimize_video_frame]: a
    frame with at least one row and one column, under a non-negative cap,
    always gets a size within the cap and within its own size, and keeps
    its size when it fits the cap; a frame without columns that has more
    rows than the cap (or without rows and with more columns) raises on
    the division. *)
Theorem X14_resized_frame_fits_the_cap :
  forall (self : t Data) (width height : Z),
    let max_width := fst (max_resolution (optimization_settings self)) in
    let max_height := snd (max_resolution (optimization_settings self)) in
    ((0 < width)%Z -> (0 < height)%Z ->
     (0 <= max_width)%Z -> (0 <= max_height)%Z ->
     exists new_width new_height,
       resized_shape self width height = Some (new_width, new_height)
       /\ (0 <= new_width <= max_width)%Z
       /\ (0 <= new_height <= max_height)%Z
       /\ (new_width <= width)%Z /\ (new_height <= height)%Z
       /\ ((width <= max_width)%Z -> (height <= max_height)%Z ->
           new_width = width /\ new_height = height))
    /\ (width = 0%Z -> (max_height < height)%Z ->
        resized_shape self width height = None)
    /\ (height = 0%Z -> (max_width < width)%Z ->
        resized_shape self width height = None).
Proof.
  intros self width height. cbv zeta. unfold resized_shape.
  destruct (max_resolution (optimization_settings self)) as [mw mh].
  cbn [fst snd].
  refine (conj _ (conj _ _)).
  - intros Hw Hh Hmw Hmh.
    destruct ((width >? mw)%Z || (height >? mh)%Z) eqn:Ebig.
    + destruct (Z.eqb_spec width 0) as [E|_]; [lia|].
      destruct (Z.eqb_spec height 0) as [E|_]; [lia|].
      cbn [orb].
      destruct (ratio_bounds mw width Hmw Hw) as (A0 & Aw & A1).
      destruct (ratio_bounds mh height Hmh Hh) as (B0 & Bh & B1).
      set (a := inject_Z mw / inject_Z width) in *.
      set (b := inject_Z mh / inject_Z height) in *.
      destruct (min_Q_cases a b) as (Hc & Ha & Hb).
      set (scale := min_Q a b) in *.
      pose proof (inject_Z_pos width Hw) as Pw.
      pose proof (inject_Z_pos height Hh) as Ph.
      assert (S0 : 0 <= scale) by (destruct Hc as [E|E]; rewrite E; assumption).
      assert (S1 : scale <= 1).
      { apply orb_true_iff in Ebig.
        destruct Ebig as [G|G]; apply Z.gtb_lt in G.
        - apply Qle_trans with a; [exact Ha|]. apply A1. lia.
        - apply Qle_trans with b; [exact Hb|]. apply B1. lia. }
      assert (Ww : inject_Z width * scale <= inject_Z mw).
      { rewrite <- Aw. apply Qmult_le_l; assumption. }
      assert (Wh : inject_Z height * scale <= inject_Z mh).
      { rewrite <- Bh. apply Qmult_le_l; assumption. }
      assert (W0 : 0 <= inject_Z width * scale)
        by (apply Qmult_le_0_compat; lra).
      assert (H0 : 0 <= inject_Z height * scale)
        by (apply Qmult_le_0_compat; lra).
      assert (Ww' : inject_Z width * scale <= inject_Z width).
      { setoid_replace (inject_Z width) with (inject_Z width * 1) at 2
          by ring.
        apply Qmult_le_l; assumption. }
      assert (Wh' : inject_Z height * scale <= inject_Z height).
      { setoid_replace (inject_Z height) with (inject_Z height * 1) at 2
          by ring.
        apply Qmult_le_l; assumption. }
      pose proof (int_of_Q_bounds _ mw W0 Ww) as I1.
      pose proof (int_of_Q_bounds _ mh H0 Wh) as I2.
      pose proof (int_of_Q_bounds _ width W0 Ww') as I3.
      pose proof (int_of_Q_bounds _ height H0 Wh') as I4.
      eexists _, _. split; [reflexivity|].
      refine (conj I1 (conj I2 (conj (proj2 I3) (conj (proj2 I4) _)))).
      intros L1 L2. apply orb_true_iff in Ebig.
      destruct Ebig as [G|G]; apply Z.gtb_lt in G; lia.
    + apply orb_false_iff in Ebig. destruct Ebig as (G1 & G2).
      exists width, height. split; [reflexivity|].
      rewrite Z.gtb_ltb in G1, G2. apply Z.ltb_ge in G1, G2. lia.
  - intros -> Hh.
    assert (E : (height >? mh)%Z = true) by (apply Z.gtb_lt; lia).
    rewrite E, orb_true_r. reflexivity.
  - intros -> Hw.
    assert (E : (width >? mw)%Z = true) by (apply Z.gtb_lt; lia).
    rewrite E. cbn [orb]. rewrite orb_true_r. reflexivity.
Qed.

End ResizeFacts.

Lemma X14_resized_frame_fits_the_cap_witness :
  exists new_width new_height,
    PerformanceOptimizer.resized_shape
      (PerformanceOptimizer.__init__ (Data := string) 0) 1920 1080
    = Some (new_width, new_height)
    /\ (0 <= new_width <= 640)%Z /\ (0 <= new_height <= 480)%Z.
Proof.
  destruct (proj1 (X14_resized_frame_fits_the_cap
                     (PerformanceOptimizer.__init__ (Data := string) 0)
                     1920 1080))
    as (w & h & E & Hw & Hh & _); simpl; try lia.
  exists w, h. simpl in Hw, Hh. auto.
Defined.

(** *** WebSocket messages *)

Section WebSocketFacts.

Import PerformanceOptimizer.

Context {A : Type}.

Lemma str_take_length (n : nat) : forall s : string,
  String.length (str_take n s) = Nat.min n (String.length s).
Proof.
  induction n as [|n IH]; intros s; [reflexivity|].
  destruct s as [|c s]; [reflexivity|]. simpl. rewrite IH. reflexivity.
Qed.

Lemma str_take_all (n : nat) : forall s : string,
  (String.length s <= n)%nat -> str_take n s = s.
Proof.
  induction n as [|n IH]; intros s H.
  - destruct s; [reflexivity|]. simpl in H. lia.
  - destruct s as [|c s]; [reflexivity|]. simpl in *.
    rewrite IH by lia. reflexivity.
Qed.

Lemma str_take_idem (n : nat) (s : string) :
  str_take n (str_take n s) = str_take n s.
Proof. apply str_take_all. rewrite str_take_length. lia. Qed.

Lemma clip_field_key (item : string * Value A) :
  fst (clip_field item) = fst item.
Proof.
  destruct item as [k [|v|a]]; try reflexivity.
  unfold clip_field. destruct (String.eqb k "audio"); reflexivity.
Qed.

Lemma clip_field_present (item : string * Value A) :
  present (clip_field item) = present item.
Proof.
  destruct item as [k [|v|a]]; try reflexivity.
  unfold clip_field. destruct (String.eqb k "audio"); reflexivity.
Qed.

Lemma clip_field_idem (item : string * Value A) :
  clip_field (clip_field item) = clip_field item.
Proof.
  destruct item as [k [|v|a]]; try reflexivity.
  unfold clip_field. destruct (String.eqb k "audio") eqn:E; [|rewrite E; reflexivity].
  rewrite E, str_take_idem. reflexivity.
Qed.

Lemma optimize_field_new (optimized : list (string * Value A))
      (item : string * Value A) :
  ~ In (fst item) (keys optimized) ->
  optimize_field optimized item
  = optimized ++ (if present item then [clip_field item] else []).
Proof.
  destruct item as [k [|v|a]]; cbn [fst]; intros Hk.
  - simpl. rewrite app_nil_r. reflexivity.
  - unfold optimize_field, present, clip_field. cbn [snd].
    destruct (String.eqb k "audio").
    + destruct (Nat.ltb_spec audio_limit (String.length v)) as [L|L].
      * apply dict_set_new, Hk.
      * rewrite (str_take_all _ _ L). apply dict_set_new, Hk.
    + apply dict_set_new, Hk.
  - apply dict_set_new, Hk.
Qed.

Lemma optimize_loop (message : list (string * Value A)) :
  forall optimized : list (string * Value A),
    NoDup (keys message) ->
    (forall k, In k (keys message) -> ~ In k (keys optimized)) ->
    fold_left optimize_field message optimized
    = optimized ++ map clip_field (filter present message).
Proof.
  induction message as [|item message IH]; intros optimized Hnd Hd.
  - simpl. rewrite app_nil_r. reflexivity.
  - simpl in Hnd. inversion Hnd as [|? ? Hn Hnd']; subst.
    cbn [fold_left].
    rewrite optimize_field_new by (apply Hd; left; reflexivity).
    rewrite IH.
    + cbn [filter]. destruct (present item).
      * cbn [map]. rewrite <- app_assoc. reflexivity.
      * rewrite app_nil_r. reflexivity.
    + exact Hnd'.
    + intros k Hk. unfold keys. rewrite map_app, in_app_iff.
      intros [H|H].
      * apply (Hd k); [right; exact Hk | exact H].
      * destruct (present item); [|destruct H].
        simpl in H. destruct H as [H|[]].
        rewrite clip_field_key in H. subst k. apply Hn, Hk.
Qed.

Lemma optimize_websocket_message_eq (message : list (string * Value A)) :
  NoDup (keys message) ->
  optimize_websocket_message message
  = map clip_field (filter present message).
Proof.
  intros Hnd. unfold optimize_websocket_message.
  rewrite optimize_loop; [reflexivity | exact Hnd | intros k _ []].
Qed.

Lemma keys_clipped (l : list (string * Value A)) :
  keys (map clip_field l) = keys l.
Proof.
  unfold keys. rewrite map_map. apply map_ext, clip_field_key.
Qed.

Lemma keys_filter_In (p : string * Value A -> bool)
      (l : list (string * Value A)) (k : string) :
  In k (keys (filter p l)) -> In k (keys l).
Proof.
  unfold keys. rewrite !in_map_iff. intros (x & E & H).
  apply filter_In in H. exists x. tauto.
Qed.

Lemma keys_filter_NoDup (p : string * Value A -> bool)
      (l : list (string * Value A)) :
  NoDup (keys l) -> NoDup (keys (filter p l)).
Proof.
  induction l as [|x l IH]; intros H; [exact H|].
  simpl in H. inversion H as [|? ? Hn Hnd]; subst. simpl.
  destruct (p x); [|apply IH, Hnd].
  simpl. constructor; [|apply IH, Hnd].
  intros Hin. apply Hn. eapply keys_filter_In, Hin.
Qed.

Lemma clipped_lookup (k : string) (message : list (string * Value A)) :
  NoDup (keys message) ->
  dict_get k (map clip_field (filter present message))
  = match dict_get k message with
    | Some (VStr v) =>
        Some (VStr (if String.eqb k "audio" then str_take audio_limit v
                    else v))
    | Some (VOther a) => Some (VOther a)
    | _ => None
    end.
Proof.
  induction message as [|[k' v'] message IH]; intros Hnd; [reflexivity|].
  simpl in Hnd. inversion Hnd as [|? ? Hn Hnd']; subst.
  cbn [filter dict_get].
  destruct (String.eqb_spec k k') as [<-|Hne].
  - destruct v' as [|v|a]; unfold present; cbn [snd map].
    + apply dict_get_not_in. rewrite keys_clipped.
      intros Hin. apply Hn. eapply keys_filter_In, Hin.
    + unfold clip_field. destruct (String.eqb k "audio") eqn:E;
        cbn [dict_get]; rewrite String.eqb_refl; reflexivity.
    + cbn [clip_field dict_get]. rewrite String.eqb_refl. reflexivity.
  - rewrite <- (IH Hnd').
    destruct (present (k', v')); [|reflexivity].
    cbn [map dict_get].
    replace (clip_field (k', v')) with (k', snd (clip_field (k', v'))).
    + apply String.eqb_neq in Hne. rewrite Hne. reflexivity.
    + pose proof (clip_field_key (k', v')) as Hk.
      destruct (clip_field (k', v')) as [k1 v1]. simpl in Hk. subst k1.
      reflexivity.
Qed.

(** X15.  [optimize_websocket_message], on a message (a dict: its keys
    are distinct): the result holds the fields that are not [None], in
    the order of the message; a string under ["audio"] is cut to its
    first 50000 characters, every other value is the one given; no value
    of the result is [None]; and optimizing the result once more changes
    nothing. *)
Theorem X15_websocket_message_fields :
  forall message : list (string * Value A),
    NoDup (keys message) ->
    let optimized := optimize_websocket_message message in
    keys optimized = keys (filter present message)
    /\ (forall k,
           dict_get k optimized
           = match dict_get k message with
             | Some (VStr v) =>
                 Some (VStr (if String.eqb k "audio"
                             then str_take audio_limit v else v))
             | Some (VOther a) => Some (VOther a)
             | _ => None
             end)
    /\ (forall k, dict_get k optimized <> Some VNone)
    /\ (forall v, dict_get "audio" optimized = Some (VStr v) ->
                  (String.length v <= audio_limit)%nat)
    /\ (forall v, dict_get "audio" message = Some (VStr v) ->
                  (String.length v <= audio_limit)%nat ->
                  dict_get "audio" optimized = Some (VStr v))
    /\ optimize_websocket_message optimized = optimized.
Proof.
  intros message Hnd. cbv zeta.
  rewrite (optimize_websocket_message_eq _ Hnd).
  assert (L : forall k,
             dict_get k (map clip_field (filter present message))
             = match dict_get k message with
               | Some (VStr v) =>
                   Some (VStr (if String.eqb k "audio"
                               then str_take audio_limit v else v))
               | Some (VOther a) => Some (VOther a)
               | _ => None
               end)
    by (intros k; apply clipped_lookup, Hnd).
  refine (conj _ (conj L (conj _ (conj _ (conj _ _))))).
  - apply keys_clipped.
  - intros k. rewrite L.
    destruct (dict_get k message) as [[|v|a]|]; discriminate.
  - intros v. rewrite L.
    destruct (dict_get "audio" message) as [[|v0|a]|].
    + intros E. discriminate E.
    + rewrite String.eqb_refl.
      pose proof (str_take_length audio_limit v0) as Hl.
      remember (str_take audio_limit v0) as w.
      intros E. injection E as <-. lia.
    + intros E. discriminate E.
    + intros E. discriminate E.
  - intros v E Hl. rewrite L, E, String.eqb_refl, (str_take_all _ _ Hl).
    reflexivity.
  - rewrite optimize_websocket_message_eq.
    + assert (F : forall l : list (string * Value A),
                 filter present (map clip_field l)
                 = map clip_field (filter present l)).
      { induction l as [|x l IH]; [reflexivity|]. simpl.
        rewrite clip_field_present, IH. destruct (present x); reflexivity. }
      rewrite F, map_map.
      assert (G : forall l : list (string * Value A),
                 filter present (filter present l) = filter present l).
      { induction l as [|x l IH]; [reflexivity|]. simpl.
        destruct (present x) eqn:E; simpl; rewrite ?E, IH; reflexivity. }
      rewrite G. apply map_ext, clip_field_idem.
    + rewrite keys_clipped. apply keys_filter_NoDup, Hnd.
Qed.

End WebSocketFacts.

Lemma X15_websocket_message_fields_witness :
  let message :=
    [("type", PerformanceOptimizer.VStr "translation");
     ("audio", PerformanceOptimizer.VNone);
     ("confidence", PerformanceOptimizer.VOther 1%Z)] in
  keys (PerformanceOptimizer.optimize_websocket_message message)
  = ["type"; "confidence"].
Proof.
  intros message.
  assert (Hnd : NoDup (keys message)).
  { simpl. repeat constructor; simpl; intuition discriminate. }
  destruct (X15_websocket_message_fields message Hnd) as (H & _).
  exact H.
Defined.

(** *** Batches *)

Section BatchFacts.

Import PerformanceOptimizer.

Context {A B : Type}.

Lemma chunks_concat (n : nat) : forall l : list A,
  (length l <= batch_size * n)%nat ->
  concat (map (fun j => firstn batch_size (skipn (j * batch_size) l))
              (seq 0 n))
  = l.
Proof.
  induction n as [|n IH]; intros l H.
  - destruct l; [reflexivity|]. simpl in H. lia.
  - rewrite <- cons_seq, <- seq_shift. cbn [map concat]. rewrite map_map.
    change (0 * batch_size)%nat with 0%nat. cbn [skipn].
    transitivity (firstn batch_size l ++ skipn batch_size l);
      [|apply firstn_skipn].
    f_equal.
    etransitivity; [|apply (IH (skipn batch_size l))].
    + f_equal. apply map_ext. intros j.
      rewrite skipn_skipn.
      replace (j * batch_size + batch_size)%nat with (S j * batch_size)%nat
        by lia.
      reflexivity.
    + rewrite length_skipn. lia.
Qed.

Lemma batch_count (items : list A) :
  let n := ((length items + batch_size - 1) / batch_size)%nat in
  (length items <= batch_size * n)%nat
  /\ forall j, (j < n)%nat -> (j * batch_size < length items)%nat.
Proof.
  cbv zeta. unfold batch_size.
  pose proof (Nat.div_mod_eq (length items + 5 - 1) 5) as E.
  pose proof (Nat.mod_upper_bound (length items + 5 - 1) 5) as Hm.
  split; [lia|]. intros j Hj. lia.
Qed.

(** X16.  [optimize_batch_processing] returns the result of [processor]
    for every item, in the order of the items: the batches it awaits,
    put end to end, are the items, each batch holds between one and five
    of them, so nothing is dropped, repeated or reordered. *)
Theorem X16_batches_cover_the_items :
  forall (items : list A) (processor : A -> B),
    optimize_batch_processing items processor = map processor items
    /\ concat (batches items) = items
    /\ Forall (fun batch => (1 <= length batch <= 5)%nat) (batches items)
    /\ batches (@nil A) = [].
Proof.
  intros items processor.
  destruct (batch_count items) as (Hle & Hlt).
  assert (Hc : concat (batches items) = items).
  { unfold batches, batch_starts. rewrite map_map.
    apply chunks_concat, Hle. }
  refine (conj _ (conj Hc (conj _ _))).
  - unfold optimize_batch_processing.
    rewrite flat_map_concat_map, <- concat_map, Hc. reflexivity.
  - unfold batches, batch_starts. rewrite map_map.
    apply Forall_forall. intros batch Hin.
    apply in_map_iff in Hin. destruct Hin as (j & <- & Hj).
    apply in_seq in Hj.
    assert (Hj' : (j * batch_size < length items)%nat)
      by (apply Hlt; lia).
    rewrite length_firstn, length_skipn. unfold batch_size in *. lia.
  - reflexivity.
Qed.

End BatchFacts.

(** ** The ensemble translator: result cache, channels, adaptive weights *)

Section EnsembleTranslatorMore.

Import EnsembleTranslator.

Lemma tl_skipn_app {A} (x : A) : forall (l : list A) (k : nat),
  (k <= length l)%nat -> tl (skipn k l ++ [x]) = skipn (S k) (l ++ [x]).
Proof.
  induction l as [|y l IH]; intros k Hk.
  - simpl in Hk. replace k with 0%nat by lia. reflexivity.
  - destruct k as [|k]; [reflexivity|].
    simpl in Hk. cbn [skipn app]. apply IH. lia.
Qed.

(** Appending to the last [n] elements of [l] keeps the last [n] elements
    of [l] with the element added. *)
Lemma deque_append_skipn {A} (n : nat) (l : list A) (x : A) :
  deque_append n (skipn (length l - n) l) x
  = skipn (length (l ++ [x]) - n) (l ++ [x]).
Proof.
  unfold deque_append. rewrite !length_app, length_skipn. cbn [length].
  destruct (Nat.ltb_spec n (length l - (length l - n) + 1)) as [H|H].
  - replace (length l + 1 - n)%nat with (S (length l - n)) by lia.
    apply tl_skipn_app. lia.
  - replace (length l - n)%nat with 0%nat by lia.
    replace (length l + 1 - n)%nat with 0%nat by lia. reflexivity.
Qed.

Lemma update_weights_cache (self self' : t) (w : list (string * Q)) :
  update_ensemble_weights self w = Some self' ->
  results_cache self' = results_cache self.
Proof.
  unfold update_ensemble_weights. destruct w as [|kv w].
  - intros H. injection H as <-. reflexivity.
  - destruct (Qeq_bool _ 0); [discriminate|].
    intros H. injection H as <-. reflexivity.
Qed.

Lemma run_cache (ops : list Op) :
  forall (self : t) (fs : list Ensemble) (rs : list Result) (self' : t),
    results_cache self = skipn (length fs - 10) fs ->
    run self ops = Some (rs, self') ->
    results_cache self'
    = skipn (length (fs ++ fused_of rs) - 10) (fs ++ fused_of rs).
Proof.
  induction ops as [|[ps|w] ops IH]; intros self fs rs self' Hc Hrun.
  - simpl in Hrun. injection Hrun as <- <-. simpl. rewrite app_nil_r.
    exact Hc.
  - simpl in Hrun.
    destruct (_ensemble_predictions self ps) as [[r self1]|] eqn:Hf;
      [|discriminate].
    destruct (run self1 ops) as [[rs1 self2]|] eqn:Hr; [|discriminate].
    injection Hrun as <- <-.
    destruct (fusion_cases _ _ _ _ Hf) as (_ & _ & [H|[H|H]]).
    + destruct H as (_ & -> & ->). apply (IH self fs rs1 self2 Hc Hr).
    + destruct H as (p & _ & -> & _ & Hrc).
      apply (IH self1 fs rs1 self2); [|exact Hr]. rewrite Hrc. exact Hc.
    + destruct H as (e & ws & i & _ & -> & H).
      repeat match type of H with _ /\ _ => destruct H as (_ & H) end.
      cbn [fused_of flat_map]. change (flat_map _ rs1) with (fused_of rs1).
      change ([e] ++ fused_of rs1) with (e :: fused_of rs1).
      replace (fs ++ e :: fused_of rs1) with ((fs ++ [e]) ++ fused_of rs1)
        by (rewrite <- app_assoc; reflexivity).
      apply (IH self1 (fs ++ [e]) rs1 self2); [|exact Hr].
      rewrite H, Hc. apply deque_append_skipn.
  - simpl in Hrun.
    destruct (update_ensemble_weights self w) as [self1|] eqn:Hu;
      [|discriminate].
    apply (IH self1 fs rs self'); [|exact Hrun].
    rewrite (update_weights_cache _ _ _ Hu). exact Hc.
Qed.

(** X17.  [results_cache] holds the last ten two-model results, oldest
    first: after any trace of fusions and weight updates on a new
    translator it is the trace's fused results without all but the last
    ten; failures and single-model results are not cached. *)
Theorem X17_cache_keeps_last_ten_fusions :
  forall (vocab : VocabularyManager) (weights : option (list (string * Q)))
         (ops : list Op) (rs : list Result) (self' : t),
    run (__init__ vocab weights) ops = Some (rs, self') ->
    let fused := fused_of rs in
    results_cache self' = skipn (length fused - 10) fused
    /\ (length (results_cache self') <= 10)%nat
    /\ length (results_cache self') = Nat.min 10 (length fused).
Proof.
  intros vocab weights ops rs self' Hrun. cbv zeta.
  pose proof (run_cache ops (__init__ vocab weights) [] rs self' eq_refl Hrun)
    as H.
  simpl app in H. rewrite H, length_skipn.
  refine (conj eq_refl (conj _ _)); lia.
Qed.

End EnsembleTranslatorMore.

Lemma X17_cache_keeps_last_ten_fusions_witness :
  exists rs self',
    EnsembleTranslator.run (EnsembleTranslator.__init__ vocab0 None) trace0
    = Some (rs, self')
    /\ length (EnsembleTranslator.results_cache self') = 2%nat.
Proof.
  destruct (EnsembleTranslator.run (EnsembleTranslator.__init__ vocab0 None)
                                   trace0) as [[rs self']|] eqn:E.
  - exists rs, self'. split; [reflexivity|].
    destruct (X17_cache_keeps_last_ten_fusions vocab0 None trace0 rs self' E)
      as (_ & _ & H).
    rewrite H. vm_compute in E. injection E as <- _. reflexivity.
  - vm_compute in E. discriminate E.
Defined.

(** *** The two channels *)

Section ChannelFacts.

Import EnsembleTranslator.

Lemma no_valid_prediction (self : t) (predictions : list Prediction) :
  filter success predictions = [] ->
  _ensemble_predictions self predictions
  = Some (Failure "No valid predictions" "ensemble", self).
Proof. intros H. unfold _ensemble_predictions. rewrite H. reflexivity. Qed.

Lemma one_valid_prediction (self : t) (predictions : list Prediction)
      (p : Prediction) :
  filter success predictions = [p] ->
  model p = "i3d" \/ model p = "tgcn" ->
  exists self',
    _ensemble_predictions self predictions
    = Some (Single p "ensemble_single" [model p], self')
    /\ bump_only (model p) (stats self) = Some (stats self')
    /\ results_cache self' = results_cache self
    /\ ensemble_weights self' = ensemble_weights self.
Proof.
  intros H Hm. unfold _ensemble_predictions. rewrite H.
  destruct (bump_only (model p) (stats self)) as [s|] eqn:E.
  - eexists. split; [reflexivity|]. simpl. auto.
  - exfalso. unfold bump_only in E.
    destruct Hm as [Hm|Hm]; rewrite Hm in E; simpl in E; discriminate E.
Qed.

Lemma get_i3d_model {F} (inference : F -> option Prediction) (frames : F) :
  model (_get_i3d_prediction inference frames) = "i3d".
Proof. unfold _get_i3d_prediction. destruct (inference frames); reflexivity. Qed.

Lemma get_tgcn_model {P} (inference : P -> option Prediction) (poses : P) :
  model (_get_tgcn_prediction inference poses) = "tgcn".
Proof.
  unfold _get_tgcn_prediction. destruct (inference poses); reflexivity.
Qed.

Lemma get_i3d_raised {F} (inference : F -> option Prediction) (frames : F) :
  inference frames = None ->
  success (_get_i3d_prediction inference frames) = false.
Proof. unfold _get_i3d_prediction. intros ->. reflexivity. Qed.

Lemma get_tgcn_raised {P} (inference : P -> option Prediction) (poses : P) :
  inference poses = None ->
  success (_get_tgcn_prediction inference poses) = false.
Proof. unfold _get_tgcn_prediction. intros ->. reflexivity. Qed.

Lemma two_valid_predictions (self : t) (p1 p2 : Prediction) :
  success p1 = true -> success p2 = true ->
  model p1 = "i3d" -> model p2 = "tgcn" ->
  match _ensemble_predictions self [p1; p2] with
  | Some (Fused e, self') =>
      e_models_used e = ["i3d"; "tgcn"]
      /\ (e_agreement e = true <-> prediction p1 = prediction p2)
      /\ results_cache self' = deque_append 10 (results_cache self) e
  | Some _ => False
  | None =>
      length (probabilities p1) <> length (probabilities p2)
      \/ probabilities p1 = []
      \/ sum (values (ensemble_weights self)) == 0
  end.
Proof.
  intros H1 H2 M1 M2.
  assert (Hne : model p1 <> model p2) by (rewrite M1, M2; discriminate).
  destruct (_ensemble_predictions self [p1; p2]) as [[r self']|] eqn:E.
  - destruct (fusion_cases _ _ _ _ E) as (_ & _ & [H|[H|H]]).
    + destruct H as (H & _). simpl in H. rewrite H1 in H. discriminate H.
    + destruct H as (p & H & _). simpl in H. rewrite H1, H2 in H.
      discriminate H.
    + destruct H as (e & ws & i & _ & -> & H).
      pose proof (two_channel_results self p1 p2 e self' H1 H2 Hne E) as Hmr.
      destruct H as (_ & _ & _ & _ & _ & _ & Hag & Hmu & _ & _ & Hrc).
      rewrite Hmu, Hmr. cbn [keys map fst]. rewrite M1, M2.
      refine (conj eq_refl (conj _ Hrc)).
      rewrite Hag, Hmr. cbn [values map snd entry_of mr_prediction].
      unfold agree. cbn [nodup].
      destruct (in_dec Z.eq_dec (prediction p1) [prediction p2]) as [Hin|Hn].
      * destruct Hin as [Hin|[]]. cbn [nodup length]. split; auto.
      * cbn [nodup in_dec length]. split; [discriminate|].
        intros Heq. exfalso. apply Hn. left. auto.
  - destruct (Nat.eq_dec (length (probabilities p1))
                         (length (probabilities p2))) as [El|Nl];
      [|left; exact Nl].
    destruct (probabilities p1) as [|x l] eqn:Ep; [right; left; reflexivity|].
    destruct (Qeq_dec (sum (values (ensemble_weights self))) 0) as [Ez|Nz];
      [right; right; exact Ez|].
    exfalso.
    destruct (fusion_defined self [p1; p2] (length l)) as (r & self' & E').
    + intros p Hp. simpl in Hp. rewrite H1, H2 in Hp.
      destruct Hp as [<-|[<-|[]]].
      * split; [left; exact M1|]. rewrite Ep. reflexivity.
      * split; [right; exact M2|]. rewrite <- El. reflexivity.
    + exact Nz.
    + rewrite E in E'. discriminate E'.
Qed.

(** X18.  [get_ensemble_prediction] returns [None] exactly when neither
    buffer has a sequence.  A processor whose [inference] raises or
    reports no success counts as a missing prediction: with no valid
    prediction the result is the failure dict and the object is as
    before; with one, the result is that prediction as a single-model
    result of its channel, and the channel's counter goes up by one (the
    key error of the single-model branch cannot occur, the model names
    being set by the two wrappers).  With two valid predictions the call
    fuses the channels ['i3d'] and ['tgcn'], in agreement exactly when
    their labels are equal; it raises only when the two score vectors
    differ in length or are empty, or when the stored weights sum to
    zero. *)
Theorem X18_scorer_failures_are_contained :
  forall (F P : Type) (self : t)
         (i3d_inference : F -> option Prediction)
         (tgcn_inference : P -> option Prediction)
         (i3d_sequence : option F) (pose_sequence : option P),
    let call :=
      get_ensemble_prediction self i3d_inference tgcn_inference
                              i3d_sequence pose_sequence in
    let i3d := option_map (_get_i3d_prediction i3d_inference) i3d_sequence in
    let tgcn :=
      option_map (_get_tgcn_prediction tgcn_inference) pose_sequence in
    let ok (o : option Prediction) :=
      match o with Some p => success p | None => false end in
    (call = Some (None, self) <-> i3d_sequence = None /\ pose_sequence = None)
    /\ (forall frames, i3d_sequence = Some frames ->
                       i3d_inference frames = None -> ok i3d = false)
    /\ (forall poses, pose_sequence = Some poses ->
                      tgcn_inference poses = None -> ok tgcn = false)
    /\ (ok i3d = false -> ok tgcn = false ->
        i3d_sequence <> None \/ pose_sequence <> None ->
        call = Some (Some (Failure "No valid predictions" "ensemble"), self))
    /\ (forall p, i3d = Some p -> success p = true -> ok tgcn = false ->
        exists self',
          call = Some (Some (Single p "ensemble_single" ["i3d"]), self')
          /\ i3d_only (stats self') = (i3d_only (stats self) + 1)%Z
          /\ tgcn_only (stats self') = tgcn_only (stats self)
          /\ results_cache self' = results_cache self)
    /\ (forall p, tgcn = Some p -> success p = true -> ok i3d = false ->
        exists self',
          call = Some (Some (Single p "ensemble_single" ["tgcn"]), self')
          /\ tgcn_only (stats self') = (tgcn_only (stats self) + 1)%Z
          /\ i3d_only (stats self') = i3d_only (stats self)
          /\ results_cache self' = results_cache self)
    /\ (forall p1 p2, i3d = Some p1 -> tgcn = Some p2 ->
        success p1 = true -> success p2 = true ->
        match call with
        | Some (Some (Fused e), self') =>
            e_models_used e = ["i3d"; "tgcn"]
            /\ (e_agreement e = true <-> prediction p1 = prediction p2)
            /\ results_cache self' = deque_append 10 (results_cache self) e
        | Some _ => False
        | None =>
            length (probabilities p1) <> length (probabilities p2)
            \/ probabilities p1 = []
            \/ sum (values (ensemble_weights self)) == 0
        end).
Proof.
  intros F P self fi ft si sp. cbv zeta.
  refine (conj _ (conj _ (conj _ (conj _ (conj _ (conj _ _)))))).
  - split.
    + destruct si as [fr|], sp as [ps|]; auto;
        unfold get_ensemble_prediction; cbn [app];
        destruct (_ensemble_predictions _ _) as [[r s]|]; discriminate.
    + intros (-> & ->). reflexivity.
  - intros fr -> E. cbn [option_map]. apply get_i3d_raised, E.
  - intros ps -> E. cbn [option_map]. apply get_tgcn_raised, E.
  - intros H1 H2 Hs.
    destruct si as [fr|], sp as [ps|]; cbn [option_map] in H1, H2;
      unfold get_ensemble_prediction; cbn [app].
    + rewrite no_valid_prediction; [reflexivity|].
      simpl. rewrite H1, H2. reflexivity.
    + rewrite no_valid_prediction; [reflexivity|].
      simpl. rewrite H1. reflexivity.
    + rewrite no_valid_prediction; [reflexivity|].
      simpl. rewrite H2. reflexivity.
    + destruct Hs as [Hs|Hs]; contradiction.
  - intros p Hp Hok H2.
    destruct si as [fr|]; [|discriminate Hp].
    cbn [option_map] in Hp. injection Hp as Hp.
    pose proof (get_i3d_model fi fr) as Hm. rewrite Hp in Hm.
    assert (Hex : exists self',
               _ensemble_predictions self
                 (match sp with
                  | Some ps => [p; _get_tgcn_prediction ft ps]
                  | None => [p]
                  end)
               = Some (Single p "ensemble_single" [model p], self')
               /\ bump_only (model p) (stats self) = Some (stats self')
               /\ results_cache self' = results_cache self
               /\ ensemble_weights self' = ensemble_weights self).
    { apply one_valid_prediction; [|left; exact Hm].
      destruct sp as [ps|]; cbn [option_map] in H2; simpl;
        rewrite Hok, ?H2; reflexivity. }
    destruct Hex as (self' & E & Hb & Hrc & _).
    exists self'. rewrite Hm in E, Hb.
    unfold bump_only in Hb. simpl in Hb. injection Hb as Hb.
    rewrite <- Hb. cbn [i3d_only tgcn_only].
    refine (conj _ (conj eq_refl (conj eq_refl Hrc))).
    unfold get_ensemble_prediction. rewrite Hp.
    destruct sp as [ps|]; cbn [app]; rewrite E; reflexivity.
  - intros p Hp Hok H1.
    destruct sp as [ps|]; [|discriminate Hp].
    cbn [option_map] in Hp. injection Hp as Hp.
    pose proof (get_tgcn_model ft ps) as Hm. rewrite Hp in Hm.
    assert (Hex : exists self',
               _ensemble_predictions self
                 (match si with
                  | Some fr => [_get_i3d_prediction fi fr; p]
                  | None => [p]
                  end)
               = Some (Single p "ensemble_single" [model p], self')
               /\ bump_only (model p) (stats self) = Some (stats self')
               /\ results_cache self' = results_cache self
               /\ ensemble_weights self' = ensemble_weights self).
    { apply one_valid_prediction; [|right; exact Hm].
      destruct si as [fr|]; cbn [option_map] in H1; simpl;
        rewrite Hok, ?H1; reflexivity. }
    destruct Hex as (self' & E & Hb & Hrc & _).
    exists self'. rewrite Hm in E, Hb.
    unfold bump_only in Hb. simpl in Hb. injection Hb as Hb.
    rewrite <- Hb. cbn [i3d_only tgcn_only].
    refine (conj _ (conj eq_refl (conj eq_refl Hrc))).
    unfold get_ensemble_prediction. rewrite Hp.
    destruct si as [fr|]; cbn [app]; rewrite E; reflexivity.
  - intros p1 p2 Hp1 Hp2 H1 H2.
    destruct si as [fr|]; [|discriminate Hp1].
    destruct sp as [ps|]; [|discriminate Hp2].
    cbn [option_map] in Hp1, Hp2. injection Hp1 as Hp1. injection Hp2 as Hp2.
    pose proof (get_i3d_model fi fr) as M1. rewrite Hp1 in M1.
    pose proof (get_tgcn_model ft ps) as M2. rewrite Hp2 in M2.
    pose proof (two_valid_predictions self p1 p2 H1 H2 M1 M2) as H.
    unfold get_ensemble_prediction. rewrite Hp1, Hp2. cbn [app].
    destruct (_ensemble_predictions self [p1; p2]) as [[[| |e] self']|];
      exact H.
Qed.

End ChannelFacts.

Lemma X18_scorer_failures_are_contained_witness :
  exists self',
    EnsembleTranslator.get_ensemble_prediction
      (EnsembleTranslator.__init__ vocab0 None)
      (fun _ : unit => Some pred_i3d) (fun _ : unit => None)
      (Some tt) (Some tt)
    = Some (Some (EnsembleTranslator.Single pred_i3d "ensemble_single"
                                            ["i3d"]), self')
    /\ EnsembleTranslator.i3d_only (EnsembleTranslator.stats self') = 1%Z.
Proof.
  destruct (X18_scorer_failures_are_contained
              unit unit (EnsembleTranslator.__init__ vocab0 None)
              (fun _ => Some pred_i3d) (fun _ => None) (Some tt) (Some tt))
    as (_ & _ & _ & _ & H & _).
  destruct (H pred_i3d eq_refl eq_refl eq_refl) as (self' & E & Hi & _).
  exists self'. split; [exact E | exact Hi].
Defined.

(** *** Adaptive weights *)

Section AdaptiveWeightsFacts.

Import EnsembleTranslator.

Lemma collect_none (entries : list (string * ModelResult)) :
  fold_left collect entries None = None.
Proof. induction entries as [|en entries IH]; [reflexivity|exact IH]. Qed.

Lemma collect_loop (entries : list (string * ModelResult)) :
  forall i3d tgcn,
    fold_left collect entries (Some (i3d, tgcn)) = None
    <-> Exists (fun en => fst en <> "i3d" /\ fst en <> "tgcn") entries.
Proof.
  induction entries as [|en entries IH]; intros i3d tgcn.
  - simpl. split; [discriminate|]. intros H. inversion H.
  - cbn [fold_left collect].
    destruct (String.eqb_spec (fst en) "i3d") as [E1|N1].
    + rewrite IH. split; [intros H; right; exact H|].
      intros H. inversion H as [? ? (C & _)|? ? H']; subst;
        [contradiction|exact H'].
    + destruct (String.eqb_spec (fst en) "tgcn") as [E2|N2].
      * rewrite IH. split; [intros H; right; exact H|].
        intros H. inversion H as [? ? (_ & C)|? ? H']; subst;
          [contradiction|exact H'].
      * rewrite collect_none. split; [|reflexivity].
        intros _. left. split; assumption.
Qed.

Lemma collect_results (cache : list Ensemble) :
  forall acc,
    fold_left (fun acc result =>
                 fold_left collect (e_model_results result) acc) cache acc
    = fold_left collect (flat_map e_model_results cache) acc.
Proof.
  induction cache as [|e cache IH]; intros acc; [reflexivity|].
  cbn [fold_left flat_map]. rewrite fold_left_app. apply IH.
Qed.

Lemma pair_normalized (a b : Q) :
  0 < sum [a; b] ->
  sum (values (map (fun kv : string * Q => (fst kv, snd kv / sum [a; b]))
                   [("i3d", a); ("tgcn", b)])) == 1.
Proof.
  unfold sum. cbn [fold_left values map fst snd]. intros H. field. lra.
Qed.

(** X19.  [get_adaptive_weights]: with fewer than five cached results it
    returns the stored weights as they are; from five on it does not read
    them: it returns weights for ['i3d'] and ['tgcn'], in this order,
    that sum to 1 unless their sum before the division is not positive,
    and it raises exactly when a cached result has a model result under
    another name.  [clear_buffers] empties the cache, so that the stored
    weights are returned again, and keeps the statistics. *)
Theorem X19_adaptive_weights :
  forall self : t,
    ((length (results_cache self) < 5)%nat ->
     get_adaptive_weights self = Some (ensemble_weights self))
    /\ ((5 <= length (results_cache self))%nat ->
        (forall weights,
            get_adaptive_weights
              (mk (vocabulary self) weights (results_cache self) (stats self))
            = get_adaptive_weights self)
        /\ (forall w, get_adaptive_weights self = Some w ->
                      keys w = ["i3d"; "tgcn"]
                      /\ (sum (values w) == 1 \/ sum (values w) <= 0))
        /\ (get_adaptive_weights self = None <->
            exists e m,
              In e (results_cache self)
              /\ In m (keys (e_model_results e))
              /\ m <> "i3d" /\ m <> "tgcn"))
    /\ results_cache (clear_buffers self) = []
    /\ get_adaptive_weights (clear_buffers self) = Some (ensemble_weights self)
    /\ stats (clear_buffers self) = stats self.
Proof.
  intros self.
  refine (conj _ (conj _ (conj eq_refl (conj eq_refl eq_refl)))).
  - intros H. unfold get_adaptive_weights.
    apply Nat.ltb_lt in H. rewrite H. reflexivity.
  - intros H.
    assert (Hlt : (length (results_cache self) <? 5)%nat = false)
      by (apply Nat.ltb_ge; exact H).
    refine (conj _ (conj _ _)).
    + intros weights. unfold get_adaptive_weights. cbn [results_cache].
      rewrite Hlt. reflexivity.
    + intros w. unfold get_adaptive_weights. rewrite Hlt.
      destruct (fold_left _ (results_cache self) (Some ([], [])))
        as [[i3d tgcn]|]; [|discriminate].
      cbv zeta. cbn [values map snd].
      destruct (Qgtb (sum [avg_conf i3d; avg_conf tgcn]) 0) eqn:E;
        intros Hw; injection Hw as <-.
      * split; [reflexivity|]. left.
        apply Qgtb_gt in E. apply (pair_normalized _ _ E).
      * split; [reflexivity|]. right.
        apply Qgtb_le in E. exact E.
    + unfold get_adaptive_weights. rewrite Hlt, collect_results.
      destruct (fold_left collect (flat_map e_model_results
                                            (results_cache self))
                          (Some ([], []))) as [[i3d tgcn]|] eqn:E.
      * split.
        -- destruct (Qgtb _ 0); discriminate.
        -- intros (e & m & He & Hm & N1 & N2). exfalso.
           assert (C : fold_left collect
                         (flat_map e_model_results (results_cache self))
                         (Some ([], [])) = None).
           { apply collect_loop. apply Exists_exists.
             unfold keys in Hm. apply in_map_iff in Hm.
             destruct Hm as (en & <- & Hen).
             exists en. split; [|split; assumption].
             apply in_flat_map. exists e. split; assumption. }
           rewrite E in C. discriminate C.
      * split; [|reflexivity]. intros _.
        apply collect_loop in E. apply Exists_exists in E.
        destruct E as (en & Hen & N1 & N2).
        apply in_flat_map in Hen. destruct Hen as (e & He & Hen).
        exists e, (fst en). refine (conj He (conj _ (conj N1 N2))).
        unfold keys. apply in_map. exact Hen.
Qed.

End AdaptiveWeightsFacts.

Lemma X19_adaptive_weights_witness :
  exists rs self w,
    EnsembleTranslator.run
      (EnsembleTranslator.__init__ vocab0 None)
      (repeat (EnsembleTranslator.Fuse [pred_i3d; pred_tgcn]) 5)
    = Some (rs, self)
    /\ EnsembleTranslator.get_adaptive_weights self = Some w
    /\ keys w = ["i3d"; "tgcn"].
Proof.
  destruct (EnsembleTranslator.run
              (EnsembleTranslator.__init__ vocab0 None)
              (repeat (EnsembleTranslator.Fuse [pred_i3d; pred_tgcn]) 5))
    as [[rs self]|] eqn:E; [|vm_compute in E; discriminate E].
  assert (L : (5 <= length (EnsembleTranslator.results_cache self))%nat).
  { vm_compute in E. injection E as _ <-. simpl. lia. }
  destruct (proj1 (proj2 (X19_adaptive_weights self)) L) as (_ & H & _).
  destruct (EnsembleTranslator.get_adaptive_weights self) as [w|] eqn:G.
  - exists rs, self, w. destruct (H w eq_refl) as (K & _). auto.
  - exfalso. vm_compute in E. injection E as _ <-.
    vm_compute in G. discriminate G.
Defined.

(** *** The fused scores *)

Section FusedScoresFacts.

Import EnsembleTranslator.

Lemma sum_scale (l : list Q) (w : Q) : sum (scale l w) == sum l * w.
Proof.
  induction l as [|x l IH].
  - unfold sum. simpl. ring.
  - unfold scale in *. cbn [map]. rewrite !sum_cons, IH. ring.
Qed.

Lemma sum_vec_add (a : list Q) : forall b c,
  vec_add a b = Some c -> sum c == sum a + sum b.
Proof.
  induction a as [|x a IH]; intros [|y b] c H; simpl in H;
    try discriminate H.
  - injection H as <-. unfold sum. simpl. ring.
  - destruct (vec_add a b) as [c'|] eqn:E; [|discriminate H].
    injection H as <-. rewrite !sum_cons, (IH b c' E). ring.
Qed.

Lemma convex_bounds (a b w1 w2 total : Q) :
  0 <= a <= 1 -> 0 <= b <= 1 -> 0 < w1 -> 0 < w2 -> w1 + w2 == total ->
  0 <= (a * w1 + b * w2) / total <= 1.
Proof.
  intros (A0 & A1) (B0 & B1) W1 W2 Ht.
  assert (Tp : 0 < total) by lra.
  assert (P1 : 0 <= a * w1) by (apply Qmult_le_0_compat; lra).
  assert (P2 : 0 <= b * w2) by (apply Qmult_le_0_compat; lra).
  assert (Q1 : a * w1 <= 1 * w1) by (apply Qmult_le_compat_r; lra).
  assert (Q2 : b * w2 <= 1 * w2) by (apply Qmult_le_compat_r; lra).
  split.
  - apply Qle_shift_div_l; [exact Tp|]. lra.
  - apply Qle_shift_div_r; [exact Tp|]. lra.
Qed.

(** X20.  The fused score vector of two channels sums to the weighted sum
    of the sums of the two score vectors over the sum of all the stored
    weights.  Hence, when each channel's scores sum to 1 and the stored
    weights are those of the two channels, the fused scores sum to 1;
    and when moreover the two weights are positive and every score is
    between 0 and 1, so is every fused score, the confidence of the
    result among them. *)
Theorem X20_fused_scores_form_a_distribution :
  forall (self : t) (p1 p2 : Prediction) (e : Ensemble) (self' : t),
    success p1 = true -> success p2 = true ->
    _ensemble_predictions self [p1; p2] = Some (Fused e, self') ->
    let weights := ensemble_weights self in
    let w1 := weight_of weights (model p1) in
    let w2 := weight_of weights (model p2) in
    let total := sum (values weights) in
    sum (e_probabilities e)
    == (sum (probabilities p1) * w1 + sum (probabilities p2) * w2) / total
    /\ (sum (probabilities p1) == 1 -> sum (probabilities p2) == 1 ->
        w1 + w2 == total ->
        sum (e_probabilities e) == 1)
    /\ (0 < w1 -> 0 < w2 -> w1 + w2 == total ->
        (forall x, In x (probabilities p1) -> 0 <= x <= 1) ->
        (forall x, In x (probabilities p2) -> 0 <= x <= 1) ->
        (forall x, In x (e_probabilities e) -> 0 <= x <= 1)
        /\ In (e_confidence e) (e_probabilities e)).
Proof.
  intros self p1 p2 e self' H1 H2 Hf. cbv zeta.
  assert (Hsum :
    sum (e_probabilities e)
    == (sum (probabilities p1) * weight_of (ensemble_weights self) (model p1)
        + sum (probabilities p2)
          * weight_of (ensemble_weights self) (model p2))
       / sum (values (ensemble_weights self))).
  { destruct (fusion_cases _ _ _ _ Hf) as (_ & _ & [H|[H|H]]).
    - destruct H as (_ & H & _). discriminate H.
    - destruct H as (p & _ & H & _). discriminate H.
    - destruct H as (e' & ws & i & _ & He & Hfold & Hnz & Hp & _).
      injection He as <-. simpl in Hfold. rewrite H1, H2 in Hfold.
      cbn [fold_left] in Hfold. rewrite !accumulate_step in Hfold.
      destruct (vec_add _ _) as [c|] eqn:Hc; [|discriminate].
      injection Hfold as <- _.
      rewrite Hp, sum_map_div, (sum_vec_add _ _ _ Hc), !sum_scale.
      reflexivity. }
  destruct (fused_probabilities self p1 p2 e self' H1 H2 Hf)
    as (Hnz & Hl & Hl2 & Hn).
  cbv zeta in Hnz, Hn.
  refine (conj Hsum (conj _ _)).
  - intros S1 S2 Ht. rewrite Hsum, S1, S2, <- Ht. field.
    rewrite Ht. exact Hnz.
  - intros W1 W2 Ht B1 B2. split.
    + intros x Hx. apply (In_nth _ _ 0) in Hx.
      destruct Hx as (j & Hj & <-). rewrite Hl in Hj.
      rewrite (Hn j Hj). apply convex_bounds; try assumption.
      * apply B1, nth_In. exact Hj.
      * apply B2, nth_In. rewrite Hl2. exact Hj.
    + destruct (fusion_cases _ _ _ _ Hf) as (_ & _ & [H|[H|H]]).
      * destruct H as (_ & H & _). discriminate H.
      * destruct H as (p & _ & H & _). discriminate H.
      * destruct H as (e' & ws & i & _ & He & _ & _ & _ & Ha & _ & Hc & _).
        injection He as <-. rewrite Hc.
        apply nth_In. apply argmax_first_max in Ha. apply Ha.
Qed.

End FusedScoresFacts.

Lemma X20_fused_scores_form_a_distribution_witness :
  exists e self',
    EnsembleTranslator._ensemble_predictions
      (EnsembleTranslator.__init__ vocab0 None) [pred_i3d; pred_tgcn]
    = Some (EnsembleTranslator.Fused e, self')
    /\ sum (EnsembleTranslator.e_probabilities e) == 1.
Proof.
  destruct (EnsembleTranslator._ensemble_predictions
              (EnsembleTranslator.__init__ vocab0 None) [pred_i3d; pred_tgcn])
    as [[[| |e] self']|] eqn:E; try (vm_compute in E; discriminate E).
  exists e, self'. split; [reflexivity|].
  destruct (X20_fused_scores_form_a_distribution
              (EnsembleTranslator.__init__ vocab0 None)
              pred_i3d pred_tgcn e self' eq_refl eq_refl E) as (_ & H & _).
  apply H; vm_compute; reflexivity.
Defined.

(** ** The callers: what the server's calls can reach *)

Section ResetFacts.

Import ModeManager.

Lemma apply_op_config (self : t) (op : Op) :
  mode_switch_cooldown (apply_op self op) = mode_switch_cooldown self
  /\ audio_level_threshold (apply_op self op) = audio_level_threshold self
  /\ motion_level_threshold (apply_op self op) = motion_level_threshold self
  /\ buffer_size (apply_op self op) = buffer_size self.
Proof.
  destruct op as [e|mode now|now]; cbn [apply_op].
  - apply detect_config.
  - simpl. tauto.
  - simpl. tauto.
Qed.

Lemma exec_config (ops : list Op) : forall self : t,
  mode_switch_cooldown (exec self ops) = mode_switch_cooldown self
  /\ audio_level_threshold (exec self ops) = audio_level_threshold self
  /\ motion_level_threshold (exec self ops) = motion_level_threshold self
  /\ buffer_size (exec self ops) = buffer_size self.
Proof.
  induction ops as [|op ops IH]; intros self; [simpl; tauto|].
  unfold exec in *. cbn [fold_left].
  destruct (IH (apply_op self op)) as (H1 & H2 & H3 & H4).
  destruct (apply_op_config self op) as (G1 & G2 & G3 & G4).
  rewrite H1, H2, H3, H4. tauto.
Qed.

(** X21.  [reset] gives a new manager: whatever calls of
    [detect_active_mode], [set_mode] and [reset] were made since
    [__init__], the object after [reset] is the one [__init__] builds at
    that time, and so are the modes it returns from then on; no call
    changes the thresholds, the cooldown or the buffer size. *)
Theorem X21_reset_gives_a_new_manager :
  forall (t0 : Q) (ops : list Op) (now : Q),
    let self := exec (__init__ t0) ops in
    reset self now = __init__ now
    /\ (forall es, run (reset self now) es = run (__init__ now) es)
    /\ audio_level_threshold self = 1 # 10
    /\ motion_level_threshold self = 2 # 10
    /\ mode_switch_cooldown self = 1
    /\ buffer_size self = 10%nat.
Proof.
  intros t0 ops now. cbv zeta.
  destruct (exec_config ops (__init__ t0)) as (H1 & H2 & H3 & H4).
  assert (E : reset (exec (__init__ t0) ops) now = __init__ now).
  { unfold reset, set_mode. rewrite H1, H2, H3, H4. reflexivity. }
  refine (conj E (conj _ (conj H2 (conj H3 (conj H1 H4))))).
  intros es. rewrite E. reflexivity.
Qed.

End ResetFacts.

Section ServerCallsFacts.

Import PerformanceOptimizer.

Context {Data : Type}.

Lemma auto_adjust_metrics (self : t Data) :
  metrics (auto_adjust_quality self) = metrics self.
Proof. reflexivity. Qed.

Lemma measure_latency_other (self : t Data) (st : Q) (name k : string)
      (now : Q) :
  name <> k ->
  dict_get k (metrics (snd (measure_latency self st name now)))
  = dict_get k (metrics self).
Proof.
  intros Hne. unfold measure_latency.
  destruct (dict_get name (metrics self)) as [dq|]; [|reflexivity].
  cbn [snd metrics set_metrics]. apply dict_get_set_other.
  intros E. apply Hne. symmetry. exact E.
Qed.

Lemma call_quiet_metrics (self : t Data) (c : Call Data) (k : string) :
  k = "video_latency" \/ k = "audio_latency" ->
  records_latency c = false ->
  dict_get k (metrics (call self c)) = dict_get k (metrics self).
Proof.
  intros Hk Hc.
  destruct c as [st n now|ct| |g|g d|st now|st now]; cbn [call].
  - apply measure_latency_other. simpl in Hc.
    apply orb_false_iff in Hc. destruct Hc as (N1 & N2).
    apply String.eqb_neq in N1, N2. destruct Hk as [->| ->]; assumption.
  - unfold should_skip_frame.
    destruct (negb _); [reflexivity|]. destruct (Qgtb _ _); reflexivity.
  - reflexivity.
  - unfold get_cached_gesture. destruct (dict_get g (lru self)); reflexivity.
  - unfold cache_gesture. destruct (enable_caching _); [|reflexivity].
    destruct (_ <? _)%nat; reflexivity.
  - unfold optimize_video_frame. apply measure_latency_other.
    destruct Hk as [->| ->]; discriminate.
  - unfold optimize_audio_chunk. destruct (negb _); [reflexivity|].
    apply measure_latency_other. destruct Hk as [->| ->]; discriminate.
Qed.

Lemma quiet_adjust (self : t Data) :
  NoDup (keys (metrics self)) ->
  dict_get "video_latency" (metrics self) = Some [] ->
  dict_get "audio_latency" (metrics self) = Some [] ->
  optimization_settings (auto_adjust_quality self)
  = optimization_settings self.
Proof.
  intros Hnd Hv Ha. unfold auto_adjust_quality, get_performance_stats.
  rewrite !(stats_lookup _ _ Hnd), Hv, Ha.
  change (Qgtb 0 100) with false. change (Qgtb 0 50) with false.
  cbv iota zeta. destruct self as [m f a l fc s c lr]. reflexivity.
Qed.

Lemma calls_quiet (cs : list (Call Data)) : forall self : t Data,
  NoDup (keys (metrics self)) ->
  dict_get "video_latency" (metrics self) = Some [] ->
  dict_get "audio_latency" (metrics self) = Some [] ->
  Forall (fun c => records_latency c = false) cs ->
  dict_get "video_latency" (metrics (calls self cs)) = Some []
  /\ dict_get "audio_latency" (metrics (calls self cs)) = Some []
  /\ optimization_settings (calls self cs) = optimization_settings self.
Proof.
  induction cs as [|c cs IH]; intros self Hnd Hv Ha Hq; [simpl; auto|].
  inversion Hq as [|? ? Hc Hq']; subst.
  unfold calls in *. cbn [fold_left].
  destruct (IH (call self c)) as (G1 & G2 & G3).
  - rewrite call_metric_keys. exact Hnd.
  - rewrite call_quiet_metrics; auto.
  - rewrite call_quiet_metrics; auto.
  - exact Hq'.
  - refine (conj G1 (conj G2 _)). rewrite G3.
    destruct c; try (apply call_settings; discriminate).
    cbn [call]. apply quiet_adjust; assumption.
Qed.

(** X22.  The server records latencies under ["translation_latency"],
    ["video_processing_time"] and ["audio_processing_time"] only.  As
    long as no call of [measure_latency] names ["video_latency"] or
    ["audio_latency"], these two windows stay empty, so that
    [auto_adjust_quality], whenever it is called, changes nothing: the
    settings stay those of [__init__], and the recommendations never
    hold the advice on video resolution or on audio sample rate. *)
Theorem X22_server_calls_never_adjust_quality :
  forall (now : Q) (cs : list (Call Data)) (t1 : Q),
    Forall (fun c => records_latency c = false) cs ->
    let self := calls (__init__ now) cs in
    dict_get "video_latency" (metrics self) = Some []
    /\ dict_get "audio_latency" (metrics self) = Some []
    /\ optimization_settings self = optimization_settings (__init__ (Data := Data) now)
    /\ optimization_settings (auto_adjust_quality self)
       = optimization_settings (__init__ (Data := Data) now)
    /\ ~ In "Consider reducing video resolution or frame rate"
            (get_optimization_recommendations self t1)
    /\ ~ In "Consider reducing audio sample rate or buffer size"
            (get_optimization_recommendations self t1).
Proof.
  intros now cs t1 Hq. cbv zeta.
  destruct (calls_quiet cs (__init__ now) (init_metric_keys now)
                        eq_refl eq_refl Hq) as (Hv & Ha & Hs).
  assert (Hnd : NoDup (keys (metrics (calls (__init__ now) cs)))).
  { rewrite calls_metric_keys. apply init_metric_keys. }
  destruct (recommendations_cases (calls (__init__ now) cs) t1)
    as (Rv & Ra & _).
  cbv zeta in Rv, Ra. unfold get_performance_stats in Rv, Ra.
  rewrite (stats_lookup _ _ Hnd), Hv in Rv.
  rewrite (stats_lookup _ _ Hnd), Ha in Ra.
  refine (conj Hv (conj Ha (conj Hs (conj _ (conj _ _))))).
  - rewrite (quiet_adjust _ Hnd Hv Ha). exact Hs.
  - rewrite Rv. intros H. revert H. apply Qle_not_lt. discriminate.
  - rewrite Ra. intros H. revert H. apply Qle_not_lt. discriminate.
Qed.

End ServerCallsFacts.

Lemma X22_server_calls_never_adjust_quality_witness :
  PerformanceOptimizer.optimization_settings
    (PerformanceOptimizer.auto_adjust_quality
       (PerformanceOptimizer.calls
          (PerformanceOptimizer.__init__ (Data := string) 0)
          [PerformanceOptimizer.OptimizeVideoFrame 0 1;
           PerformanceOptimizer.MeasureLatency 0 "translation_latency" 1;
           PerformanceOptimizer.AutoAdjustQuality]))
  = PerformanceOptimizer.optimization_settings
      (PerformanceOptimizer.__init__ (Data := string) 0).
Proof.
  apply (X22_server_calls_never_adjust_quality (Data := string) 0
           [PerformanceOptimizer.OptimizeVideoFrame 0 1;
            PerformanceOptimizer.MeasureLatency 0 "translation_latency" 1;
            PerformanceOptimizer.AutoAdjustQuality] 0).
  repeat constructor.
Defined.

(** ** The translation engine: context, history, fallbacks *)

Section TranslationEngineFacts.

Import TranslationEngine.

Context {Translation : Type}.

Lemma string_length_append (s1 s2 : string) :
  String.length (String.append s1 s2)
  = (String.length s1 + String.length s2)%nat.
Proof. induction s1 as [|c s1 IH]; simpl; [reflexivity|]. rewrite IH. reflexivity. Qed.

Lemma update_context_window (self : t Translation)
      (input_type content now : string) :
  context_window (_update_context self input_type content now)
  = deque_append (max_context_size self) (context_window self)
                 (mkContextEntry input_type content now)
  /\ max_context_size (_update_context self input_type content now)
     = max_context_size self
  /\ translation_history (_update_context self input_type content now)
     = translation_history self.
Proof. repeat split. Qed.

Lemma add_to_history_window (self : t Translation) (r : Translation) :
  translation_history (_add_to_history self r)
  = deque_append 100 (translation_history self) r
  /\ max_context_size (_add_to_history self r) = max_context_size self
  /\ context_window (_add_to_history self r) = context_window self.
Proof. repeat split. Qed.

Lemma exec_windows (ops : list (Op Translation)) :
  forall (self : t Translation) (es : list ContextEntry)
         (rs : list Translation),
    context_window self = skipn (length es - max_context_size self) es ->
    translation_history self = skipn (length rs - 100) rs ->
    let self' := exec self ops in
    max_context_size self' = max_context_size self
    /\ context_window self'
       = skipn (length (entries_of es ops) - max_context_size self)
               (entries_of es ops)
    /\ translation_history self'
       = skipn (length (results_of rs ops) - 100) (results_of rs ops).
Proof.
  induction ops as [|[ty c now|r|] ops IH]; intros self es rs Hc Hh;
    cbv zeta.
  - simpl. auto.
  - unfold exec in *. cbn [fold_left apply_op entries_of results_of].
    destruct (update_context_window self ty c now) as (E1 & E2 & E3).
    specialize (IH (_update_context self ty c now)
                   (es ++ [mkContextEntry ty c now]) rs).
    cbv zeta in IH. rewrite E2 in IH. apply IH.
    + rewrite E1, Hc. apply deque_append_skipn.
    + rewrite E3. exact Hh.
  - unfold exec in *. cbn [fold_left apply_op entries_of results_of].
    destruct (add_to_history_window self r) as (E1 & E2 & E3).
    specialize (IH (_add_to_history self r) es (rs ++ [r])).
    cbv zeta in IH. rewrite E2 in IH. apply IH.
    + rewrite E3. exact Hc.
    + rewrite E1, Hh. apply deque_append_skipn.
  - unfold exec in *. cbn [fold_left apply_op entries_of results_of].
    specialize (IH (clear_context self) [] []).
    cbv zeta in IH. cbn [clear_context max_context_size] in IH.
    apply IH; reflexivity.
Qed.

Lemma summary_length (entry : ContextEntry) :
  (String.length (snd (summary_of entry)) <= 53)%nat
  /\ ((String.length (content entry) <= 50)%nat ->
      summary_of entry = (entry_type entry, content entry)).
Proof.
  unfold summary_of. cbn [snd].
  destruct (Nat.ltb_spec 50 (String.length (content entry))) as [H|H].
  - split; [|lia].
    rewrite string_length_append, str_take_length.
    change (String.length "...") with 3%nat. lia.
  - split; [lia|reflexivity].
Qed.

(** X23.  The context window of the translation engine holds the last
    five entries added by [_update_context] since [__init__] or the last
    [clear_context], oldest first; [_get_context_summary] describes the
    last three of them, in order, each with a content of at most 53
    characters, the content itself when it has at most 50. *)
Theorem X23_context_window_and_summary :
  forall ops : list (Op Translation),
    let self := exec __init__ ops in
    let entries := entries_of [] ops in
    context_window self = skipn (length entries - 5) entries
    /\ _get_context_summary self
       = map summary_of (skipn (length entries - 3) entries)
    /\ (length (_get_context_summary self) <= 3)%nat
    /\ Forall (fun s => (String.length (snd s) <= 53)%nat)
              (_get_context_summary self)
    /\ Forall (fun entry =>
                 (String.length (content entry) <= 50)%nat ->
                 In (entry_type entry, content entry)
                    (_get_context_summary self))
              (skipn (length entries - 3) entries).
Proof.
  intros ops. cbv zeta.
  destruct (exec_windows ops __init__ [] [] eq_refl eq_refl) as (_ & Hc & _).
  cbv zeta in Hc. cbn [max_context_size __init__] in Hc.
  assert (Hs : _get_context_summary (exec __init__ ops)
               = map summary_of
                     (skipn (length (entries_of [] ops) - 3)
                            (entries_of [] ops))).
  { unfold _get_context_summary. rewrite Hc, skipn_skipn, length_skipn.
    f_equal. f_equal. lia. }
  refine (conj Hc (conj Hs (conj _ (conj _ _)))).
  - rewrite Hs, length_map, length_skipn. lia.
  - rewrite Hs. apply Forall_forall. intros s Hin.
    apply in_map_iff in Hin. destruct Hin as (entry & <- & _).
    apply summary_length.
  - rewrite Hs. apply Forall_forall. intros entry Hin Hl.
    apply in_map_iff. exists entry. split; [|exact Hin].
    apply summary_length, Hl.
Qed.

Lemma last_skipn {A} (d : A) : forall (l : list A) (k : nat),
  (k < length l)%nat -> last (skipn k l) d = last l d.
Proof.
  induction l as [|y l IH]; intros k Hk; [simpl in Hk; lia|].
  destruct k as [|k]; [reflexivity|].
  simpl in Hk. cbn [skipn]. rewrite IH by lia.
  destruct l; [simpl in Hk; lia|reflexivity].
Qed.

Lemma last_default {A} (l : list A) (d d' : A) :
  l <> [] -> last l d = last l d'.
Proof.
  induction l as [|y l IH]; intros H; [contradiction|].
  destruct l as [|y' l]; [reflexivity|].
  change (last (y' :: l) d = last (y' :: l) d'). apply IH. discriminate.
Qed.

Lemma get_last_translation_last (self : t Translation) (d : Translation) :
  get_last_translation self
  = match translation_history self with
    | [] => None
    | _ => Some (last (translation_history self) d)
    end.
Proof.
  unfold get_last_translation.
  destruct (translation_history self) as [|r h]; [reflexivity|].
  f_equal. destruct h as [|r' h]; [reflexivity|].
  change (last (r' :: h) r = last (r' :: h) d).
  apply last_default. discriminate.
Qed.

(** X24.  [translation_history] holds the last hundred results added by
    [_add_to_history] since [__init__] or the last [clear_context], and
    [get_last_translation] returns the newest of them, [None] when there
    is none; on any engine, the result just added is the one returned,
    and nothing is returned after [clear_context]. *)
Theorem X24_history_and_last_translation :
  (forall ops : list (Op Translation),
      let self := exec __init__ ops in
      let results := results_of [] ops in
      translation_history self = skipn (length results - 100) results
      /\ (length (translation_history self) <= 100)%nat
      /\ get_last_translation self
         = match results with
           | [] => None
           | r :: rs => Some (last rs r)
           end)
  /\ (forall (self : t Translation) (r : Translation),
         get_last_translation (_add_to_history self r) = Some r)
  /\ (forall self : t Translation,
         get_last_translation (clear_context self) = None).
Proof.
  refine (conj _ (conj _ _)).
  - intros ops. cbv zeta.
    destruct (exec_windows ops __init__ [] [] eq_refl eq_refl) as (_ & _ & Hh).
    cbv zeta in Hh.
    refine (conj Hh (conj _ _)).
    + rewrite Hh, length_skipn. lia.
    + destruct (results_of [] ops) as [|r rs] eqn:E.
      * unfold get_last_translation. rewrite Hh. reflexivity.
      * rewrite (get_last_translation_last _ r), Hh.
        destruct (skipn (length (r :: rs) - 100) (r :: rs)) as [|r' h] eqn:Es.
        -- exfalso. apply skipn_all_iff in Es. simpl in Es. lia.
        -- rewrite <- Es. rewrite last_skipn by (simpl; lia).
           f_equal. destruct rs as [|r2 rs]; [reflexivity|].
           change (last (r2 :: rs) r = last (r2 :: rs) r).
           reflexivity.
  - intros self r. rewrite (get_last_translation_last _ r).
    destruct (add_to_history_window self r) as (E & _). rewrite E.
    unfold deque_append.
    destruct (Nat.ltb_spec 100 (length (translation_history self ++ [r])))
      as [H|H].
    + destruct (translation_history self) as [|r0 h] eqn:Eh;
        [simpl in H; lia|].
      cbn [app tl].
      destruct (h ++ [r]) as [|r1 h1] eqn:E1;
        [destruct h; discriminate E1|].
      rewrite <- E1, last_last. reflexivity.
    + destruct (translation_history self ++ [r]) as [|r1 h1] eqn:E1;
        [destruct (translation_history self); discriminate E1|].
      rewrite <- E1, last_last. reflexivity.
  - intros self. reflexivity.
Qed.

End TranslationEngineFacts.

Section FallbackFacts.

Import TranslationEngine.

Lemma signs_have_texts :
  forallb (fun kv : string * list string =>
             forallb (fun sign =>
                        match dict_get sign SIGN_TO_TEXT_MAPPING with
                        | Some _ => true
                        | None => false
                        end) (snd kv))
          TEXT_TO_SIGN_MAPPING
  = true.
Proof. reflexivity. Qed.

Lemma known_sign (sign : string) :
  match dict_get sign SIGN_TO_TEXT_MAPPING with
  | Some _ => true
  | None => false
  end = true ->
  exists text,
    dict_get sign SIGN_TO_TEXT_MAPPING = Some text
    /\ fallback_text sign = (text, 9 # 10).
Proof.
  unfold fallback_text.
  destruct (dict_get sign SIGN_TO_TEXT_MAPPING) as [text|];
    [|discriminate].
  intros _. exists text. split; reflexivity.
Qed.

Lemma unknown_words (words : list string) :
  (forall word, In word words -> dict_get word TEXT_TO_SIGN_MAPPING = None) ->
  flat_map (fun word =>
              match dict_get word TEXT_TO_SIGN_MAPPING with
              | Some l => l
              | None => []
              end) words
  = [].
Proof.
  induction words as [|w words IH]; intros Hw; [reflexivity|].
  cbn [flat_map]. rewrite (Hw w) by (left; reflexivity).
  apply IH. intros word Hin. apply Hw. right. exact Hin.
Qed.

(** X25.  The word-matching fallback of [translate_speech_to_sign] never
    returns an empty sign list, and every sign it returns is a key of
    [SIGN_TO_TEXT_MAPPING]: translated back by the fallback of
    [translate_sign_to_speech] it gets its text with confidence 0.9, not
    the unknown-gesture text.  When no word is known the signs are
    [["what"]]. *)
Theorem X25_fallback_signs_translate_back :
  forall words : list string,
    fallback_signs words <> []
    /\ Forall (fun sign =>
                 exists text,
                   dict_get sign SIGN_TO_TEXT_MAPPING = Some text
                   /\ fallback_text sign = (text, 9 # 10))
              (fallback_signs words)
    /\ ((forall word, In word words ->
                      dict_get word TEXT_TO_SIGN_MAPPING = None) ->
        fallback_signs words = ["what"]).
Proof.
  intros words. unfold fallback_signs.
  set (signs := flat_map _ words).
  assert (Hs : Forall (fun sign =>
                         exists text,
                           dict_get sign SIGN_TO_TEXT_MAPPING = Some text
                           /\ fallback_text sign = (text, 9 # 10)) signs).
  { apply Forall_forall. intros sign Hin.
    apply in_flat_map in Hin. destruct Hin as (word & _ & Hin).
    destruct (dict_get word TEXT_TO_SIGN_MAPPING) as [l|] eqn:E;
      [|destruct Hin].
    apply dict_get_In in E.
    pose proof signs_have_texts as H.
    rewrite forallb_forall in H. specialize (H _ E). cbn [snd] in H.
    rewrite forallb_forall in H. apply known_sign, H, Hin. }
  refine (conj _ (conj _ _)).
  - destruct signs; discriminate.
  - destruct signs as [|s0 signs0] eqn:E; [|rewrite <- E in *; exact Hs].
    constructor; [|constructor]. apply known_sign. reflexivity.
  - intros Hw.
    assert (E : signs = []) by (apply unknown_words, Hw).
    rewrite E. reflexivity.
Qed.

End FallbackFacts.

Lemma X25_fallback_signs_translate_back_witness :
  TranslationEngine.fallback_signs ["xyzzy"] = ["what"].
Proof.
  destruct (X25_fallback_signs_translate_back ["xyzzy"]) as (_ & _ & H).
  apply H. intros word Hin. destruct Hin as [<-|[]]. reflexivity.
Defined.

(** ** The hand detector: gestures *)

Section HandDetectorFacts.

Import HandDetector.

Lemma identify_gesture_labels (ls : list Landmark) :
  (21 <= length ls)%nat ->
  exists gesture,
    _identify_gesture ls = Some gesture
    /\ In gesture ["stop"; "good"; "where"; "no"; "i_love_you"; "hello"].
Proof.
  intros H.
  do 21 (destruct ls as [|? ls]; [simpl in H; lia|]).
  unfold _identify_gesture, _get_finger_states.
  cbn [nth_error combine finger_loop finger_state Nat.eqb].
  repeat match goal with
         | |- context [Qgtb ?a ?b] => destruct (Qgtb a b)
         | |- context [Qltb ?a ?b] => destruct (Qltb a b)
         end;
    eexists; (split; [reflexivity|]); simpl; tauto.
Qed.

Lemma identify_gesture_short (ls : list Landmark) :
  (length ls < 21)%nat -> _identify_gesture ls = None.
Proof.
  intros H. unfold _identify_gesture, _get_finger_states.
  destruct (nth_error ls 0) as [wrist|]; [|reflexivity].
  assert (E : finger_loop ls (combine [4; 8; 12; 16; 20] [2; 5; 9; 13; 17])%nat
              = None).
  { cbn [combine finger_loop].
    assert (E20 : finger_state ls 20 17 = None).
    { unfold finger_state.
      assert (N : nth_error ls 20 = None) by (apply nth_error_None; lia).
      rewrite N. reflexivity. }
    rewrite E20.
    destruct (finger_state ls 4 2); [|reflexivity].
    destruct (finger_state ls 8 5); [|reflexivity].
    destruct (finger_state ls 12 9); [|reflexivity].
    destruct (finger_state ls 16 13); reflexivity. }
  rewrite E. reflexivity.
Qed.

(** X26.  [classify_gesture] returns [("none", 0.0)] when no hand was
    detected or there are no landmarks.  Otherwise it looks at the first
    hand only: with fewer than 21 landmarks the indexing raises; with 21
    or more it returns, with confidence 0.85, one of the six labels
    stop, good, where, no, i_love_you, hello, each of which has a text
    in [SIGN_TO_TEXT_MAPPING] (so that the fallback of
    [translate_sign_to_speech] gives confidence 0.9). *)
Theorem X26_gesture_labels :
  forall (detected : bool) (hands : list (list Landmark)),
    let result := classify_gesture (mkHandData detected hands) in
    (detected = false \/ hands = [] -> result = Some ("none", 0))
    /\ (forall first rest,
           detected = true -> hands = first :: rest ->
           ((length first < 21)%nat -> result = None)
           /\ ((21 <= length first)%nat ->
               exists gesture,
                 result = Some (gesture, 85 # 100)
                 /\ In gesture
                       ["stop"; "good"; "where"; "no"; "i_love_you"; "hello"]
                 /\ snd (TranslationEngine.fallback_text gesture) = 9 # 10)).
Proof.
  intros detected hands. cbv zeta. split.
  - intros [-> | ->]; [reflexivity|].
    unfold classify_gesture. destruct detected; reflexivity.
  - intros first rest -> ->. unfold classify_gesture.
    cbn [hands_detected landmarks negb].
    split.
    + intros H. rewrite (identify_gesture_short _ H). reflexivity.
    + intros H.
      destruct (identify_gesture_labels _ H) as (g & E & Hin).
      rewrite E. exists g. refine (conj eq_refl (conj Hin _)).
      simpl in Hin.
      destruct Hin as [<-|[<-|[<-|[<-|[<-|[<-|[]]]]]]]; reflexivity.
Qed.

End HandDetectorFacts.

Lemma X26_gesture_labels_witness :
  exists gesture,
    HandDetector.classify_gesture
      (HandDetector.mkHandData
         true [repeat (HandDetector.mkLandmark (1 # 2) (1 # 2) 0) 21])
    = Some (gesture, 85 # 100)
    /\ In gesture ["stop"; "good"; "where"; "no"; "i_love_you"; "hello"].
Proof.
  destruct (X26_gesture_labels
              true [repeat (HandDetector.mkLandmark (1 # 2) (1 # 2) 0) 21])
    as (_ & H).
  destruct (H (repeat (HandDetector.mkLandmark (1 # 2) (1 # 2) 0) 21) []
              eq_refl eq_refl) as (_ & H2).
  destruct H2 as (gesture & E & Hin & _); [simpl; lia|].
  exists gesture. split; assumption.
Defined.

(** ** The mode arbitrator: loud audio *)

Section SpeechPriorityFacts.

Import ModeManager.

(** X27.  Loud audio wins in every mode: once the cooldown is over, a
    call for which the average of the audio window, the new sample
    included, is above the (non-negative) audio threshold returns
    [SPEECH_TO_SIGN], whatever the current mode, the motion and the
    hands, and the object holds that mode.  On empty buffers the first
    sample decides alone: above the threshold it selects
    [SPEECH_TO_SIGN]. *)
Theorem X27_loud_average_selects_speech :
  forall (self : t) (audio_level motion_level : Q) (has_hands : bool)
         (now now' : Q),
    0 <= audio_level_threshold self ->
    mode_switch_cooldown self <= now - last_mode_switch self ->
    let r := detect_active_mode self audio_level motion_level has_hands
                                now now' in
    let window := push (buffer_size self) (audio_levels self) audio_level in
    (audio_level_threshold self < average window ->
     fst r = SPEECH_TO_SIGN /\ current_mode (snd r) = SPEECH_TO_SIGN)
    /\ ((1 <= buffer_size self)%nat -> audio_levels self = [] ->
        audio_level_threshold self < audio_level ->
        fst r = SPEECH_TO_SIGN /\ current_mode (snd r) = SPEECH_TO_SIGN).
Proof.
  intros self a m h now now' Hthr Hcool. cbv zeta.
  assert (H1 : audio_level_threshold self
               < average (push (buffer_size self) (audio_levels self) a) ->
               fst (detect_active_mode self a m h now now') = SPEECH_TO_SIGN
               /\ current_mode (snd (detect_active_mode self a m h now now'))
                  = SPEECH_TO_SIGN).
  { intros Havg.
    assert (Hdet :
      detected self
        (average (push (buffer_size self) (audio_levels self) a))
        (average (push (buffer_size self) (motion_levels self) m)) h
      = SPEECH_TO_SIGN).
    { unfold detected.
      assert (G : Qgtb (average (push (buffer_size self)
                                      (audio_levels self) a))
                       (audio_level_threshold self) = true)
        by (apply Qgtb_gt; exact Havg).
      assert (L : Qltb (average (push (buffer_size self)
                                      (audio_levels self) a))
                       (audio_level_threshold self * (1 # 2)) = false)
        by (apply Qltb_ge; lra).
      destruct (current_mode self); rewrite ?G, ?L; reflexivity. }
    destruct (detect_cases self a m h now now') as [C|[C|C]]; cbv zeta in C.
    - destruct C as (C & _). exfalso. lra.
    - destruct C as (_ & E & E1 & E2 & _).
      rewrite E2, <- E1, E. auto.
    - destruct C as (_ & E & _ & E2 & _).
      rewrite E2, E. auto. }
  split; [exact H1|].
  intros Hsz Hb Hlt. apply H1.
  rewrite Hb, (push_empty _ _ Hsz), average_singleton. exact Hlt.
Qed.

Lemma X27_loud_average_selects_speech_witness :
  fst (detect_active_mode (set_mode (__init__ 0) SIGN_TO_SPEECH 0)
                          (1 # 2) 1 true 5 5)
  = SPEECH_TO_SIGN.
Proof.
  destruct (X27_loud_average_selects_speech
              (set_mode (__init__ 0) SIGN_TO_SPEECH 0) (1 # 2) 1 true 5 5)
    as (_ & H).
  - simpl. lra.
  - simpl. lra.
  - apply H.
    + simpl. lia.
    + reflexivity.
    + simpl. lra.
Defined.

End SpeechPriorityFacts.

(** ** The ensemble translator: the ranking of the weights *)

Section WeightRankingFacts.

Import EnsembleTranslator.

Lemma sum_nonneg (l : list Q) :
  Forall (fun x => 0 <= x) l ->
  0 <= sum l /\ forall x, In x l -> x <= sum l.
Proof.
  intros H. induction H as [|y l Hy _ (IH0 & IH)].
  - split; [apply Qle_refl|]. intros x [].
  - split.
    + rewrite sum_cons. lra.
    + intros x [<-|Hin]; rewrite sum_cons; [lra|].
      specialize (IH x Hin). lra.
Qed.

Lemma sum_nonneg_pos (l : list Q) :
  Forall (fun x => 0 <= x) l -> Exists (fun x => 0 < x) l -> 0 < sum l.
Proof.
  intros H He. apply Exists_exists in He. destruct He as (x & Hin & Hx).
  destruct (sum_nonneg l H) as (_ & Hle). specialize (Hle x Hin). lra.
Qed.

Lemma nth_map_div (l : list Q) (d : Q) (i : nat) :
  (i < length l)%nat ->
  nth i (map (fun x => x / d) l) 0 = nth i l 0 / d.
Proof.
  intros H.
  rewrite (nth_indep _ 0 ((fun x => x / d) 0)) by (rewrite length_map; exact H).
  apply (map_nth (fun x => x / d)).
Qed.

(** X28.  [update_ensemble_weights] keeps the names of the channels,
    their order and their ranking: weights that are not negative and not
    all zero are accepted, every stored weight lies between 0 and 1, a
    channel whose weight is at most another's gets a stored weight at
    most the other's, and neither the cached results nor the statistics
    change. *)
Theorem X28_weight_update_keeps_ranking :
  forall (self : t) (weights : list (string * Q)),
    Forall (fun kv => 0 <= snd kv) weights ->
    Exists (fun kv => 0 < snd kv) weights ->
    exists self',
      update_ensemble_weights self weights = Some self'
      /\ keys (ensemble_weights self') = keys weights
      /\ Forall (fun kv => 0 <= snd kv <= 1) (ensemble_weights self')
      /\ (forall i j,
             (i < length weights)%nat -> (j < length weights)%nat ->
             nth i (values weights) 0 <= nth j (values weights) 0 ->
             nth i (values (ensemble_weights self')) 0
             <= nth j (values (ensemble_weights self')) 0)
      /\ results_cache self' = results_cache self
      /\ stats self' = stats self.
Proof.
  intros self weights Hnn Hex.
  assert (Hv : Forall (fun x => 0 <= x) (values weights))
    by (unfold values; rewrite Forall_map; exact Hnn).
  assert (Hp : 0 < sum (values weights)).
  { apply sum_nonneg_pos; [exact Hv|].
    unfold values. rewrite Exists_map. exact Hex. }
  assert (Hne : weights <> []) by (intros ->; inversion Hex).
  destruct (update_weights_defined self weights) as (self' & E); [lra|].
  destruct (update_weights_normalized _ _ _ Hne E) as (W & _).
  exists self'.
  refine (conj E (conj _ (conj _ (conj _ (conj _ _))))).
  - rewrite W. unfold keys. rewrite map_map. reflexivity.
  - rewrite W. apply Forall_forall. intros kv Hin.
    apply in_map_iff in Hin. destruct Hin as (kv0 & <- & Hin).
    cbn [snd].
    assert (H0 : 0 <= snd kv0)
      by (rewrite Forall_forall in Hnn; apply Hnn, Hin).
    assert (H1 : snd kv0 <= sum (values weights)).
    { apply (proj2 (sum_nonneg _ Hv)). unfold values. apply in_map, Hin. }
    split.
    + apply Qle_shift_div_l; [exact Hp|]. lra.
    + apply Qle_shift_div_r; [exact Hp|]. lra.
  - intros i j Hi Hj Hle. rewrite W, values_map_div.
    rewrite !nth_map_div by (unfold values; rewrite length_map; assumption).
    unfold Qdiv. apply Qmult_le_compat_r; [exact Hle|].
    apply Qlt_le_weak, Qinv_lt_0_compat, Hp.
  - apply (update_weights_cache _ _ _ E).
  - apply (update_weights_stats _ _ _ E).
Qed.

End WeightRankingFacts.

Lemma X28_weight_update_keeps_ranking_witness :
  exists self',
    EnsembleTranslator.update_ensemble_weights
      (EnsembleTranslator.__init__ vocab0 None) [("i3d", 3); ("tgcn", 1)]
    = Some self'
    /\ keys (EnsembleTranslator.ensemble_weights self') = ["i3d"; "tgcn"].
Proof.
  destruct (X28_weight_update_keeps_ranking
              (EnsembleTranslator.__init__ vocab0 None)
              [("i3d", 3); ("tgcn", 1)])
    as (self' & E & K & _).
  - repeat constructor; simpl; lra.
  - left. simpl. lra.
  - exists self'. split; [exact E | exact K].
Defined.
